(** * Markdown Table Editor: a shallow embedding of [script.js]

    The editor keeps a pipe-delimited Markdown text and an HTML table in
    step.  This development embeds the class [MarkdownTableEditor]:

    - JavaScript strings are sequences of UTF-16 code units ([list N]);
      [trim], [split], [join], [includes] and the separator regular
      expression are written out on them;
    - the part of the document the class reads and writes (the [thead] and
      [tbody] of [editableTable], and the textarea's value) is a record;
    - the fields of the class are a record, and every method is a function
      from editor state to an [outcome], which is either a normal return or a
      [TypeError] thrown at a property access on [null];
    - a cell is the text it holds; [innerHTML], by which a drop exchanges
      two cells, is the HTML written for that text, and assigning it is
      parsing that HTML back into text;
    - module [View] is the same class with the attributes of the cells and
      the controls [updateUI] writes, and is shown to agree with the first
      model on everything the first model sees. *)

From Stdlib Require Import String Ascii NArith DecimalString Sorted.
From stdpp Require Import base list.

Open Scope N_scope.

(** ** JavaScript strings *)

Abbreviation str := (list N).

(** A string literal of the source, as code units. *)
Definition js (s : string) : str :=
  map N_of_ascii (list_ascii_of_string s).

Definition pipe : N := 124.
Definition dash : N := 45.
Definition colon : N := 58.
Definition space : N := 32.
Definition LF : N := 10.

(** WhiteSpace and LineTerminator of ECMAScript: what [String.prototype.trim]
    strips and what [\s] matches. *)
Definition is_space (c : N) : bool :=
  ((9 <=? c) && (c <=? 13)) || (c =? 32) || (c =? 160) || (c =? 5760)
  || ((8192 <=? c) && (c <=? 8202)) || (c =? 8232) || (c =? 8233)
  || (c =? 8239) || (c =? 8287) || (c =? 12288) || (c =? 65279).

Fixpoint trimStart (s : str) : str :=
  match s with
  | c :: s' => if is_space c then trimStart s' else s
  | [] => []
  end.

Fixpoint trimEnd (s : str) : str :=
  match s with
  | c :: s' =>
      match trimEnd s' with
      | [] => if is_space c then [] else [c]
      | t => c :: t
      end
  | [] => []
  end.

Definition trim (s : str) : str := trimStart (trimEnd s).

(** [s.split(sep)] for a one-character separator: never the empty array. *)
Fixpoint split (sep : N) (s : str) : list str :=
  match s with
  | [] => [[]]
  | c :: s' =>
      if c =? sep then [] :: split sep s'
      else match split sep s' with
           | p :: ps => (c :: p) :: ps
           | [] => [[c]]
           end
  end.

(** [parts.join(sep)]. *)
Fixpoint join (sep : str) (parts : list str) : str :=
  match parts with
  | [] => []
  | [p] => p
  | p :: ps => p ++ sep ++ join sep ps
  end.

Definition includes (c : N) (s : str) : bool := existsb (N.eqb c) s.

Definition is_empty (s : str) : bool :=
  match s with [] => true | _ => false end.

(** The character class [[\s\-\|:]]. *)
Definition sep_class (c : N) : bool :=
  is_space c || (c =? dash) || (c =? pipe) || (c =? colon).

(** What it is for a string to match [/^\s*\|[\s\-\|:]+\|\s*$/]: the
    reading of the regular expression, one factor per piece. *)
Definition re_separator (s : str) : Prop :=
  ∃ w1 m w2 : str,
    s = w1 ++ pipe :: m ++ pipe :: w2
    ∧ forallb is_space w1 = true
    ∧ m ≠ [] ∧ forallb sep_class m = true
    ∧ forallb is_space w2 = true.

(** The matcher: both pipes of the pattern are forced (the first is the first
    character that is not white space, the last is the last one), so the
    match is decided without backtracking. *)
Definition matches_separator (s : str) : bool :=
  match trim s with
  | p :: rest =>
      (p =? pipe) &&
      match rev rest with
      | q :: m => (q =? pipe) && negb (is_empty m) && forallb sep_class m
      | [] => false
      end
  | [] => false
  end.

(** ** markdownToTable *)

(** [cells.shift()] when [cells[0] === ''].  *)
Definition shift_blank (cells : list str) : list str :=
  match cells with
  | [] :: rest => rest
  | _ => cells
  end.

(** [cells.pop()] when [cells[cells.length - 1] === ''] (on the empty array
    the read is [undefined] and nothing is popped). *)
Definition pop_blank (cells : list str) : list str :=
  match last cells with
  | Some [] => removelast cells
  | _ => cells
  end.

(** The cells of one retained line. *)
Definition line_cells (line : str) : list str :=
  pop_blank (shift_blank (map trim (split pipe line))).

(** The [for] loop of [markdownToTable] from index [i] on, [rows] being the
    array built so far. *)
Fixpoint scan_lines (i : nat) (lines : list str) (rows : list (list str))
  : list (list str) :=
  match lines with
  | [] => rows
  | l :: rest =>
      let line := trim l in
      if is_empty line || negb (includes pipe line) then
        scan_lines (S i) rest rows
      else if (i =? 1)%nat && matches_separator line then
        scan_lines (S i) rest rows
      else
        scan_lines (S i) rest (rows ++ [line_cells line])
  end.

(** [None] is the [null] of the source. *)
Definition markdownToTable (markdown : str) : option (list (list str)) :=
  let lines := split LF (trim markdown) in
  if (length lines <? 2)%nat then None
  else
    match scan_lines 0 lines [] with
    | [] => None
    | rows => Some rows
    end.

(** ** The document

    What the class reads and writes of [editableTable]: whether it has a
    [thead] and a [tbody], whether the [thead] has its [tr], and the text of
    each [th] and [td].  [clearTable] leaves a [thead] without a [tr];
    [renderTable] always builds both sections.  Classes, styles and the
    [contenteditable] attribute are presentation and are left out. *)

Record Dom := mkDom {
  thead : option (option (list str));
  tbody : option (list (list str))
}.

(** [thead.querySelector('tr')] and [querySelector('thead tr')]. *)
Definition headerRow (d : Dom) : option (list str) :=
  match thead d with
  | Some tr => tr
  | None => None
  end.

(** [editableTable.rows]: the rows of the [thead], then those of the
    [tbody]. *)
Definition table_rows (d : Dom) : list (list str) :=
  match headerRow d with Some h => [h] | None => [] end
  ++ match tbody d with Some b => b | None => [] end.

(** ** The editor *)

Record Editor := mkEditor {
  markdownInput : str;
  editableTable : Dom;
  selectedRow : option nat;
  selectedColumn : option nat;
  isDragMode : bool;
  draggedSrcColIndex : option nat;
  swapInProgress : bool
}.

Definition with_input (v : str) (e : Editor) : Editor :=
  mkEditor v (editableTable e) (selectedRow e) (selectedColumn e)
           (isDragMode e) (draggedSrcColIndex e) (swapInProgress e).

Definition with_table (d : Dom) (e : Editor) : Editor :=
  mkEditor (markdownInput e) d (selectedRow e) (selectedColumn e)
           (isDragMode e) (draggedSrcColIndex e) (swapInProgress e).

Definition with_selectedRow (r : option nat) (e : Editor) : Editor :=
  mkEditor (markdownInput e) (editableTable e) r (selectedColumn e)
           (isDragMode e) (draggedSrcColIndex e) (swapInProgress e).

Definition with_selectedColumn (c : option nat) (e : Editor) : Editor :=
  mkEditor (markdownInput e) (editableTable e) (selectedRow e) c
           (isDragMode e) (draggedSrcColIndex e) (swapInProgress e).

Definition with_dragMode (b : bool) (e : Editor) : Editor :=
  mkEditor (markdownInput e) (editableTable e) (selectedRow e)
           (selectedColumn e) b (draggedSrcColIndex e) (swapInProgress e).

Definition with_dragged (s : option nat) (e : Editor) : Editor :=
  mkEditor (markdownInput e) (editableTable e) (selectedRow e)
           (selectedColumn e) (isDragMode e) s (swapInProgress e).

Definition with_swapInProgress (b : bool) (e : Editor) : Editor :=
  mkEditor (markdownInput e) (editableTable e) (selectedRow e)
           (selectedColumn e) (isDragMode e) (draggedSrcColIndex e) b.

(** A handler returns, or throws a [TypeError] on reading a property of
    [null]; either way the editor is left in some state. *)
Inductive outcome :=
| Returned (e : Editor)
| Threw (e : Editor).

Definition state_after (o : outcome) : Editor :=
  match o with Returned e | Threw e => e end.

Definition threw (o : outcome) : bool :=
  match o with Returned _ => false | Threw _ => true end.

(** The state the constructor and [init] leave, over the page's table and
    textarea. *)
Definition initial (d : Dom) (text : str) : Editor :=
  mkEditor text d None None false None false.

(** ** tableToMarkdown *)

Definition render_line (cellTexts : list str) : str :=
  js "| " ++ join (js " | ") cellTexts ++ js " |" ++ [LF].

Definition separator_line (cells : list str) : str :=
  js "| " ++ join (js " | ") (map (λ _, js "---") cells) ++ js " |" ++ [LF].

Definition header_markdown (d : Dom) : str :=
  match thead d with
  | Some (Some cells) =>
      if (0 <? length cells)%nat
      then render_line cells ++ separator_line cells
      else []
  | _ => []
  end.

Definition body_markdown (markdown : str) (bodyRows : list (list str)) : str :=
  fold_left
    (λ md cells,
       if (length cells =? 0)%nat then md else md ++ render_line cells)
    bodyRows markdown.

Definition tableToMarkdown (d : Dom) : str :=
  match thead d, tbody d with
  | None, None => []
  | _, Some bodyRows => body_markdown (header_markdown d) bodyRows
  | _, None => header_markdown d
  end.

Definition updateMarkdown (e : Editor) : Editor :=
  with_input (tableToMarkdown (editableTable e)) e.

(** ** renderTable, clearTable, parseMarkdown *)

Definition renderTable (rows : list (list str)) (e : Editor) : Editor :=
  with_table
    (mkDom (Some (match rows with r :: _ => Some r | [] => None end))
           (Some (tail rows)))
    e.

Definition clearTable (e : Editor) : Editor :=
  with_table (mkDom (Some None) (Some [])) e.

Definition parseMarkdown (e : Editor) : Editor :=
  let markdown := markdownInput e in
  if is_empty (trim markdown) then clearTable e
  else
    match markdownToTable markdown with
    | Some table => renderTable table e
    | None => e
    end.

Definition clearSelections (e : Editor) : Editor :=
  with_selectedColumn None (with_selectedRow None e).

Definition defaultTable : str :=
  js "| Header 1 | Header 2 | Header 3 |" ++ [LF]
  ++ js "| --- | --- | --- |" ++ [LF]
  ++ js "| Cell 1 | Cell 2 | Cell 3 |" ++ [LF]
  ++ js "| Cell 4 | Cell 5 | Cell 6 |".

Definition createNewTable (e : Editor) : Editor :=
  clearSelections (parseMarkdown (with_input defaultTable e)).

(** ** Structural operations *)

Definition addRow (e : Editor) : Editor :=
  let d := editableTable e in
  match tbody d with
  | None => e
  | Some body =>
      match headerRow d with
      | None => e
      | Some header =>
          let colCount := length header in
          let newRow := replicate colCount ([] : str) in
          updateMarkdown
            (with_table (mkDom (thead d) (Some (body ++ [newRow]))) e)
      end
  end.

(** The decimal digits of a number, as a template literal prints it. *)
Definition decimal (n : nat) : str :=
  js (NilZero.string_of_uint (Nat.to_uint n)).

Definition addColumn (e : Editor) : outcome :=
  let d := editableTable e in
  match thead d, tbody d with
  | Some tr, Some bodyRows =>
      match tr with
      | None => Threw e
      | Some header =>
          let colCount := length header in
          let th := js "Header " ++ decimal (colCount + 1) in
          Returned
            (updateMarkdown
               (with_table
                  (mkDom (Some (Some (header ++ [th])))
                         (Some (map (λ row, row ++ [[]]) bodyRows)))
                  e))
      end
  | _, _ => Returned e
  end.

Definition deleteRow (e : Editor) : Editor :=
  let d := editableTable e in
  match tbody d with
  | None => e
  | Some rows =>
      match selectedRow e, isDragMode e with
      | Some sel, false =>
          (* rows[sel - 1]: the header is row 0 *)
          match sel with
          | S k =>
              match rows !! k with
              | Some _ =>
                  updateMarkdown
                    (clearSelections
                       (with_table (mkDom (thead d) (Some (delete k rows))) e))
              | None => e
              end
          | O => e
          end
      | _, _ =>
          if (0 <? length rows)%nat then
            updateMarkdown
              (with_table (mkDom (thead d) (Some (removelast rows))) e)
          else e
      end
  end.

Definition remove_cell_at (sel : nat) (cells : list str) : list str :=
  match cells !! sel with
  | Some _ => delete sel cells
  | None => cells
  end.

Definition remove_last_cell (cells : list str) : list str :=
  if (0 <? length cells)%nat then removelast cells else cells.

Definition deleteColumn (e : Editor) : outcome :=
  let d := editableTable e in
  match thead d, tbody d with
  | Some tr, Some bodyRows =>
      match selectedColumn e, isDragMode e with
      | Some sel, false =>
          match tr with
          | None => Threw e
          | Some headerCells =>
              if (length headerCells <=? 1)%nat then Returned e
              else
                match headerCells !! sel with
                | Some _ =>
                    Returned
                      (updateMarkdown
                         (clearSelections
                            (with_table
                               (mkDom (Some (Some (delete sel headerCells)))
                                      (Some (map (remove_cell_at sel) bodyRows)))
                               e)))
                | None => Returned e
                end
          end
      | _, _ =>
          match tr with
          | None => Threw e
          | Some headerCells =>
              if (length headerCells <=? 1)%nat then Returned e
              else
                Returned
                  (updateMarkdown
                     (with_table
                        (mkDom (Some (Some (removelast headerCells)))
                               (Some (map remove_last_cell bodyRows)))
                        e))
          end
      end
  | _, _ => Returned e
  end.

(** ** Mode and selection *)

Definition toggleMode (e : Editor) : Editor :=
  clearSelections (with_dragMode (negb (isDragMode e)) e).

(** The element a click lands on: a body cell (its row among the children of
    the [tbody], its column), a header cell, an element inside a cell, or
    anything else in the table. *)
Inductive target :=
| TD (row col : nat)
| TH (col : nat)
| InsideCell
| Elsewhere.

(** The click listener of [initSelectionSystem]. *)
Definition handleClick (tg : target) (e : Editor) : outcome :=
  if isDragMode e then Returned e
  else
    match tg with
    | TD row _ =>
        let rowIndex := (row + 1)%nat in (* +1 for header offset *)
        Returned (with_selectedRow (Some rowIndex) (clearSelections e))
    | TH cellIndex =>
        let e' := with_selectedColumn (Some cellIndex) (clearSelections e) in
        match tbody (editableTable e) with
        | Some _ => Returned e'
        | None => Threw e'
        end
    | InsideCell => Returned e
    | Elsewhere => Returned (clearSelections e)
    end.

(** ** Drag and drop *)

(** [draggable] is the attribute of the header the drag starts on, as the
    event finds it. *)
Definition handleDragStart (draggable : bool) (index : nat) (e : Editor)
  : Editor :=
  if negb (isDragMode e) then e
  else if negb draggable then e
  else with_dragged (Some index) e.

Definition handleDragEnd (e : Editor) : Editor := with_dragged None e.

Definition handleDragOver (e : Editor) : Editor := e.

(** *** [innerHTML] of a cell that holds text

    The exchange of two cells goes through [innerHTML]: the text of a cell
    is written out as HTML and the HTML is parsed into the other cell. *)

Definition ampersand : N := 38.
Definition less_than : N := 60.
Definition greater_than : N := 62.
Definition nbsp : N := 160.
Definition hash : N := 35.
Definition CR : N := 13.
Definition NUL : N := 0.

(** The getter, on a cell whose content is the text [text]: the HTML
    serialization of a text node, which escapes four characters. *)
Definition escape (c : N) : str :=
  if c =? ampersand then js "&amp;"
  else if c =? nbsp then js "&nbsp;"
  else if c =? less_than then js "&lt;"
  else if c =? greater_than then js "&gt;"
  else [c].

Definition innerHTML (text : str) : str := concat (map escape text).

(** The parser's input stream: a CR LF pair is one LF, any other CR is an
    LF.  [after_cr] tells that the character before was a CR. *)
Fixpoint normalize_newlines (after_cr : bool) (s : str) : str :=
  match s with
  | [] => []
  | c :: rest =>
      if c =? CR then LF :: normalize_newlines true rest
      else if (c =? LF) && after_cr then normalize_newlines false rest
      else c :: normalize_newlines false rest
  end.

Fixpoint starts_with (prefix s : str) : bool :=
  match prefix, s with
  | [], _ => true
  | a :: prefix', b :: s' => (a =? b) && starts_with prefix' s'
  | _ :: _, [] => false
  end.

Definition is_alphanumeric (c : N) : bool :=
  ((48 <=? c) && (c <=? 57)) || ((65 <=? c) && (c <=? 90))
  || ((97 <=? c) && (c <=? 122)).

(** The tokenizer and the tree builder on HTML that holds text only: the
    four character references the getter writes stand for their characters,
    an ampersand that starts no reference stands for itself, and U+0000 is
    ignored.  [skip] counts the characters of a reference still to be passed.
    [None] is HTML outside this fragment: a tag, or another reference. *)
Fixpoint text_of_html (skip : nat) (html : str) : option str :=
  match html with
  | [] => Some []
  | c :: rest =>
      match skip with
      | S k => text_of_html k rest
      | O =>
          if c =? less_than then None
          else if c =? ampersand then
            if starts_with (js "amp;") rest
            then option_map (cons ampersand) (text_of_html 4 rest)
            else if starts_with (js "lt;") rest
            then option_map (cons less_than) (text_of_html 3 rest)
            else if starts_with (js "gt;") rest
            then option_map (cons greater_than) (text_of_html 3 rest)
            else if starts_with (js "nbsp;") rest
            then option_map (cons nbsp) (text_of_html 5 rest)
            else
              match rest with
              | c' :: _ =>
                  if is_alphanumeric c' || (c' =? hash) then None
                  else option_map (cons ampersand) (text_of_html 0 rest)
              | [] => Some [ampersand]
              end
          else if c =? NUL then text_of_html 0 rest
          else option_map (cons c) (text_of_html 0 rest)
      end
  end.

(** The text of a cell after [cell.innerHTML = html]. *)
Definition parse_innerHTML (html : str) : option str :=
  text_of_html 0 (normalize_newlines false html).

(** The text a cell holds once it has been given the [innerHTML] of a cell
    that held [text]: the escapes are read back as the characters they were
    written for, so what is left of the passage through HTML is that of the
    parser, line ends made LF and U+0000 gone ([parse_innerHTML_innerHTML]
    below). *)
Definition reparsed (text : str) : str :=
  List.filter (λ c, negb (c =? NUL)) (normalize_newlines false text).

(** *** The exchange *)

(** [cells[i].innerHTML = html], for the HTML read from a cell of text
    [text].  The flag tells that the statement threw: a property of
    [undefined] cannot be set. *)
Definition assign_innerHTML (i : nat) (text : str) (cells : list str)
  : list str * bool :=
  match cells !! i with
  | Some _ => (<[i := reparsed text]> cells, false)
  | None => (cells, true)
  end.

(** The body of the loop for one row: the guard that both cells exist, then
    the two reads and the two assignments, each of which throws on a cell
    that is [undefined].  The row as the body leaves it, and whether it was
    left by an exception. *)
Definition swap_row (sourceIndex targetIndex : nat) (cells : list str)
  : list str * bool :=
  match cells !! sourceIndex, cells !! targetIndex with
  | Some _, Some _ =>
      match cells !! sourceIndex with
      | None => (cells, true)
      | Some temp =>
          match cells !! targetIndex with
          | None => (cells, true)
          | Some content =>
              let '(cells1, thrown) :=
                assign_innerHTML sourceIndex content cells in
              if thrown then (cells1, true)
              else assign_innerHTML targetIndex temp cells1
          end
      end
  | _, _ => (cells, false)
  end.

(** The loop, which an exception leaves with the later rows untouched. *)
Fixpoint swap_rows (sourceIndex targetIndex : nat) (rows : list (list str))
  : list (list str) * bool :=
  match rows with
  | [] => ([], false)
  | cells :: rest =>
      let '(cells', thrown) := swap_row sourceIndex targetIndex cells in
      if thrown then (cells' :: rest, true)
      else
        let '(rest', thrown') := swap_rows sourceIndex targetIndex rest in
        (cells' :: rest', thrown')
  end.

(** The loop over [editableTable.rows]: the header row, then the body
    rows. *)
Definition swap_table (sourceIndex targetIndex : nat) (d : Dom) : Dom * bool :=
  let '(th, thrown) :=
    match thead d with
    | Some (Some cells) =>
        let '(cells', thrown) := swap_row sourceIndex targetIndex cells in
        (Some (Some cells'), thrown)
    | th => (th, false)
    end in
  if thrown then (mkDom th (tbody d), true)
  else
    match tbody d with
    | Some rows =>
        let '(rows', thrown') := swap_rows sourceIndex targetIndex rows in
        (mkDom th (Some rows'), thrown')
    | None => (mkDom th None, false)
    end.

(** The row and the table as the loop leaves them. *)
Definition swap_cells (sourceIndex targetIndex : nat) (cells : list str)
  : list str := fst (swap_row sourceIndex targetIndex cells).

Definition swap_columns (sourceIndex targetIndex : nat) (d : Dom) : Dom :=
  fst (swap_table sourceIndex targetIndex d).

(** The body of the [try] block: the state it reaches, and whether it got
    there by an exception, in which case [updateMarkdown] has not run. *)
Definition swap_body (sourceIndex targetIndex : nat) (e : Editor)
  : Editor * bool :=
  let '(d, thrown) := swap_table sourceIndex targetIndex (editableTable e) in
  if thrown then (with_table d e, true)
  else (updateMarkdown (with_table d e), false).

(** [handleDrop] over any [try] body: the [catch] only logs, the [finally]
    resets the drag state. *)
Definition handleDrop_with
    (try_body : nat → nat → Editor → Editor * bool)
    (targetIndex : nat) (e : Editor) : Editor :=
  if negb (isDragMode e) then e
  else if swapInProgress e then e
  else
    match draggedSrcColIndex e with
    | None => e
    | Some sourceIndex =>
        if (targetIndex =? sourceIndex)%nat then e
        else
          let e1 := with_swapInProgress true e in
          let '(e2, _) := try_body sourceIndex targetIndex e1 in
          with_swapInProgress false (with_dragged None e2)
    end.

Definition handleDrop : nat → Editor → Editor := handleDrop_with swap_body.

(** ** Gestures *)

(** Where an edited cell sits. *)
Inductive location :=
| InHeader (col : nat)
| InBody (row col : nat).

(** The browser replaces the text of an editable cell. *)
Definition set_cell (loc : location) (text : str) (d : Dom) : Dom :=
  match loc with
  | InHeader col =>
      mkDom (option_map (option_map (λ h : list str, <[col := text]> h)) (thead d))
            (tbody d)
  | InBody row col =>
      mkDom (thead d)
            (option_map
               (λ b : list (list str),
                  match b !! row with
                  | Some cells => <[row := <[col := text]> cells]> b
                  | None => b
                  end) (tbody d))
  end.

Inductive event :=
| Input (text : str)
| CreateTable
| EditCell (loc : location) (text : str)
| AddRow
| AddColumn
| DeleteRow
| DeleteColumn
| ToggleMode
| Click (tg : target)
| DragStart (draggable : bool) (index : nat)
| DragOver
| DragEnd
| Drop (targetIndex : nat).

(** The listeners registered by [init] and [attachDragListeners]. *)
Definition dispatch (ev : event) (e : Editor) : outcome :=
  match ev with
  | Input text => Returned (parseMarkdown (with_input text e))
  | CreateTable => Returned (createNewTable e)
  | EditCell loc text =>
      Returned (updateMarkdown (with_table (set_cell loc text (editableTable e)) e))
  | AddRow => Returned (addRow e)
  | AddColumn => addColumn e
  | DeleteRow => Returned (deleteRow e)
  | DeleteColumn => deleteColumn e
  | ToggleMode => Returned (toggleMode e)
  | Click tg => handleClick tg e
  | DragStart draggable index => Returned (handleDragStart draggable index e)
  | DragOver => Returned (handleDragOver e)
  | DragEnd => Returned (handleDragEnd e)
  | Drop targetIndex => Returned (handleDrop targetIndex e)
  end.

(** Gestures are handled one after the other; an exception ends its handler
    and leaves the editor as it was at the throw. *)
Definition run (evs : list event) (e : Editor) : Editor :=
  fold_left (λ s ev, state_after (dispatch ev s)) evs e.

(** Every gesture but typing in the textarea. *)
Definition keeps_text (ev : event) : bool :=
  match ev with Input _ => false | _ => true end.

(** ** Notions the properties are stated with *)

Definition bodyRows (d : Dom) : list (list str) :=
  match tbody d with Some b => b | None => [] end.

(** The column count: the number of header cells. *)
Definition header_length (d : Dom) : nat :=
  match headerRow d with Some h => length h | None => O end.

(** Every body row has as many cells as the header. *)
Definition uniform (d : Dom) : Prop :=
  Forall (λ row : list str, length row = header_length d) (bodyRows d).

(** The selection the two fields stand for.  [selectedRow] counts the header
    as row 0 (the click listener adds 1, [deleteRow] subtracts it), so the
    body row it designates is [selectedRow - 1], and 0 designates none. *)
Inductive Selection :=
| NoSelection
| RowSelected (rowIndex : nat)
| ColumnSelected (colIndex : nat).

Definition selection (e : Editor) : Selection :=
  match selectedRow e, selectedColumn e with
  | Some (S k), _ => RowSelected k
  | Some O, _ => NoSelection
  | None, Some c => ColumnSelected c
  | None, None => NoSelection
  end.

(** At most one of the two fields is set. *)
Definition exclusive (e : Editor) : Prop :=
  selectedRow e = None ∨ selectedColumn e = None.

(** A row selection that designates no body row of the current table. *)
Definition stale_row (e : Editor) (sel : nat) : Prop :=
  sel = O ∨ (length (bodyRows (editableTable e)) < sel)%nat.

(** A line that passes the first test of the loop: not blank once trimmed,
    and with a pipe in it. *)
Definition is_table_line (l : str) : bool :=
  negb (is_empty (trim l)) && includes pipe (trim l).

(** The lines of the input as [markdownToTable] numbers them: the text is
    trimmed as a whole first, then cut at each line feed. *)
Definition raw_lines (markdown : str) : list str :=
  split LF (trim markdown).

(** The line at index [i] yields a row. *)
Definition survives (i : nat) (l : str) : Prop :=
  is_table_line l = true ∧ ¬ (i = 1%nat ∧ re_separator (trim l)).

(** The lines that yield a row, each with its index, from index [i] on:
    what [scan_lines] is checked against. *)
Fixpoint surviving_from (i : nat) (lines : list str) : list (nat * str) :=
  match lines with
  | [] => []
  | l :: rest =>
      if is_table_line l && negb ((i =? 1)%nat && matches_separator (trim l))
      then (i, l) :: surviving_from (S i) rest
      else surviving_from (S i) rest
  end.

(** The row a surviving line yields. *)
Definition row_of (p : nat * str) : list str := line_cells (trim (snd p)).

(** A table as [markdownToTable] returns it and [renderTable] takes it: the
    header first.  Well formed: at least one column, and every row as long
    as the header. *)
Definition well_formed (t : list (list str)) : Prop :=
  match t with
  | header :: rows =>
      (1 ≤ length header)%nat ∧
      Forall (λ row : list str, length row = length header) rows
  | [] => False
  end.

(** The grid [renderTable] builds for a table. *)
Definition grid_of (t : list (list str)) : Dom :=
  editableTable (renderTable t (initial (mkDom None None) [])).

(** A cell text with neither a pipe nor a line feed in it. *)
Definition plain (cell : str) : Prop :=
  includes pipe cell = false ∧ includes LF cell = false.

(** A text that the passage through [innerHTML] leaves as it is. *)
Definition html_stable (text : str) : Prop :=
  includes CR text = false ∧ includes NUL text = false.

(** One line of the output, without its line feed. *)
Definition line_text (cellTexts : list str) : str :=
  js "| " ++ join (js " | ") cellTexts ++ js " |".

(** A [try] body that throws before it has done anything. *)
Definition throwing_body (sourceIndex targetIndex : nat) (e : Editor)
  : Editor * bool := (e, true).

(** A one-column table whose header text has a pipe in it. *)
Definition pipe_table : list (list str) := [[js "a|b"]].

(** States used in the checks below. *)
Definition dragging_editor : Editor :=
  mkEditor [] (mkDom (Some (Some [js "A"; js "B"])) (Some [[js "1"; js "2"]]))
           None None true (Some O) false.

Definition stale_editor : Editor :=
  mkEditor [] (mkDom (Some (Some [js "A"; js "B"])) (Some [[js "1"; js "2"]]))
           (Some 5%nat) None false None false.

Definition ragged_editor : Editor :=
  mkEditor []
           (mkDom (Some (Some [js "A"; js "B"; js "C"]))
                  (Some [[js "1"]; [js "1"; js "2"; js "3"]]))
           None None true (Some O) false.

(** In drag mode with the first header as source, a body cell holding
    [a], a CR and [b]. *)
Definition carriage_return_editor : Editor :=
  mkEditor []
           (mkDom (Some (Some [js "A"; js "B"]))
                  (Some [[[97; CR; 98]; js "2"]]))
           None None true (Some O) false.

Definition one_column_editor : Editor :=
  mkEditor [] (mkDom (Some (Some [js "A"])) (Some [[js "1"]; [js "2"]]))
           None (Some O) false None false.

(** ** Notions for the further properties *)


(** Both sections are there and the [thead] has its row: the shape
    [renderTable] gives the table of a parsed text. *)
Definition rendered (d : Dom) : Prop :=
  ∃ h b, thead d = Some (Some h) ∧ tbody d = Some b.

(** Typing a text that is blank once trimmed. *)
Definition blank_input (ev : event) : bool :=
  match ev with
  | Input text => is_empty (trim text)
  | _ => false
  end.


Definition drag_event (ev : event) : bool :=
  match ev with
  | DragStart _ _ | DragOver | DragEnd | Drop _ => true
  | _ => false
  end.

(** Some handler of the sequence ends by an exception. *)
Fixpoint some_throw (evs : list event) (e : Editor) : bool :=
  match evs with
  | [] => false
  | ev :: rest =>
      threw (dispatch ev e) || some_throw rest (state_after (dispatch ev e))
  end.

(** One whole drag of the header at [s] onto the header at [t]. *)
Definition drag_gesture (s t : nat) : list event :=
  [DragStart true s; Drop t; DragEnd].

(** What holds of the fields between two handlers. *)
Definition settled (e : Editor) : Prop :=
  swapInProgress e = false
  ∧ exclusive e
  ∧ (isDragMode e = true → selectedRow e = None ∧ selectedColumn e = None)
  ∧ selectedRow e ≠ Some O.

(** The rows [tableToMarkdown] writes a line for: the header and its
    separator when the header has a cell, then the body rows that have one. *)
Definition has_cells (row : list str) : bool := (0 <? length row)%nat.

Definition output_rows (d : Dom) : list (list str) :=
  match thead d with
  | Some (Some cells) =>
      if has_cells cells then [cells; map (λ _ : str, js "---") cells] else []
  | _ => []
  end
  ++ List.filter has_cells (bodyRows d).

(** A cell text as parsing leaves it. *)
Definition parsed_cell (c : str) : Prop := trim c = c ∧ plain c.

(** ** The page with its attributes and controls

    The same class once more, now with what the first model leaves out of
    the document: the [contenteditable] and [draggable] attributes of the
    cells, written by [renderTable], [applyModeSettings] and [toggleMode] and
    read by [handleDragStart], and the controls [updateUI] writes (mode
    button, mode indicator, status line, the two delete buttons).  Inline
    styles, CSS classes and [data-col] are still left out: nothing reads
    them.  Listeners are attached to every header ([attachDragListeners]
    replaces the ones a header had), so every header takes the drag events. *)

Module View.

Record Cell := mkCell {
  textContent : str;
  contenteditable : bool;
  draggable : bool
}.

Record Table := mkTable {
  thead : option (option (list Cell));
  tbody : option (list (list Cell))
}.

Record Controls := mkControls {
  modeButton : str;
  modeIndicator : str;
  modeIndicatorClass : str;
  selectionStatus : str;
  deleteRowDisabled : bool;
  deleteColumnDisabled : bool
}.

Record Page := mkPage {
  markdownInput : str;
  editableTable : Table;
  selectedRow : option nat;
  selectedColumn : option nat;
  isDragMode : bool;
  draggedSrcColIndex : option nat;
  swapInProgress : bool;
  controls : Controls
}.

Definition with_input (v : str) (p : Page) : Page :=
  mkPage v (editableTable p) (selectedRow p) (selectedColumn p) (isDragMode p)
         (draggedSrcColIndex p) (swapInProgress p) (controls p).

Definition with_table (t : Table) (p : Page) : Page :=
  mkPage (markdownInput p) t (selectedRow p) (selectedColumn p) (isDragMode p)
         (draggedSrcColIndex p) (swapInProgress p) (controls p).

Definition with_selectedRow (r : option nat) (p : Page) : Page :=
  mkPage (markdownInput p) (editableTable p) r (selectedColumn p) (isDragMode p)
         (draggedSrcColIndex p) (swapInProgress p) (controls p).

Definition with_selectedColumn (c : option nat) (p : Page) : Page :=
  mkPage (markdownInput p) (editableTable p) (selectedRow p) c (isDragMode p)
         (draggedSrcColIndex p) (swapInProgress p) (controls p).

Definition with_dragMode (b : bool) (p : Page) : Page :=
  mkPage (markdownInput p) (editableTable p) (selectedRow p) (selectedColumn p) b
         (draggedSrcColIndex p) (swapInProgress p) (controls p).

Definition with_dragged (s : option nat) (p : Page) : Page :=
  mkPage (markdownInput p) (editableTable p) (selectedRow p) (selectedColumn p)
         (isDragMode p) s (swapInProgress p) (controls p).

Definition with_swapInProgress (b : bool) (p : Page) : Page :=
  mkPage (markdownInput p) (editableTable p) (selectedRow p) (selectedColumn p)
         (isDragMode p) (draggedSrcColIndex p) b (controls p).

Definition with_controls (c : Controls) (p : Page) : Page :=
  mkPage (markdownInput p) (editableTable p) (selectedRow p) (selectedColumn p)
         (isDragMode p) (draggedSrcColIndex p) (swapInProgress p) c.

Inductive outcome :=
| Returned (p : Page)
| Threw (p : Page).

Definition state_after (o : outcome) : Page :=
  match o with Returned p | Threw p => p end.

Definition threw (o : outcome) : bool :=
  match o with Returned _ => false | Threw _ => true end.

(** *** What the first model keeps of a page *)

Definition erase_table (t : Table) : Dom :=
  mkDom (option_map (option_map (map textContent)) (thead t))
        (option_map (map (map textContent)) (tbody t)).

Definition erase (p : Page) : Editor :=
  mkEditor (markdownInput p) (erase_table (editableTable p)) (selectedRow p)
           (selectedColumn p) (isDragMode p) (draggedSrcColIndex p)
           (swapInProgress p).

(** *** Cells *)

(** [document.createElement] followed by [contentEditable = true] and
    [textContent = text]: no [draggable] attribute. *)
Definition createCell (text : str) : Cell := mkCell text true false.

Definition set_contenteditable (b : bool) (c : Cell) : Cell :=
  mkCell (textContent c) b (draggable c).

Definition set_draggable (b : bool) (c : Cell) : Cell :=
  mkCell (textContent c) (contenteditable c) b.

Definition set_text (text : str) (c : Cell) : Cell :=
  mkCell text (contenteditable c) (draggable c).

(** [querySelectorAll('th')]. *)
Definition map_headers (f : Cell → Cell) (t : Table) : Table :=
  mkTable (option_map (option_map (map f)) (thead t)) (tbody t).

(** [querySelectorAll('tbody td')]. *)
Definition map_body (f : Cell → Cell) (t : Table) : Table :=
  mkTable (thead t) (option_map (map (map f)) (tbody t)).

(** [querySelectorAll('td, th')]. *)
Definition map_cells (f : Cell → Cell) (t : Table) : Table :=
  map_body f (map_headers f t).

Definition headerRow (t : Table) : option (list Cell) :=
  match thead t with
  | Some tr => tr
  | None => None
  end.

(** *** updateUI *)

Definition updateUI (p : Page) : Page :=
  with_controls
    (if isDragMode p then
       mkControls (js "Switch to Selection Mode") (js "Drag Mode")
                  (js "mode-indicator drag") [] false false
     else
       match selectedRow p, selectedColumn p with
       | Some r, _ =>
           mkControls (js "Switch to Drag Mode") (js "Selection Mode")
                      (js "mode-indicator selection")
                      (js "Row " ++ decimal r ++ js " selected") false true
       | None, Some c =>
           mkControls (js "Switch to Drag Mode") (js "Selection Mode")
                      (js "mode-indicator selection")
                      (js "Column " ++ decimal (c + 1) ++ js " selected") true false
       | None, None =>
           mkControls (js "Switch to Drag Mode") (js "Selection Mode")
                      (js "mode-indicator selection")
                      (js "Click a cell to select row or column") true true
       end)
    p.

(** The state the constructor and [init] leave: [init] ends with
    [updateUI]. *)
Definition initial (t : Table) (text : str) : Page :=
  updateUI (mkPage text t None None false None false
                   (mkControls [] [] [] [] false false)).

(** *** Text and grid *)

Definition tableToMarkdown (t : Table) : str :=
  tableToMarkdown (erase_table t).

Definition updateMarkdown (p : Page) : Page :=
  with_input (tableToMarkdown (editableTable p)) p.

Definition applyModeSettings (p : Page) : Page :=
  with_table
    (map_cells (set_contenteditable (negb (isDragMode p))) (editableTable p))
    p.

Definition renderTable (rows : list (list str)) (p : Page) : Page :=
  applyModeSettings
    (with_table
       (mkTable
          (Some (match rows with
                 | r :: _ => Some (map createCell r)
                 | [] => None
                 end))
          (Some (map (map createCell) (tail rows))))
       p).

Definition clearTable (p : Page) : Page :=
  with_table (mkTable (Some None) (Some [])) p.

Definition parseMarkdown (p : Page) : Page :=
  let markdown := markdownInput p in
  if is_empty (trim markdown) then clearTable p
  else
    match markdownToTable markdown with
    | Some table => renderTable table p
    | None => p
    end.

Definition clearSelections (p : Page) : Page :=
  updateUI (with_selectedColumn None (with_selectedRow None p)).

Definition createNewTable (p : Page) : Page :=
  applyModeSettings
    (clearSelections (parseMarkdown (with_input defaultTable p))).

(** *** Structural operations *)

Definition addRow (p : Page) : Page :=
  let t := editableTable p in
  match tbody t with
  | None => p
  | Some body =>
      match headerRow t with
      | None => p
      | Some header =>
          let colCount := length header in
          let newRow := replicate colCount (createCell []) in
          updateMarkdown
            (applyModeSettings
               (with_table (mkTable (thead t) (Some (body ++ [newRow]))) p))
      end
  end.

Definition addColumn (p : Page) : outcome :=
  let t := editableTable p in
  match thead t, tbody t with
  | Some tr, Some bodyRows =>
      match tr with
      | None => Threw p
      | Some header =>
          let colCount := length header in
          let th := createCell (js "Header " ++ decimal (colCount + 1)) in
          Returned
            (updateMarkdown
               (applyModeSettings
                  (with_table
                     (mkTable (Some (Some (header ++ [th])))
                              (Some (map (λ row, row ++ [createCell []]) bodyRows)))
                     p)))
      end
  | _, _ => Returned p
  end.

Definition deleteRow (p : Page) : Page :=
  let t := editableTable p in
  match tbody t with
  | None => p
  | Some rows =>
      match selectedRow p, isDragMode p with
      | Some sel, false =>
          match sel with
          | S k =>
              match rows !! k with
              | Some _ =>
                  updateMarkdown
                    (clearSelections
                       (with_table (mkTable (thead t) (Some (delete k rows))) p))
              | None => p
              end
          | O => p
          end
      | _, _ =>
          if (0 <? length rows)%nat then
            updateMarkdown
              (with_table (mkTable (thead t) (Some (removelast rows))) p)
          else p
      end
  end.

Definition remove_cell_at (sel : nat) (cells : list Cell) : list Cell :=
  match cells !! sel with
  | Some _ => delete sel cells
  | None => cells
  end.

Definition remove_last_cell (cells : list Cell) : list Cell :=
  if (0 <? length cells)%nat then removelast cells else cells.

Definition deleteColumn (p : Page) : outcome :=
  let t := editableTable p in
  match thead t, tbody t with
  | Some tr, Some bodyRows =>
      match selectedColumn p, isDragMode p with
      | Some sel, false =>
          match tr with
          | None => Threw p
          | Some headerCells =>
              if (length headerCells <=? 1)%nat then Returned p
              else
                match headerCells !! sel with
                | Some _ =>
                    Returned
                      (updateMarkdown
                         (clearSelections
                            (with_table
                               (mkTable (Some (Some (delete sel headerCells)))
                                        (Some (map (remove_cell_at sel) bodyRows)))
                               p)))
                | None => Returned p
                end
          end
      | _, _ =>
          match tr with
          | None => Threw p
          | Some headerCells =>
              if (length headerCells <=? 1)%nat then Returned p
              else
                Returned
                  (updateMarkdown
                     (with_table
                        (mkTable (Some (Some (removelast headerCells)))
                                 (Some (map remove_last_cell bodyRows)))
                        p))
          end
      end
  | _, _ => Returned p
  end.

(** *** Mode and selection *)

Definition toggleMode (p : Page) : Page :=
  let p1 := clearSelections (with_dragMode (negb (isDragMode p)) p) in
  let t := editableTable p1 in
  let t' :=
    if isDragMode p1 then
      map_cells (set_contenteditable false) (map_headers (set_draggable true) t)
    else
      map_body (set_contenteditable true) (map_headers (set_draggable false) t) in
  updateUI (with_table t' p1).

Definition handleClick (tg : target) (p : Page) : outcome :=
  if isDragMode p then Returned p
  else
    match tg with
    | TD row _ =>
        let rowIndex := (row + 1)%nat in
        Returned (updateUI (with_selectedRow (Some rowIndex) (clearSelections p)))
    | TH cellIndex =>
        let p' := with_selectedColumn (Some cellIndex) (clearSelections p) in
        match tbody (editableTable p) with
        | Some _ => Returned (updateUI p')
        | None => Threw p'
        end
    | InsideCell => Returned p
    | Elsewhere => Returned (clearSelections p)
    end.

(** *** Drag and drop *)

(** [e.target.getAttribute('draggable') === 'true'] for the header at
    [index]; there is no event where there is no header. *)
Definition header_draggable (t : Table) (index : nat) : bool :=
  match headerRow t with
  | Some cells =>
      match cells !! index with
      | Some th => draggable th
      | None => false
      end
  | None => false
  end.

Definition handleDragStart (index : nat) (p : Page) : Page :=
  if negb (isDragMode p) then p
  else if negb (header_draggable (editableTable p) index) then p
  else with_dragged (Some index) p.

Definition handleDragEnd (p : Page) : Page := with_dragged None p.

Definition handleDragOver (p : Page) : Page := p.

(** The exchange of [innerHTML]: the contents move, read back by the HTML
    parser, and the attributes stay with their cells. *)
Definition swap_cells (sourceIndex targetIndex : nat) (cells : list Cell)
  : list Cell :=
  match cells !! sourceIndex, cells !! targetIndex with
  | Some src, Some tgt =>
      let temp := textContent src in
      let cells1 :=
        <[sourceIndex := set_text (reparsed (textContent tgt)) src]> cells in
      match cells1 !! targetIndex with
      | Some tgt1 => <[targetIndex := set_text (reparsed temp) tgt1]> cells1
      | None => cells1
      end
  | _, _ => cells
  end.

Definition swap_columns (sourceIndex targetIndex : nat) (t : Table) : Table :=
  mkTable (option_map (option_map (swap_cells sourceIndex targetIndex)) (thead t))
          (option_map (map (swap_cells sourceIndex targetIndex)) (tbody t)).

Definition handleDrop (targetIndex : nat) (p : Page) : Page :=
  if negb (isDragMode p) then p
  else if swapInProgress p then p
  else
    match draggedSrcColIndex p with
    | None => p
    | Some sourceIndex =>
        if (targetIndex =? sourceIndex)%nat then p
        else
          let p1 := with_swapInProgress true p in
          let p2 :=
            updateMarkdown
              (with_table
                 (swap_columns sourceIndex targetIndex (editableTable p1)) p1) in
          with_swapInProgress false (with_dragged None p2)
    end.

(** *** Gestures *)

Definition set_cell (loc : location) (text : str) (t : Table) : Table :=
  match loc with
  | InHeader col =>
      mkTable
        (option_map
           (option_map
              (λ h : list Cell,
                 match h !! col with
                 | Some c => <[col := set_text text c]> h
                 | None => h
                 end))
           (thead t))
        (tbody t)
  | InBody row col =>
      mkTable (thead t)
        (option_map
           (λ b : list (list Cell),
              match b !! row with
              | Some cells =>
                  match cells !! col with
                  | Some c => <[row := <[col := set_text text c]> cells]> b
                  | None => b
                  end
              | None => b
              end)
           (tbody t))
  end.

Inductive event :=
| Input (text : str)
| CreateTable
| EditCell (loc : location) (text : str)
| AddRow
| AddColumn
| DeleteRow
| DeleteColumn
| ToggleMode
| Click (tg : target)
| DragStart (index : nat)
| DragOver
| DragEnd
| Drop (targetIndex : nat).

Definition dispatch (ev : event) (p : Page) : outcome :=
  match ev with
  | Input text => Returned (parseMarkdown (with_input text p))
  | CreateTable => Returned (createNewTable p)
  | EditCell loc text =>
      Returned (updateMarkdown (with_table (set_cell loc text (editableTable p)) p))
  | AddRow => Returned (addRow p)
  | AddColumn => addColumn p
  | DeleteRow => Returned (deleteRow p)
  | DeleteColumn => deleteColumn p
  | ToggleMode => Returned (toggleMode p)
  | Click tg => handleClick tg p
  | DragStart index => Returned (handleDragStart index p)
  | DragOver => Returned (handleDragOver p)
  | DragEnd => Returned (handleDragEnd p)
  | Drop targetIndex => Returned (handleDrop targetIndex p)
  end.

Definition run (evs : list event) (p : Page) : Page :=
  fold_left (λ s ev, state_after (dispatch ev s)) evs p.

(** *** Notions the properties of the page are stated with *)

(** All cells of the table. *)
Definition header_cells (t : Table) : list Cell :=
  match headerRow t with Some h => h | None => [] end.

Definition body_cells (t : Table) : list Cell :=
  match tbody t with Some b => concat b | None => [] end.

(** The controls show the fields. *)
Definition controls_current (p : Page) : Prop :=
  controls p = controls (updateUI p).

(** The attributes fit the mode: in drag mode no cell can be edited; in
    selection mode every body cell can and no header can be dragged. *)
Definition attributes_fit (p : Page) : Prop :=
  if isDragMode p then
    Forall (λ c, contenteditable c = false)
           (header_cells (editableTable p) ++ body_cells (editableTable p))
  else
    Forall (λ c, contenteditable c = true) (body_cells (editableTable p))
    ∧ Forall (λ c, draggable c = false) (header_cells (editableTable p)).

End View.

(** The gesture of the first model a gesture on the page is: the drag start
    carries the [draggable] attribute of its header. *)
Definition plain_event (t : View.Table) (ev : View.event) : event :=
  match ev with
  | View.Input text => Input text
  | View.CreateTable => CreateTable
  | View.EditCell loc text => EditCell loc text
  | View.AddRow => AddRow
  | View.AddColumn => AddColumn
  | View.DeleteRow => DeleteRow
  | View.DeleteColumn => DeleteColumn
  | View.ToggleMode => ToggleMode
  | View.Click tg => Click tg
  | View.DragStart index => DragStart (View.header_draggable t index) index
  | View.DragOver => DragOver
  | View.DragEnd => DragEnd
  | View.Drop targetIndex => Drop targetIndex
  end.

(** A page for the checks. *)
Definition sample_page : View.Page :=
  View.createNewTable (View.initial (View.mkTable None None) []).

(** Case analysis on the sections of the table of [e]. *)
Ltac table_cases e Hd :=
  unfold uniform, header_length, bodyRows, headerRow;
  destruct (editableTable e) as [[[h|]|] [b|]] eqn:Hd;
  simpl; rewrite ?Hd; try done.

(** ** Checks on concrete inputs *)

Example parse_scenario_A :
  markdownToTable (js "| A | B |" ++ [LF] ++ js "| --- | --- |" ++ [LF] ++ js "| 1 | 2 |")
  = Some [[js "A"; js "B"]; [js "1"; js "2"]].
Proof. vm_compute. reflexivity. Qed.

Example serialize_scenario_B :
  tableToMarkdown (mkDom (Some (Some [js "X"])) (Some [[js "y"]]))
  = js "| X |" ++ [LF] ++ js "| --- |" ++ [LF] ++ js "| y |" ++ [LF].
Proof. vm_compute. reflexivity. Qed.

Example swap_scenario_C :
  swap_cells 0 2 [js "A"; js "B"; js "C"] = [js "C"; js "B"; js "A"].
Proof. vm_compute. reflexivity. Qed.

(** What the getter writes for a text, and what the setter reads. *)
Example innerHTML_escapes :
  innerHTML (js "a<b & c") = js "a&lt;b &amp; c".
Proof. vm_compute. reflexivity. Qed.

Example parse_innerHTML_references :
  parse_innerHTML (js "a&lt;b &amp;amp; c & d") = Some (js "a<b &amp; c & d").
Proof. vm_compute. reflexivity. Qed.

(** Markup is outside the texts the model holds. *)
Example parse_innerHTML_markup : parse_innerHTML (js "<b>x</b>") = None.
Proof. vm_compute. reflexivity. Qed.

(** A text does not always come out of [innerHTML] as it went in. *)
Example reparsed_line_ends :
  reparsed [97; CR; 98] = [97; LF; 98]
  ∧ reparsed [97; CR; LF; 98] = [97; LF; 98]
  ∧ reparsed [97; CR; CR; LF; LF; 98] = [97; LF; LF; LF; 98]
  ∧ reparsed [97; NUL; 98] = [97; 98]
  ∧ reparsed [CR; NUL; LF] = [LF; LF].
Proof. vm_compute. by repeat split. Qed.

(** So a drop can change a text it moves: the CR arrives as a line feed. *)
Example drop_on_carriage_return :
  table_rows (editableTable (handleDrop 1 carriage_return_editor))
  = [[js "B"; js "A"]; [js "2"; [97; LF; 98]]].
Proof. vm_compute. reflexivity. Qed.

Example parse_scenario_D :
  markdownToTable (js "| A | B |" ++ [LF] ++ js "| not-a-separator |" ++ [LF] ++ js "| 1 | 2 |")
  = Some [[js "A"; js "B"]; [js "not-a-separator"]; [js "1"; js "2"]].
Proof. vm_compute. reflexivity. Qed.

Example create_table_grid :
  editableTable (createNewTable (initial (mkDom None None) []))
  = mkDom (Some (Some [js "Header 1"; js "Header 2"; js "Header 3"]))
          (Some [[js "Cell 1"; js "Cell 2"; js "Cell 3"];
                 [js "Cell 4"; js "Cell 5"; js "Cell 6"]]).
Proof. vm_compute. reflexivity. Qed.

Example add_column_header :
  headerRow (editableTable (state_after (addColumn
     (initial (mkDom (Some (Some [js "A"])) (Some [[js "1"]])) []))))
  = Some [js "A"; js "Header 2"].
Proof. vm_compute. reflexivity. Qed.

(** ** Lists *)

Lemma removelast_length {A} (l : list A) :
  length (removelast l) = pred (length l).
Proof. rewrite removelast_firstn_len, length_take. lia. Qed.

Lemma delete_length {A} (l : list A) (i : nat) :
  (i < length l)%nat → length (delete i l) = pred (length l).
Proof.
  intros Hi. rewrite length_delete; [lia|]. by apply lookup_lt_is_Some.
Qed.

(** ** Mode toggle *)

Lemma clearSelections_fields e :
  selectedRow (clearSelections e) = None
  ∧ selectedColumn (clearSelections e) = None
  ∧ draggedSrcColIndex (clearSelections e) = draggedSrcColIndex e
  ∧ swapInProgress (clearSelections e) = swapInProgress e
  ∧ editableTable (clearSelections e) = editableTable e.
Proof. by destruct e. Qed.

(** C5, as stated, fails: a drag source recorded before the toggle is still
    recorded after it. *)
Lemma toggleMode_keeps_drag_source :
  ¬ (selectedRow (toggleMode dragging_editor) = None
     ∧ selectedColumn (toggleMode dragging_editor) = None
     ∧ draggedSrcColIndex (toggleMode dragging_editor) = None).
Proof. intros (_ & _ & H). vm_compute in H. discriminate H. Qed.

(** C5, amended: from any state, [toggleMode] flips the mode and leaves
    both [selectedRow] and [selectedColumn] null; it does not touch the drag
    state, so the recorded source index and the guard are what they were. *)
Theorem toggleMode_clears_selection (e : Editor) :
  selectedRow (toggleMode e) = None
  ∧ selectedColumn (toggleMode e) = None
  ∧ selection (toggleMode e) = NoSelection
  ∧ isDragMode (toggleMode e) = negb (isDragMode e)
  ∧ draggedSrcColIndex (toggleMode e) = draggedSrcColIndex e
  ∧ swapInProgress (toggleMode e) = swapInProgress e.
Proof. by destruct e. Qed.

(** ** Column floor *)

(** C7: on a table whose header has exactly one cell, [deleteColumn]
    returns with the editor as it was, whatever the mode and the selection
    (so on the selected-column path and on the last-column path alike), and
    the header still has its one cell. *)
Theorem deleteColumn_one_column (e : Editor) (c : str) :
  headerRow (editableTable e) = Some [c] →
  deleteColumn e = Returned e
  ∧ header_length (editableTable (state_after (deleteColumn e))) = 1%nat.
Proof.
  intros Hh.
  assert (Hr : deleteColumn e = Returned e).
  { unfold deleteColumn. unfold headerRow in Hh.
    destruct (thead (editableTable e)) as [tr|]; [|done].
    subst tr. destruct (tbody (editableTable e)); [|done].
    destruct (selectedColumn e), (isDragMode e); done. }
  split; [done|]. rewrite Hr. simpl. unfold header_length. by rewrite Hh.
Qed.

Lemma deleteColumn_one_column_witness :
  deleteColumn one_column_editor = Returned one_column_editor
  ∧ header_length (editableTable (state_after (deleteColumn one_column_editor))) = 1%nat.
Proof. apply (deleteColumn_one_column one_column_editor (js "A")). reflexivity. Defined.

(** The floor in general: a header with a cell keeps one. *)
Lemma deleteColumn_floor (e : Editor) :
  (1 ≤ header_length (editableTable e))%nat →
  (1 ≤ header_length (editableTable (state_after (deleteColumn e))))%nat.
Proof.
  unfold deleteColumn, header_length, headerRow.
  destruct (thead (editableTable e)) as [[h|]|] eqn:Ht; simpl; try lia;
    destruct (tbody (editableTable e)) eqn:Hb; simpl; rewrite ?Ht; try lia.
  intros Hh.
  destruct (selectedColumn e) as [sel|], (isDragMode e);
    destruct (Nat.leb_spec (length h) 1); simpl; rewrite ?Ht; try lia.
  - rewrite removelast_length. lia.
  - destruct (h !! sel) eqn:Hs; simpl; rewrite ?Ht; try lia.
    rewrite delete_length; [lia|]. by eapply lookup_lt_Some.
  - rewrite removelast_length. lia.
  - rewrite removelast_length. lia.
Qed.

(** ** Stale selections *)

(** C8, as stated, fails: with one body row and [selectedRow] at 5,
    [deleteRow] changes nothing, the selection included. *)
Lemma stale_selection_not_cleared :
  selectedRow stale_editor = Some 5%nat
  ∧ stale_row stale_editor 5
  ∧ ¬ (selectedRow (deleteRow stale_editor) = None).
Proof.
  split; [reflexivity|]. split; [right; vm_compute; lia|].
  vm_compute. discriminate.
Qed.

(** C8, amended: in edit mode, when the selected row designates no body
    row, [deleteRow] returns with the editor as it was; when the selected
    column is past the last header cell of a table that has its header row,
    [deleteColumn] returns (it does not throw) with the editor as it was.
    Table and selection are both left alone. *)
Theorem stale_selection_noop (e : Editor) :
  isDragMode e = false →
  (∀ sel, selectedRow e = Some sel → stale_row e sel → deleteRow e = e)
  ∧ (∀ sel h, selectedColumn e = Some sel →
              headerRow (editableTable e) = Some h →
              (length h ≤ sel)%nat →
              deleteColumn e = Returned e).
Proof.
  intros Hm. split.
  - intros sel Hs Hst. unfold deleteRow. rewrite Hs, Hm.
    unfold stale_row, bodyRows in Hst.
    destruct (tbody (editableTable e)) as [rows|]; [|done].
    destruct sel as [|k]; [done|].
    destruct Hst as [Hst|Hst]; [done|].
    rewrite (lookup_ge_None_2 rows k); [done|lia].
  - intros sel h Hs Hh Hlen. unfold deleteColumn. rewrite Hs, Hm.
    unfold headerRow in Hh.
    destruct (thead (editableTable e)) as [tr|]; [|done]. subst tr.
    destruct (tbody (editableTable e)); [|done].
    destruct (length h <=? 1)%nat; [done|].
    by rewrite (lookup_ge_None_2 h sel).
Qed.

Lemma stale_selection_noop_witness :
  deleteRow stale_editor = stale_editor
  ∧ deleteColumn (with_selectedColumn (Some 7%nat) stale_editor)
    = Returned (with_selectedColumn (Some 7%nat) stale_editor).
Proof.
  split.
  - apply (proj1 (stale_selection_noop stale_editor eq_refl) 5%nat);
      [reflexivity | right; vm_compute; lia].
  - apply (proj2 (stale_selection_noop
                    (with_selectedColumn (Some 7%nat) stale_editor) eq_refl)
                 7%nat [js "A"; js "B"]);
      [reflexivity | reflexivity | vm_compute; lia].
Defined.

(** Where the header row is missing (the table [clearTable] leaves),
    [deleteColumn] reads a property of [null]. *)
Example deleteColumn_without_header_throws :
  deleteColumn (with_selectedColumn (Some O) (clearTable stale_editor))
  = Threw (with_selectedColumn (Some O) (clearTable stale_editor)).
Proof. reflexivity. Qed.

(** ** Click selection *)

Lemma handleClick_exclusive (tg : target) (e : Editor) :
  exclusive e → exclusive (state_after (handleClick tg e)).
Proof.
  unfold handleClick, exclusive. intros He.
  destruct (isDragMode e); [done|].
  destruct tg as [r c|c| |]; simpl; auto.
  destruct (tbody (editableTable e)); simpl; auto.
Qed.

(** C9: in edit mode, a click on the body cell at ([row], [col]) returns
    with [selectedRow] at [row + 1] (the header counts as row 0) and
    [selectedColumn] null, which is the selection [RowSelected row]: the row
    [deleteRow] then removes is the clicked one.  Whatever was selected
    before is gone, and after a click on any target at most one of the two
    fields is set. *)
Theorem click_body_cell_selects_row (e : Editor) (row col : nat) (cells : list str) :
  isDragMode e = false →
  bodyRows (editableTable e) !! row = Some cells →
  (col < length cells)%nat →
  ∃ e',
    handleClick (TD row col) e = Returned e'
    ∧ selectedRow e' = Some (row + 1)%nat
    ∧ selectedColumn e' = None
    ∧ selection e' = RowSelected row
    ∧ editableTable e' = editableTable e
    ∧ bodyRows (editableTable (deleteRow e')) = delete row (bodyRows (editableTable e))
    ∧ (∀ tg, tg ≠ InsideCell → exclusive (state_after (handleClick tg e)))
    ∧ (∀ tg, exclusive e → exclusive (state_after (handleClick tg e))).
Proof.
  intros Hm Hrow Hcol.
  exists (with_selectedRow (Some (S row)) (clearSelections e)).
  split.
  { unfold handleClick. rewrite Hm.
    by replace (row + 1)%nat with (S row) by lia. }
  replace (row + 1)%nat with (S row) by lia.
  split; [done|]. split; [done|]. split; [done|]. split; [done|].
  split; [|split].
  - unfold deleteRow, bodyRows in *. simpl. rewrite Hm.
    destruct (tbody (editableTable e)) as [rows|]; [|done].
    by rewrite Hrow.
  - intros tg Htg. unfold handleClick, exclusive. rewrite Hm.
    destruct tg as [r c|c| |]; simpl; auto; [|done].
    destruct (tbody (editableTable e)); simpl; auto.
  - intros tg. apply handleClick_exclusive.
Qed.

Lemma click_body_cell_selects_row_witness :
  ∃ e',
    handleClick (TD 0 1) stale_editor = Returned e'
    ∧ selectedRow e' = Some 1%nat
    ∧ selection e' = RowSelected 0.
Proof.
  destruct (click_body_cell_selects_row stale_editor 0 1 [js "1"; js "2"])
    as (e' & H1 & H2 & _ & H4 & _); [reflexivity | reflexivity | vm_compute; lia |].
  exists e'. auto.
Defined.

(** ** The passage through [innerHTML] *)

Lemma escape_plain (c : N) :
  c ≠ ampersand → c ≠ nbsp → c ≠ less_than → c ≠ greater_than →
  escape c = [c].
Proof.
  intros H1 H2 H3 H4. unfold escape.
  destruct (N.eqb_spec c ampersand); [done|].
  destruct (N.eqb_spec c nbsp); [done|].
  destruct (N.eqb_spec c less_than); [done|].
  by destruct (N.eqb_spec c greater_than).
Qed.

(** The four characters the getter escapes, or another one. *)
Lemma escape_cases (c : N) :
  (c = ampersand ∨ c = nbsp ∨ c = less_than ∨ c = greater_than)
  ∨ (c ≠ ampersand ∧ c ≠ nbsp ∧ c ≠ less_than ∧ c ≠ greater_than
     ∧ escape c = [c]).
Proof.
  destruct (N.eq_dec c ampersand); [by auto|].
  destruct (N.eq_dec c nbsp); [by auto|].
  destruct (N.eq_dec c less_than); [by auto|].
  destruct (N.eq_dec c greater_than); [by auto|].
  right. repeat split; try done. by apply escape_plain.
Qed.

(** The escapes hold no line end, so the input stream reads the HTML of a
    text as it would read the text. *)
Lemma normalize_innerHTML (after_cr : bool) (text : str) :
  normalize_newlines after_cr (innerHTML text)
  = innerHTML (normalize_newlines after_cr text).
Proof.
  revert after_cr. induction text as [|c text IH]; intros after_cr; [done|].
  unfold innerHTML in *. cbn [map concat].
  destruct (escape_cases c) as [[ -> | [ -> | [ -> | -> ]]] | (H1 & H2 & H3 & H4 & Hc)].
  - change (escape ampersand) with [38; 97; 109; 112; 59].
    change ampersand with 38. cbn. by rewrite IH.
  - change (escape nbsp) with [38; 110; 98; 115; 112; 59].
    change nbsp with 160. cbn. by rewrite IH.
  - change (escape less_than) with [38; 108; 116; 59].
    change less_than with 60. cbn. by rewrite IH.
  - change (escape greater_than) with [38; 103; 116; 59].
    change greater_than with 62. cbn. by rewrite IH.
  - rewrite Hc. cbn [app normalize_newlines].
    destruct (c =? CR) eqn:Hcr.
    { apply N.eqb_eq in Hcr. subst c. cbn. by rewrite IH. }
    destruct ((c =? LF) && after_cr) eqn:Hlf.
    { apply IH. }
    cbn [map concat]. rewrite Hc. cbn [app]. by rewrite IH.
Qed.

Lemma text_of_innerHTML (text : str) :
  text_of_html 0 (innerHTML text)
  = Some (List.filter (λ c, negb (c =? NUL)) text).
Proof.
  induction text as [|c text IH]; [done|].
  unfold innerHTML in *. cbn [map concat].
  destruct (escape_cases c) as [[ -> | [ -> | [ -> | -> ]]] | (H1 & H2 & H3 & H4 & Hc)].
  - change (escape ampersand) with [38; 97; 109; 112; 59].
    change ampersand with 38. cbn. by rewrite IH.
  - change (escape nbsp) with [38; 110; 98; 115; 112; 59].
    change nbsp with 160. cbn. by rewrite IH.
  - change (escape less_than) with [38; 108; 116; 59].
    change less_than with 60. cbn. by rewrite IH.
  - change (escape greater_than) with [38; 103; 116; 59].
    change greater_than with 62. cbn. by rewrite IH.
  - rewrite Hc. cbn [app text_of_html List.filter].
    destruct (N.eqb_spec c less_than); [done|].
    destruct (N.eqb_spec c ampersand); [done|].
    rewrite IH. by destruct (c =? NUL).
Qed.

(** What the setter makes of what the getter wrote. *)
Lemma parse_innerHTML_innerHTML (text : str) :
  parse_innerHTML (innerHTML text) = Some (reparsed text).
Proof.
  unfold parse_innerHTML, reparsed.
  by rewrite normalize_innerHTML, text_of_innerHTML.
Qed.

Lemma normalize_newlines_without_CR (text : str) :
  includes CR text = false → normalize_newlines false text = text.
Proof.
  unfold includes. induction text as [|c text IH]; [done|].
  cbn [existsb normalize_newlines]. intros H.
  apply orb_false_iff in H as [Hc H]. rewrite N.eqb_sym in Hc.
  rewrite Hc, andb_false_r. by rewrite IH.
Qed.

Lemma filter_without_NUL (text : str) :
  includes NUL text = false →
  List.filter (λ c, negb (c =? NUL)) text = text.
Proof.
  unfold includes. induction text as [|c text IH]; [done|].
  cbn [existsb List.filter]. intros H.
  apply orb_false_iff in H as [Hc H]. rewrite N.eqb_sym in Hc.
  rewrite Hc. cbn. by rewrite IH.
Qed.

(** A text without CR and without U+0000 passes through [innerHTML] as it
    is. *)
Lemma reparsed_stable (text : str) : html_stable text → reparsed text = text.
Proof.
  intros [Hcr Hnul]. unfold reparsed.
  rewrite normalize_newlines_without_CR by done.
  by apply filter_without_NUL.
Qed.

Lemma normalize_newlines_no_CR (after_cr : bool) (text : str) :
  includes CR (normalize_newlines after_cr text) = false.
Proof.
  unfold includes. revert after_cr.
  induction text as [|c text IH]; intros after_cr; [done|].
  cbn [normalize_newlines].
  destruct (N.eqb_spec c CR) as [->|Hc]; [by cbn; rewrite IH|].
  destruct ((c =? LF) && after_cr); [by apply IH|].
  cbn [existsb]. rewrite IH, orb_false_r.
  rewrite N.eqb_sym. by apply N.eqb_neq.
Qed.

Lemma includes_filter (c : N) (f : N → bool) (text : str) :
  includes c text = false → includes c (List.filter f text) = false.
Proof.
  unfold includes. induction text as [|x text IH]; [done|].
  cbn [existsb List.filter]. intros H.
  apply orb_false_iff in H as [Hx H].
  destruct (f x); cbn [existsb]; [|by apply IH].
  by rewrite Hx, IH.
Qed.

Lemma filter_no_NUL (text : str) :
  includes NUL (List.filter (λ c, negb (c =? NUL)) text) = false.
Proof.
  unfold includes. induction text as [|x text IH]; [done|].
  cbn [List.filter]. destruct (N.eqb_spec x NUL) as [->|Hx]; [done|].
  cbn [negb existsb]. rewrite IH, orb_false_r. apply N.eqb_neq. congruence.
Qed.

(** What has passed through [innerHTML] once passes as it is. *)
Lemma reparsed_is_stable (text : str) : html_stable (reparsed text).
Proof.
  unfold reparsed. split; [|apply filter_no_NUL].
  apply includes_filter, normalize_newlines_no_CR.
Qed.

Lemma reparsed_idempotent (text : str) :
  reparsed (reparsed text) = reparsed text.
Proof. apply reparsed_stable, reparsed_is_stable. Qed.

(** ** Column swap *)

(** The guard of the loop body keeps its four accesses from [undefined]:
    a row with both cells. *)
Lemma swap_row_in (cells : list str) (s t : nat) (a b : str) :
  cells !! s = Some a → cells !! t = Some b →
  swap_row s t cells
  = (<[t := reparsed a]> (<[s := reparsed b]> cells), false).
Proof.
  intros Hs Ht. unfold swap_row, assign_innerHTML. rewrite Hs, Ht.
  assert (Hl : is_Some (<[s := reparsed b]> cells !! t)).
  { apply lookup_lt_is_Some. rewrite length_insert.
    by apply lookup_lt_Some in Ht. }
  destruct Hl as [x Hx]. by rewrite Hx.
Qed.

(** A row without one of the cells. *)
Lemma swap_row_out (cells : list str) (s t : nat) :
  cells !! s = None ∨ cells !! t = None → swap_row s t cells = (cells, false).
Proof.
  intros [H|H]; unfold swap_row; rewrite H; [done|].
  by destruct (cells !! s).
Qed.

(** The loop body never throws. *)
Lemma swap_row_returns (s t : nat) (cells : list str) :
  swap_row s t cells = (swap_cells s t cells, false).
Proof.
  unfold swap_cells.
  destruct (cells !! s) as [a|] eqn:Hs; [|by rewrite swap_row_out; auto].
  destruct (cells !! t) as [b|] eqn:Ht; [|by rewrite swap_row_out; auto].
  by rewrite (swap_row_in _ _ _ a b).
Qed.

Lemma swap_rows_returns (s t : nat) (rows : list (list str)) :
  swap_rows s t rows = (map (swap_cells s t) rows, false).
Proof.
  induction rows as [|cells rows IH]; [done|].
  cbn [swap_rows map]. by rewrite swap_row_returns, IH.
Qed.

(** Nor does the loop: it treats every row of the table. *)
Lemma swap_table_returns (s t : nat) (d : Dom) :
  swap_table s t d
  = (mkDom (option_map (option_map (swap_cells s t)) (thead d))
           (option_map (map (swap_cells s t)) (tbody d)), false).
Proof.
  destruct d as [[[h|]|] [b|]]; unfold swap_table; cbn;
    by rewrite ?swap_row_returns, ?swap_rows_returns.
Qed.

Lemma swap_columns_eq (s t : nat) (d : Dom) :
  swap_columns s t d
  = mkDom (option_map (option_map (swap_cells s t)) (thead d))
          (option_map (map (swap_cells s t)) (tbody d)).
Proof. unfold swap_columns. by rewrite swap_table_returns. Qed.

(** So the [try] block reaches [updateMarkdown]. *)
Lemma swap_body_returns (s t : nat) (e : Editor) :
  swap_body s t e
  = (updateMarkdown (with_table (swap_columns s t (editableTable e)) e), false).
Proof.
  unfold swap_body, swap_columns. by rewrite swap_table_returns.
Qed.

(** The handler with its [try] block run. *)
Lemma handleDrop_eq (targetIndex : nat) (e : Editor) :
  handleDrop targetIndex e
  = if negb (isDragMode e) then e
    else if swapInProgress e then e
    else
      match draggedSrcColIndex e with
      | None => e
      | Some sourceIndex =>
          if (targetIndex =? sourceIndex)%nat then e
          else
            let e1 := with_swapInProgress true e in
            with_swapInProgress false
              (with_dragged None
                 (updateMarkdown
                    (with_table
                       (swap_columns sourceIndex targetIndex (editableTable e1))
                       e1)))
      end.
Proof.
  unfold handleDrop, handleDrop_with.
  destruct (negb (isDragMode e)); [done|].
  destruct (swapInProgress e); [done|].
  destruct (draggedSrcColIndex e) as [s|]; [|done].
  destruct (targetIndex =? s)%nat; [done|].
  cbv zeta. by rewrite swap_body_returns.
Qed.

Lemma swap_cells_in (cells : list str) (s t : nat) (a b : str) :
  cells !! s = Some a → cells !! t = Some b →
  swap_cells s t cells = <[t := reparsed a]> (<[s := reparsed b]> cells).
Proof.
  intros Hs Ht. unfold swap_cells. by rewrite (swap_row_in _ _ _ a b).
Qed.

Lemma swap_cells_out (cells : list str) (s t : nat) :
  cells !! s = None ∨ cells !! t = None → swap_cells s t cells = cells.
Proof. intros H. unfold swap_cells. by rewrite swap_row_out. Qed.

Lemma swap_cells_length (s t : nat) (cells : list str) :
  length (swap_cells s t cells) = length cells.
Proof.
  destruct (cells !! s) as [a|] eqn:Hs; [|by rewrite swap_cells_out; auto].
  destruct (cells !! t) as [b|] eqn:Ht; [|by rewrite swap_cells_out; auto].
  rewrite (swap_cells_in _ _ _ a b) by done. by rewrite !length_insert.
Qed.

(** What the three assignments leave in a row that has both cells. *)
Lemma swap_cells_lookup (cells : list str) (s t j : nat) :
  (s < length cells)%nat → (t < length cells)%nat →
  swap_cells s t cells !! j
  = if decide (j = t) then option_map reparsed (cells !! s)
    else if decide (j = s) then option_map reparsed (cells !! t)
    else cells !! j.
Proof.
  intros Hs Ht.
  destruct (lookup_lt_is_Some_2 cells s Hs) as [a Ha].
  destruct (lookup_lt_is_Some_2 cells t Ht) as [b Hb].
  rewrite (swap_cells_in _ _ _ a b) by done. rewrite Ha, Hb. cbn.
  destruct (decide (j = t)) as [->|Hjt].
  - rewrite list_lookup_insert_eq; [done|]. by rewrite length_insert.
  - rewrite list_lookup_insert_ne by done.
    destruct (decide (j = s)) as [->|Hjs].
    + by rewrite list_lookup_insert_eq.
    + by rewrite list_lookup_insert_ne.
Qed.


Lemma table_rows_swap (s t : nat) (d : Dom) :
  table_rows (swap_columns s t d) = map (swap_cells s t) (table_rows d).
Proof.
  rewrite swap_columns_eq. by destruct d as [[[h|]|] [b|]].
Qed.

(** ** Drop *)

Lemma handleDrop_swaps (e : Editor) (s t : nat) :
  isDragMode e = true → swapInProgress e = false →
  draggedSrcColIndex e = Some s → t ≠ s →
  handleDrop t e
  = with_swapInProgress false
      (with_dragged None
         (updateMarkdown
            (with_table (swap_columns s t (editableTable e))
                        (with_swapInProgress true e)))).
Proof.
  intros Hm Hg Hs Hts. unfold handleDrop, handleDrop_with.
  rewrite Hm, Hg, Hs. cbn [negb].
  destruct (Nat.eqb_spec t s); [done|].
  cbv zeta. by rewrite swap_body_returns.
Qed.

(** The handler over any [try] body. *)
Section GuardedDrop.

Variable try_body : nat → nat → Editor → Editor * bool.

Lemma handleDrop_with_idempotent (t : nat) (e : Editor) :
  handleDrop_with try_body t (handleDrop_with try_body t e)
  = handleDrop_with try_body t e.
Proof.
  assert (Hfix : handleDrop_with try_body t e = e →
                 handleDrop_with try_body t (handleDrop_with try_body t e)
                 = handleDrop_with try_body t e)
    by (intros H; by rewrite !H).
  destruct (isDragMode e) eqn:Hm.
  2: { apply Hfix. unfold handleDrop_with. by rewrite Hm. }
  destruct (swapInProgress e) eqn:Hg.
  { apply Hfix. unfold handleDrop_with. by rewrite Hm, Hg. }
  destruct (draggedSrcColIndex e) as [s|] eqn:Hs.
  2: { apply Hfix. unfold handleDrop_with. by rewrite Hm, Hg, Hs. }
  destruct (Nat.eqb_spec t s) as [->|Hts].
  { apply Hfix. unfold handleDrop_with. by rewrite Hm, Hg, Hs, Nat.eqb_refl. }
  assert (Hne : (t =? s)%nat = false) by by apply Nat.eqb_neq.
  clear Hfix. unfold handleDrop_with at 2 3. rewrite Hm, Hg, Hs, Hne. simpl.
  destruct (try_body s t (with_swapInProgress true e)) as [e2 b].
  unfold handleDrop_with. simpl. by destruct (isDragMode e2).
Qed.

Lemma handleDrop_with_releases (t : nat) (e : Editor) :
  swapInProgress e = false →
  swapInProgress (handleDrop_with try_body t e) = false.
Proof.
  intros Hg. unfold handleDrop_with.
  destruct (isDragMode e); simpl; [|done]. rewrite Hg.
  destruct (draggedSrcColIndex e) as [s|]; [|done].
  destruct (t =? s)%nat; [done|].
  by destruct (try_body s t (with_swapInProgress true e)).
Qed.

End GuardedDrop.

(** C6: for a drag with recorded source [s], two drops on the same target
    [t] in a row leave the table as one run of the exchange loop leaves it
    ([swap_columns]: in every row that has both cells, the contents at [s]
    and [t] exchanged through [innerHTML]), and as it was when [t] is [s]:
    the second delivery returns the editor untouched.  The guard is free
    again when the handler is left, and that holds over any [try] body,
    whether it ends normally or by an exception. *)
Theorem drop_twice_swaps_once
    (try_body : nat → nat → Editor → Editor * bool)
    (e : Editor) (s t : nat) :
  isDragMode e = true →
  swapInProgress e = false →
  draggedSrcColIndex e = Some s →
  handleDrop t (handleDrop t e) = handleDrop t e
  ∧ (t ≠ s →
     editableTable (handleDrop t (handleDrop t e))
     = swap_columns s t (editableTable e))
  ∧ (t = s →
     editableTable (handleDrop t (handleDrop t e)) = editableTable e)
  ∧ swapInProgress (handleDrop t e) = false
  ∧ (t ≠ s → draggedSrcColIndex (handleDrop t e) = None)
  ∧ handleDrop_with try_body t (handleDrop_with try_body t e)
    = handleDrop_with try_body t e
  ∧ swapInProgress (handleDrop_with try_body t e) = false.
Proof.
  intros Hm Hg Hs.
  assert (Hidem : handleDrop t (handleDrop t e) = handleDrop t e)
    by apply handleDrop_with_idempotent.
  split; [done|]. rewrite Hidem. split; [|split; [|split; [|split; [|split]]]].
  - intros Hts. by rewrite (handleDrop_swaps e s t).
  - intros ->. unfold handleDrop, handleDrop_with.
    by rewrite Hm, Hg, Hs, Nat.eqb_refl.
  - by apply handleDrop_with_releases.
  - intros Hts. by rewrite (handleDrop_swaps e s t).
  - apply handleDrop_with_idempotent.
  - by apply handleDrop_with_releases.
Qed.

Lemma drop_twice_swaps_once_witness :
  editableTable (handleDrop 1 (handleDrop 1 dragging_editor))
  = mkDom (Some (Some [js "B"; js "A"])) (Some [[js "2"; js "1"]]).
Proof.
  destruct (drop_twice_swaps_once swap_body dragging_editor 0 1)
    as (_ & H & _); [reflexivity | reflexivity | reflexivity |].
  rewrite H by discriminate. reflexivity.
Defined.

(** When the [try] block throws, the [finally] block still frees the guard
    and forgets the source, and the table is as the block left it. *)
Example drop_with_throwing_body :
  handleDrop_with throwing_body 1 dragging_editor
  = with_dragged None dragging_editor.
Proof. reflexivity. Qed.

(** C10: a drop in drag mode with source [s] and another target [t]
    returns normally: the loop, whose reads and assignments of [innerHTML]
    throw on a cell that is [undefined], meets none, whatever the lengths of
    the rows.  It keeps every row of the table in place and treats each row
    on its own: a row with cells at both [s] and [t] has the two contents
    exchanged, each as the HTML parser reads it back (as it was, when it
    holds neither CR nor U+0000), and every other cell as before; a row
    without a cell at [s] or at [t] is the same row afterwards. *)
Theorem drop_swaps_row_by_row (e : Editor) (s t : nat) :
  isDragMode e = true →
  swapInProgress e = false →
  draggedSrcColIndex e = Some s →
  t ≠ s →
  let rows := table_rows (editableTable e) in
  let rows' := table_rows (editableTable (handleDrop t e)) in
  snd (swap_body s t (with_swapInProgress true e)) = false
  ∧ length rows' = length rows
  ∧ ∀ i cells, rows !! i = Some cells →
      ∃ cells', rows' !! i = Some cells'
        ∧ length cells' = length cells
        ∧ ((s < length cells)%nat ∧ (t < length cells)%nat →
             cells' !! s = option_map reparsed (cells !! t)
             ∧ cells' !! t = option_map reparsed (cells !! s)
             ∧ (∀ j, j ≠ s → j ≠ t → cells' !! j = cells !! j)
             ∧ (Forall html_stable cells →
                cells' !! s = cells !! t ∧ cells' !! t = cells !! s))
        ∧ (¬ ((s < length cells)%nat ∧ (t < length cells)%nat) →
             cells' = cells).
Proof.
  intros Hm Hg Hs Hts rows rows'. subst rows rows'.
  rewrite (handleDrop_swaps e s t) by done. simpl.
  rewrite table_rows_swap. split; [by rewrite swap_body_returns|].
  split; [by rewrite length_map|].
  intros i cells Hi. exists (swap_cells s t cells).
  split; [by rewrite list_lookup_fmap, Hi|].
  split; [apply swap_cells_length|]. split.
  - intros [Hsl Htl].
    assert (Hst : swap_cells s t cells !! s = option_map reparsed (cells !! t)).
    { rewrite swap_cells_lookup by done.
      destruct (decide (s = t)); [congruence|]. by destruct (decide (s = s)). }
    assert (Hts' : swap_cells s t cells !! t = option_map reparsed (cells !! s)).
    { rewrite swap_cells_lookup by done. by destruct (decide (t = t)). }
    split; [done|]. split; [done|]. split.
    + intros j Hjs Hjt. rewrite swap_cells_lookup by done.
      destruct (decide (j = t)); [done|]. by destruct (decide (j = s)).
    + intros Hstable. rewrite Hst, Hts'.
      destruct (lookup_lt_is_Some_2 cells s Hsl) as [a Ha].
      destruct (lookup_lt_is_Some_2 cells t Htl) as [b Hb].
      rewrite Ha, Hb. cbn.
      rewrite (reparsed_stable a), (reparsed_stable b); [done| |].
      * by apply (Forall_lookup_1 _ _ _ _ Hstable Hb).
      * by apply (Forall_lookup_1 _ _ _ _ Hstable Ha).
  - intros Hn. apply swap_cells_out.
    destruct (cells !! s) eqn:E1; [|by left].
    destruct (cells !! t) eqn:E2; [|by right].
    apply lookup_lt_Some in E1, E2. tauto.
Qed.

Lemma drop_swaps_row_by_row_witness :
  ∃ cells',
    table_rows (editableTable (handleDrop 1 carriage_return_editor)) !! 1%nat
    = Some cells'
    ∧ cells' !! 0%nat = Some (js "2")
    ∧ cells' !! 1%nat = Some [97; LF; 98].
Proof.
  destruct (drop_swaps_row_by_row carriage_return_editor 0 1 eq_refl eq_refl
              eq_refl ltac:(discriminate)) as (_ & _ & H).
  destruct (H 1%nat [[97; CR; 98]; js "2"] eq_refl)
    as (cells' & H1 & _ & H3 & _).
  exists cells'. split; [exact H1|].
  destruct H3 as (H4 & H5 & _); [vm_compute; lia|].
  split; [exact H4 | exact H5].
Defined.

Example drop_on_ragged_table :
  table_rows (editableTable (handleDrop 2 ragged_editor))
  = [[js "C"; js "B"; js "A"]; [js "1"]; [js "3"; js "2"; js "1"]].
Proof. reflexivity. Qed.

(** ** Row lengths *)

Lemma uniform_intro (th : option (option (list str))) (b : list (list str)) (n : nat) :
  header_length (mkDom th (Some b)) = n →
  Forall (λ row : list str, length row = n) b →
  uniform (mkDom th (Some b)).
Proof. intros <- H. exact H. Qed.

Lemma uniform_addRow (e : Editor) :
  uniform (editableTable e) → uniform (editableTable (addRow e)).
Proof.
  unfold addRow. table_cases e Hd.
  intros H. apply Forall_app. split; [done|].
  apply Forall_singleton. apply length_replicate.
Qed.

Lemma uniform_addColumn (e : Editor) :
  uniform (editableTable e) →
  uniform (editableTable (state_after (addColumn e))).
Proof.
  unfold addColumn. table_cases e Hd.
  intros H. apply Forall_map. eapply Forall_impl; [exact H|].
  simpl. intros row Hrow. rewrite !length_app, Hrow. done.
Qed.

Lemma uniform_deleteRow (e : Editor) :
  uniform (editableTable e) → uniform (editableTable (deleteRow e)).
Proof.
  unfold deleteRow, uniform, header_length, bodyRows, headerRow.
  destruct (editableTable e) as [th [b|]] eqn:Hd; simpl; rewrite ?Hd; [|done].
  intros H.
  assert (Hlast : Forall (λ row : list str,
            length row = match match th with Some tr => tr | None => None end with
                         | Some h => length h | None => O end) (removelast b)).
  { rewrite removelast_firstn_len. by apply Forall_take. }
  destruct (selectedRow e) as [[|k]|], (isDragMode e); simpl; rewrite ?Hd; try done;
    try (destruct (0 <? length b)%nat; simpl; rewrite ?Hd; done).
  destruct (b !! k); simpl; rewrite ?Hd; [|done].
  by apply Forall_delete.
Qed.

Lemma uniform_deleteColumn (e : Editor) :
  uniform (editableTable e) →
  uniform (editableTable (state_after (deleteColumn e))).
Proof.
  unfold deleteColumn. table_cases e Hd.
  - intros H.
    assert (Hlast : (length h <=? 1)%nat = false →
              Forall (λ row : list str, length row = length (removelast h))
                     (map remove_last_cell b)).
    { intros Hlen. apply Nat.leb_gt in Hlen.
      apply Forall_map. eapply Forall_impl; [exact H|].
      simpl. intros row Hrow. unfold remove_last_cell.
      destruct (Nat.ltb_spec 0 (length row)); [|lia].
      by rewrite !removelast_length, Hrow. }
    destruct (selectedColumn e) as [sel|], (isDragMode e);
      destruct (length h <=? 1)%nat eqn:Hlen; simpl; rewrite ?Hd; try done;
      try (by apply Hlast).
    destruct (h !! sel) eqn:Hsel; simpl; rewrite ?Hd; [|done].
    apply lookup_lt_Some in Hsel.
    apply Forall_map. eapply Forall_impl; [exact H|].
    simpl. intros row Hrow. unfold remove_cell_at.
    destruct (lookup_lt_is_Some_2 row sel) as [v Hv]; [lia|]. rewrite Hv.
    rewrite !delete_length by lia. by rewrite Hrow.
  - destruct (selectedColumn e), (isDragMode e); simpl; by rewrite ?Hd.
Qed.

Lemma uniform_swap_columns (s t : nat) (d : Dom) :
  uniform d → uniform (swap_columns s t d).
Proof.
  rewrite swap_columns_eq. unfold uniform, header_length, bodyRows, headerRow.
  destruct d as [[[h|]|] [b|]]; simpl; try done; intros H;
    apply Forall_map; (eapply Forall_impl; [exact H|]); simpl; intros row Hrow;
    by rewrite !swap_cells_length.
Qed.

Lemma handleDrop_table (t : nat) (e : Editor) :
  editableTable (handleDrop t e) = editableTable e
  ∨ ∃ s, editableTable (handleDrop t e) = swap_columns s t (editableTable e).
Proof.
  unfold handleDrop, handleDrop_with.
  destruct (isDragMode e); simpl; [|by left].
  destruct (swapInProgress e); [by left|].
  destruct (draggedSrcColIndex e) as [s|]; [|by left].
  destruct (t =? s)%nat; [by left|]. right. exists s.
  by rewrite swap_body_returns.
Qed.

Lemma uniform_handleDrop (t : nat) (e : Editor) :
  uniform (editableTable e) → uniform (editableTable (handleDrop t e)).
Proof.
  intros H. destruct (handleDrop_table t e) as [->|[s ->]]; [done|].
  by apply uniform_swap_columns.
Qed.

Lemma uniform_set_cell (loc : location) (text : str) (d : Dom) :
  uniform d → uniform (set_cell loc text d).
Proof.
  unfold uniform, header_length, bodyRows, headerRow, set_cell.
  destruct loc as [col|row col].
  - destruct d as [[[h|]|] [b|]]; simpl; try done.
    by rewrite length_insert.
  - destruct d as [th [b|]]; simpl; [|done]. intros H.
    destruct (b !! row) as [cells|] eqn:Hrow; [|done].
    apply Forall_insert; [done|]. rewrite length_insert.
    by eapply (Forall_lookup_1 _ _ _ _ H).
Qed.

Lemma createNewTable_table (e : Editor) :
  editableTable (createNewTable e)
  = mkDom (Some (Some [js "Header 1"; js "Header 2"; js "Header 3"]))
          (Some [[js "Cell 1"; js "Cell 2"; js "Cell 3"];
                 [js "Cell 4"; js "Cell 5"; js "Cell 6"]]).
Proof. destruct e. vm_compute. reflexivity. Qed.

Lemma handleClick_table (tg : target) (e : Editor) :
  editableTable (state_after (handleClick tg e)) = editableTable e.
Proof.
  unfold handleClick. destruct (isDragMode e); [done|].
  destruct tg; simpl; try done. by destruct (tbody (editableTable e)).
Qed.

Lemma dispatch_uniform (ev : event) (e : Editor) :
  keeps_text ev = true →
  uniform (editableTable e) →
  uniform (editableTable (state_after (dispatch ev e))).
Proof.
  intros Hev H. destruct ev; try discriminate Hev; cbn [dispatch state_after].
  - rewrite createNewTable_table. unfold uniform. simpl.
    repeat constructor.
  - by apply uniform_set_cell.
  - by apply uniform_addRow.
  - by apply uniform_addColumn.
  - by apply uniform_deleteRow.
  - by apply uniform_deleteColumn.
  - done.
  - by rewrite handleClick_table.
  - unfold handleDragStart. by destruct (isDragMode e), draggable.
  - done.
  - done.
  - by apply uniform_handleDrop.
Qed.

(** C2: from a table whose rows all have as many cells as the header, any
    sequence of gestures that does not retype the Markdown text (adding and
    deleting rows and columns, drops, and with them clicks, mode toggles,
    drags, cell edits and the sample table) ends in a table whose rows all
    have as many cells as the header.  Each gesture on its own keeps the
    property: a sequence of one. *)
Theorem run_keeps_rows_uniform (evs : list event) (e : Editor) :
  forallb keeps_text evs = true →
  uniform (editableTable e) →
  uniform (editableTable (run evs e)).
Proof.
  revert e. induction evs as [|ev evs IH]; intros e Hevs H; [done|].
  simpl in Hevs. apply andb_prop in Hevs as [Hev Hevs].
  unfold run. simpl. apply IH; [done|]. by apply dispatch_uniform.
Qed.

Lemma run_keeps_rows_uniform_witness :
  uniform (editableTable
    (run [AddColumn; AddRow; Click (TH 0); DeleteColumn; ToggleMode;
          DragStart true 0; Drop 1; DragEnd; DeleteRow; DeleteColumn]
         stale_editor)).
Proof.
  apply run_keeps_rows_uniform; [reflexivity|].
  unfold uniform. simpl. repeat constructor.
Defined.

(** Typing in the textarea is what can break the property: the row of a
    line with fewer cells is rendered as it is. *)
Example input_breaks_uniform :
  table_rows (editableTable (state_after (dispatch
     (Input (js "| A | B |" ++ [LF] ++ js "| x |" ++ [LF] ++ js "| 1 | 2 |"))
     stale_editor)))
  = [[js "A"; js "B"]; [js "x"]; [js "1"; js "2"]].
Proof. vm_compute. reflexivity. Qed.

(** ** States the editor can be in *)

Lemma parseMarkdown_fields (e : Editor) :
  selectedRow (parseMarkdown e) = selectedRow e
  ∧ selectedColumn (parseMarkdown e) = selectedColumn e
  ∧ swapInProgress (parseMarkdown e) = swapInProgress e.
Proof.
  unfold parseMarkdown.
  destruct (is_empty (trim (markdownInput e))); [done|].
  by destruct (markdownToTable (markdownInput e)).
Qed.

Lemma dispatch_guard_free (ev : event) (e : Editor) :
  swapInProgress e = false →
  swapInProgress (state_after (dispatch ev e)) = false.
Proof.
  intros Hg. destruct ev; cbn [dispatch state_after].
  - by rewrite (proj2 (proj2 (parseMarkdown_fields _))).
  - unfold createNewTable. cbn [clearSelections with_selectedColumn
      with_selectedRow swapInProgress].
    by rewrite (proj2 (proj2 (parseMarkdown_fields _))).
  - done.
  - unfold addRow. by repeat case_match.
  - unfold addColumn. by repeat case_match.
  - unfold deleteRow. by repeat case_match.
  - unfold deleteColumn. by repeat case_match.
  - done.
  - unfold handleClick. by repeat case_match.
  - unfold handleDragStart. by repeat case_match.
  - done.
  - done.
  - by apply handleDrop_with_releases.
Qed.

Lemma dispatch_exclusive (ev : event) (e : Editor) :
  exclusive e → exclusive (state_after (dispatch ev e)).
Proof.
  intros He. destruct ev; cbn [dispatch state_after].
  - unfold exclusive.
    destruct (parseMarkdown_fields (with_input text e)) as (-> & -> & _).
    exact He.
  - by left.
  - exact He.
  - unfold addRow. by repeat case_match.
  - unfold addColumn. by repeat case_match.
  - unfold deleteRow. repeat case_match; try done; by left.
  - unfold deleteColumn. repeat case_match; try done; by left.
  - by left.
  - by apply handleClick_exclusive.
  - unfold handleDragStart. by repeat case_match.
  - exact He.
  - exact He.
  - unfold handleDrop, handleDrop_with, exclusive in *.
    repeat case_match; try done.
    match goal with
    | H : swap_body _ _ _ = _ |- _ =>
        rewrite swap_body_returns in H; inversion H
    end.
    exact He.
Qed.

(** From the state the constructor leaves, whatever the gestures, the guard
    is free between two handlers and at most one selection field is set. *)
Lemma reachable_quiescent (evs : list event) (d : Dom) (text : str) :
  swapInProgress (run evs (initial d text)) = false
  ∧ exclusive (run evs (initial d text)).
Proof.
  assert (H : ∀ e, swapInProgress e = false ∧ exclusive e →
                   swapInProgress (run evs e) = false ∧ exclusive (run evs e)).
  { induction evs as [|ev evs IH]; intros e [Hg He]; [done|].
    unfold run. simpl. apply IH. split.
    - by apply dispatch_guard_free.
    - by apply dispatch_exclusive. }
  apply H. split; [done|by left].
Qed.

(** ** Trimming *)

Lemma pipe_not_space : is_space pipe = false.
Proof. reflexivity. Qed.

Lemma trimEnd_spaces (w : str) :
  forallb is_space w = true → trimEnd w = [].
Proof.
  induction w as [|c w IH]; simpl; [done|].
  intros H. apply andb_prop in H as [Hc Hw]. by rewrite IH, Hc.
Qed.

Lemma trimEnd_app_spaces (x w : str) :
  forallb is_space w = true → trimEnd (x ++ w) = trimEnd x.
Proof.
  intros Hw. induction x as [|c x IH]; simpl.
  - by apply trimEnd_spaces.
  - by rewrite IH.
Qed.

Lemma trimEnd_last (r : str) (c : N) :
  is_space c = false → trimEnd (r ++ [c]) = r ++ [c].
Proof.
  intros Hc. induction r as [|a r IH]; simpl.
  - by rewrite Hc.
  - rewrite IH. by destruct r.
Qed.

Lemma trimStart_spaces (w x : str) :
  forallb is_space w = true → trimStart (w ++ x) = trimStart x.
Proof.
  induction w as [|c w IH]; simpl; [done|].
  intros H. apply andb_prop in H as [Hc Hw]. rewrite Hc. by apply IH.
Qed.

Lemma trimStart_first (c : N) (r : str) :
  is_space c = false → trimStart (c :: r) = c :: r.
Proof. intros Hc. simpl. by rewrite Hc. Qed.

(** A string that begins and ends with a character that is not white space
    is its own trimming, also with white space put around it. *)
Lemma trim_core (w1 w2 r : str) (a b : N) :
  forallb is_space w1 = true → forallb is_space w2 = true →
  is_space a = false → is_space b = false →
  trim (w1 ++ (a :: r ++ [b]) ++ w2) = a :: r ++ [b].
Proof.
  intros H1 H2 Ha Hb. unfold trim.
  rewrite app_assoc, trimEnd_app_spaces by done.
  replace (w1 ++ a :: r ++ [b]) with ((w1 ++ a :: r) ++ [b])
    by by rewrite <- app_assoc.
  rewrite trimEnd_last by done. rewrite <- app_assoc.
  rewrite trimStart_spaces by done. by apply trimStart_first.
Qed.

Lemma trim_fixed (r : str) (a b : N) :
  is_space a = false → is_space b = false →
  trim (a :: r ++ [b]) = a :: r ++ [b].
Proof.
  intros Ha Hb.
  pose proof (trim_core [] [] r a b eq_refl eq_refl Ha Hb) as H.
  simpl in H. by rewrite app_nil_r in H.
Qed.

(** The padding [tableToMarkdown] puts around a cell goes away on parsing. *)
Lemma trim_padded (c : str) : trim (space :: c ++ [space]) = trim c.
Proof.
  unfold trim.
  replace (space :: c ++ [space]) with ((space :: c) ++ [space]) by done.
  rewrite trimEnd_app_spaces by done. simpl.
  destruct (trimEnd c); reflexivity.
Qed.

(** What [trim] takes off is white space. *)
Lemma trimEnd_split (s : str) :
  ∃ w, s = trimEnd s ++ w ∧ forallb is_space w = true.
Proof.
  induction s as [|c s (w & Hs & Hw)]; simpl.
  - by exists [].
  - destruct (trimEnd s) as [|a t] eqn:Ht.
    + destruct (is_space c) eqn:Hc.
      * exists (c :: w). simpl in *. rewrite Hc. by subst s.
      * exists w. simpl in *. by subst s.
    + exists w. split; [|done]. simpl. f_equal. exact Hs.
Qed.

Lemma trimStart_split (s : str) :
  ∃ w, s = w ++ trimStart s ∧ forallb is_space w = true.
Proof.
  induction s as [|c s (w & Hs & Hw)]; simpl.
  - by exists [].
  - destruct (is_space c) eqn:Hc.
    + exists (c :: w). simpl. rewrite Hc. split; [by rewrite <- Hs|done].
    + by exists [].
Qed.

Lemma trim_split (s : str) :
  ∃ w1 w2, s = w1 ++ trim s ++ w2
           ∧ forallb is_space w1 = true ∧ forallb is_space w2 = true.
Proof.
  destruct (trimEnd_split s) as (w2 & Hs2 & Hw2).
  destruct (trimStart_split (trimEnd s)) as (w1 & Hs1 & Hw1).
  exists w1, w2. unfold trim. split; [|done].
  rewrite app_assoc, <- Hs1. exact Hs2.
Qed.

(** ** The separator pattern *)

Lemma forallb_rev {A} (f : A → bool) (l : list A) :
  forallb f (rev l) = forallb f l.
Proof.
  induction l as [|a l IH]; simpl; [done|].
  rewrite forallb_app, IH. simpl. rewrite andb_true_r. apply andb_comm.
Qed.

(** The matcher decides the pattern. *)
Lemma matches_separator_spec (s : str) :
  matches_separator s = true ↔ re_separator s.
Proof.
  unfold matches_separator, re_separator. split.
  - destruct (trim_split s) as (w1 & w2 & Hs & Hw1 & Hw2).
    destruct (trim s) as [|p rest]; [done|].
    intros H. apply andb_prop in H as [Hp H].
    apply N.eqb_eq in Hp. subst p.
    destruct (rev rest) as [|q m] eqn:Hrev; [done|].
    apply andb_prop in H as [H Hcls]. apply andb_prop in H as [Hq Hne].
    apply N.eqb_eq in Hq. subst q.
    assert (Hrest : rest = rev m ++ [pipe]).
    { rewrite <- (rev_involutive rest), Hrev. done. }
    exists w1, (rev m), w2. repeat split; try done.
    + rewrite Hs, Hrest. simpl. by rewrite <- !app_assoc.
    + destruct m; [done|]. simpl. by destruct (rev m).
    + by rewrite forallb_rev.
  - intros (w1 & m & w2 & -> & Hw1 & Hm & Hcls & Hw2).
    replace (w1 ++ pipe :: m ++ pipe :: w2)
      with (w1 ++ (pipe :: m ++ [pipe]) ++ w2)
      by (simpl; by rewrite <- app_assoc).
    rewrite trim_core by done.
    rewrite N.eqb_refl, rev_app_distr. simpl.
    rewrite forallb_rev, Hcls.
    destruct m as [|a m]; [done|]. simpl. by destruct (rev m).
Qed.

Lemma re_separator_table_line (l : str) :
  re_separator (trim l) → is_table_line l = true.
Proof.
  intros (w1 & m & w2 & Hl & _). unfold is_table_line. rewrite Hl.
  apply andb_true_intro. split.
  - by destruct w1.
  - unfold includes. apply existsb_exists. exists pipe. split; [|done].
    apply in_or_app. right. by left.
Qed.

(** ** Which lines become rows *)

Lemma survives_decide (i : nat) (l : str) :
  is_table_line l && negb ((i =? 1)%nat && matches_separator (trim l)) = true
  ↔ survives i l.
Proof.
  unfold survives. rewrite andb_true_iff, negb_true_iff, andb_false_iff.
  rewrite Nat.eqb_neq. rewrite <- matches_separator_spec.
  split; intros [Ht H]; (split; [done|]).
  - intros [Hi Hm]. destruct H as [H|H]; [done|]. by rewrite Hm in H.
  - destruct (decide (i = 1%nat)) as [->|Hi]; [|by left].
    right. destruct (matches_separator (trim l)); [|done].
    exfalso. by apply H.
Qed.

Lemma scan_lines_surviving (i : nat) (lines : list str) (rows : list (list str)) :
  scan_lines i lines rows = rows ++ map row_of (surviving_from i lines).
Proof.
  revert i rows. induction lines as [|l rest IH]; intros i rows; simpl.
  - by rewrite app_nil_r.
  - unfold is_table_line.
    destruct (is_empty (trim l)); simpl; [apply IH|].
    destruct (includes pipe (trim l)); simpl; [|apply IH].
    destruct ((i =? 1)%nat && matches_separator (trim l)); simpl; [apply IH|].
    rewrite IH. by rewrite <- app_assoc.
Qed.

Lemma surviving_from_elem (i : nat) (lines : list str) (j : nat) (l : str) :
  (j, l) ∈ surviving_from i lines
  ↔ (i ≤ j)%nat ∧ lines !! (j - i)%nat = Some l ∧ survives j l.
Proof.
  revert i. induction lines as [|l0 rest IH]; intros i; simpl.
  - split; [by intros H%elem_of_nil|by intros (_ & H & _)].
  - assert (Hrest : (j, l) ∈ surviving_from (S i) rest
                    ↔ (i < j)%nat ∧ (l0 :: rest) !! (j - i)%nat = Some l ∧ survives j l).
    { rewrite IH. split.
      - intros (Hle & Hl & Hs). split; [lia|]. split; [|done].
        replace (j - i)%nat with (S (j - S i)) by lia. done.
      - intros (Hlt & Hl & Hs). split; [lia|]. split; [|done].
        replace (j - i)%nat with (S (j - S i)) in Hl by lia. done. }
    assert (Hhead : (j, l) = (i, l0) ∧ survives i l0
                    ↔ j = i ∧ (l0 :: rest) !! (j - i)%nat = Some l ∧ survives j l).
    { split.
      - intros [[= -> ->] Hs]. by rewrite Nat.sub_diag.
      - intros (-> & Hl & Hs). rewrite Nat.sub_diag in Hl.
        simpl in Hl. by inversion Hl; subst. }
    destruct (is_table_line l0 && negb ((i =? 1)%nat && matches_separator (trim l0)))
      eqn:Hb.
    + apply survives_decide in Hb. rewrite elem_of_cons, Hrest. split.
      * intros [H|H].
        -- destruct (proj1 Hhead (conj H Hb)) as (-> & ? & ?). by split.
        -- destruct H as (? & ? & ?). split; [lia|done].
      * intros (Hle & Hl & Hs).
        destruct (decide (j = i)) as [Hji|Hji].
        -- left. by apply Hhead.
        -- right. split; [lia|done].
    + rewrite Hrest. split.
      * intros (? & ? & ?). split; [lia|done].
      * intros (Hle & Hl & Hs).
        destruct (decide (j = i)) as [Hji|Hji]; [|split; [lia|done]].
        exfalso. destruct (proj2 Hhead (conj Hji (conj Hl Hs))) as [_ Hs'].
        apply survives_decide in Hs'. by rewrite Hs' in Hb.
Qed.

Lemma surviving_from_sorted (i : nat) (lines : list str) :
  StronglySorted (λ p q : nat * str, (fst p < fst q)%nat) (surviving_from i lines).
Proof.
  revert i. induction lines as [|l rest IH]; intros i; simpl; [constructor|].
  destruct (is_table_line l && negb ((i =? 1)%nat && matches_separator (trim l)));
    [|apply IH].
  constructor; [apply IH|].
  apply Forall_forall. intros [j l'] Hin.
  apply surviving_from_elem in Hin as (Hle & _). simpl. lia.
Qed.

Lemma markdownToTable_surviving (markdown : str) :
  markdownToTable markdown
  = if (length (raw_lines markdown) <? 2)%nat then None
    else match map row_of (surviving_from 0 (raw_lines markdown)) with
         | [] => None
         | rows => Some rows
         end.
Proof.
  unfold markdownToTable, raw_lines. by rewrite scan_lines_surviving.
Qed.

(** C3: the rows [markdownToTable] builds are those of the surviving
    lines, in the order of the input, one row per line.  A line survives when
    it is not blank, has a pipe, and is not a line at index 1 that matches
    the separator pattern.  So among the lines with a pipe, the one at
    index 1 is dropped exactly when it matches the pattern and is a row
    otherwise, and a line at any other index is a row whatever its shape. *)
Theorem separator_only_at_index_1 (markdown : str) :
  ∃ kept : list (nat * str),
    StronglySorted (λ p q : nat * str, (fst p < fst q)%nat) kept
    ∧ (∀ i l, (i, l) ∈ kept ↔ raw_lines markdown !! i = Some l ∧ survives i l)
    ∧ scan_lines 0 (raw_lines markdown) [] = map row_of kept
    ∧ markdownToTable markdown
      = (if (length (raw_lines markdown) <? 2)%nat then None
         else match map row_of kept with [] => None | rows => Some rows end)
    ∧ (∀ l, raw_lines markdown !! 1%nat = Some l → is_table_line l = true →
            ((1%nat, l) ∈ kept ↔ ¬ re_separator (trim l)))
    ∧ (∀ i l, i ≠ 1%nat → raw_lines markdown !! i = Some l →
              is_table_line l = true → (i, l) ∈ kept).
Proof.
  exists (surviving_from 0 (raw_lines markdown)).
  assert (Hin : ∀ i l, (i, l) ∈ surviving_from 0 (raw_lines markdown)
                       ↔ raw_lines markdown !! i = Some l ∧ survives i l).
  { intros i l. rewrite surviving_from_elem, Nat.sub_0_r.
    split; [by intros (_ & ? & ?)|]. intros [? ?]. split; [lia|done]. }
  split; [apply surviving_from_sorted|]. split; [exact Hin|].
  split; [by rewrite scan_lines_surviving|].
  split; [apply markdownToTable_surviving|]. split.
  - intros l Hl Ht. rewrite Hin. unfold survives. split.
    + intros (_ & _ & H) Hre. by apply H.
    + intros H. split; [done|]. split; [done|]. by intros [_ Hre].
  - intros i l Hi Hl Ht. apply Hin. split; [done|].
    split; [done|]. by intros [? _].
Qed.

(** ** Parse failure *)

(** C4: [markdownToTable] returns null exactly when the input, trimmed,
    has fewer than two lines or none of its lines survives the filtering
    (blank lines, lines without a pipe and the separator at index 1 are
    skipped).  When the text is not
    blank (the case in which [parseMarkdown] calls it) and the result is
    null, [parseMarkdown] returns the editor as it was, grid included. *)
Theorem parse_failure_keeps_grid (markdown : str) (e : Editor) :
  (markdownToTable markdown = None
   ↔ (length (raw_lines markdown) < 2)%nat
     ∨ ∀ i l, raw_lines markdown !! i = Some l → ¬ survives i l)
  ∧ (is_empty (trim markdown) = false →
     markdownToTable markdown = None →
     parseMarkdown (with_input markdown e) = with_input markdown e
     ∧ editableTable (state_after (dispatch (Input markdown) e)) = editableTable e).
Proof.
  split.
  - rewrite markdownToTable_surviving.
    destruct (Nat.ltb_spec (length (raw_lines markdown)) 2) as [Hlt|Hge].
    { split; [by left|done]. }
    destruct (surviving_from 0 (raw_lines markdown)) as [|[j l'] kept] eqn:Hk; simpl.
    + split; [|done]. intros _. right. intros i l Hl Hs.
      assert (Hin : (i, l) ∈ surviving_from 0 (raw_lines markdown)).
      { apply surviving_from_elem. rewrite Nat.sub_0_r. split; [lia|done]. }
      rewrite Hk in Hin. by apply elem_of_nil in Hin.
    + split; [done|]. intros [Hlt|Hnone]; [lia|]. exfalso.
      assert (Hin : (j, l') ∈ surviving_from 0 (raw_lines markdown))
        by (rewrite Hk; by left).
      apply surviving_from_elem in Hin as (_ & Hl & Hs).
      rewrite Nat.sub_0_r in Hl. by apply (Hnone j l').
  - intros Hblank Hnull.
    assert (Hp : parseMarkdown (with_input markdown e) = with_input markdown e).
    { unfold parseMarkdown. cbn [markdownInput with_input].
      by rewrite Hblank, Hnull. }
    split; [done|]. cbn [dispatch state_after]. by rewrite Hp.
Qed.

Lemma parse_failure_keeps_grid_witness :
  editableTable (state_after (dispatch (Input (js "no table here")) stale_editor))
  = editableTable stale_editor.
Proof.
  apply (proj2 (parse_failure_keeps_grid (js "no table here") stale_editor));
    reflexivity.
Defined.

Lemma separator_only_at_index_1_witness :
  ∃ kept : list (nat * str),
    (1%nat, js "| not-a-separator |") ∈ kept
    ∧ (2%nat, js "| --- |") ∈ kept.
Proof.
  destruct (separator_only_at_index_1
              (js "| A |" ++ [LF] ++ js "| not-a-separator |" ++ [LF] ++ js "| --- |"))
    as (kept & _ & _ & _ & _ & H1 & H2).
  exists kept. split.
  - apply H1; [reflexivity | reflexivity |].
    intros H%matches_separator_spec. vm_compute in H. discriminate H.
  - apply H2; [discriminate | reflexivity | reflexivity].
Defined.

(** The blank text is the other path of [parseMarkdown]: the grid is
    cleared without [markdownToTable] being called. *)
Example blank_text_clears :
  editableTable (state_after (dispatch (Input (js "  ")) stale_editor))
  = mkDom (Some None) (Some []).
Proof. reflexivity. Qed.

(** The text is trimmed before it is cut into lines: a single table line
    followed by a line feed is one line, and lines are numbered after the
    leading blank ones are gone. *)
Example one_line_and_a_line_feed :
  markdownToTable (js "| a |" ++ [LF]) = None.
Proof. vm_compute. reflexivity. Qed.

Example leading_blank_line :
  markdownToTable ([LF] ++ js "| A |" ++ [LF] ++ js "| --- |" ++ [LF] ++ js "| 1 |")
  = Some [[js "A"]; [js "1"]].
Proof. vm_compute. reflexivity. Qed.

(** A line at index 1 without a pipe is gone before the separator test. *)
Example no_pipe_at_index_1 :
  markdownToTable (js "| A |" ++ [LF] ++ js "note" ++ [LF] ++ js "| 1 |")
  = Some [[js "A"]; [js "1"]].
Proof. vm_compute. reflexivity. Qed.

Example separator_dropped_at_index_1 :
  markdownToTable (js "| A |" ++ [LF] ++ js "|:--|" ++ [LF] ++ js "| --- |")
  = Some [[js "A"]; [js "---"]].
Proof. vm_compute. reflexivity. Qed.

(** ** Splitting and joining *)

Lemma includes_app (c : N) (x y : str) :
  includes c (x ++ y) = includes c x || includes c y.
Proof. apply existsb_app. Qed.

Lemma includes_cons (c a : N) (x : str) :
  includes c (a :: x) = (c =? a) || includes c x.
Proof. reflexivity. Qed.

Lemma split_app_sep (sep : N) (p r : str) :
  includes sep p = false → split sep (p ++ sep :: r) = p :: split sep r.
Proof.
  induction p as [|c p IH]; simpl.
  - intros _. by rewrite N.eqb_refl.
  - intros H. apply orb_false_elim in H as [Hc Hp].
    rewrite N.eqb_sym, Hc. by rewrite IH.
Qed.

Lemma split_without_sep (sep : N) (p : str) :
  includes sep p = false → split sep p = [p].
Proof.
  induction p as [|c p IH]; simpl; [done|].
  intros H. apply orb_false_elim in H as [Hc Hp].
  rewrite N.eqb_sym, Hc. by rewrite IH.
Qed.

Lemma split_join (sep : N) (parts : list str) :
  parts ≠ [] →
  Forall (λ p : str, includes sep p = false) parts →
  split sep (join [sep] parts) = parts.
Proof.
  induction parts as [|p parts IH]; [done|]. intros _ H.
  apply Forall_cons in H as [Hp Hparts].
  destruct parts as [|q parts].
  - simpl. by apply split_without_sep.
  - change (join [sep] (p :: q :: parts)) with (p ++ sep :: join [sep] (q :: parts)).
    rewrite split_app_sep by done. by rewrite IH.
Qed.

Lemma split_terminated (sep : N) (parts : list str) :
  Forall (λ p : str, includes sep p = false) parts →
  split sep (concat (map (λ p : str, p ++ [sep]) parts)) = parts ++ [[]].
Proof.
  induction parts as [|p parts IH]; simpl; [done|].
  intros H. apply Forall_cons in H as [Hp Hparts].
  rewrite <- app_assoc. simpl. rewrite split_app_sep by done. by rewrite IH.
Qed.

Lemma concat_terminated_join (sep : N) (parts : list str) :
  parts ≠ [] →
  concat (map (λ p : str, p ++ [sep]) parts) = join [sep] parts ++ [sep].
Proof.
  induction parts as [|p parts IH]; [done|]. intros _.
  destruct parts as [|q parts].
  - simpl. by rewrite app_nil_r.
  - change (join [sep] (p :: q :: parts)) with (p ++ [sep] ++ join [sep] (q :: parts)).
    change (concat (map (λ p0 : str, p0 ++ [sep]) (p :: q :: parts)))
      with ((p ++ [sep]) ++ concat (map (λ p0 : str, p0 ++ [sep]) (q :: parts))).
    rewrite IH by done. by rewrite <- !app_assoc.
Qed.

Lemma includes_join (c : N) (sep : str) (parts : list str) :
  includes c sep = false →
  Forall (λ p : str, includes c p = false) parts →
  includes c (join sep parts) = false.
Proof.
  intros Hsep. induction parts as [|p parts IH]; [done|].
  intros H. apply Forall_cons in H as [Hp Hparts].
  destruct parts as [|q parts]; [done|].
  change (join sep (p :: q :: parts)) with (p ++ sep ++ join sep (q :: parts)).
  rewrite !includes_app, Hp, Hsep. by rewrite IH.
Qed.

Lemma forallb_join (f : N → bool) (sep : str) (parts : list str) :
  forallb f sep = true →
  Forall (λ p : str, forallb f p = true) parts →
  forallb f (join sep parts) = true.
Proof.
  intros Hsep. induction parts as [|p parts IH]; [done|].
  intros H. apply Forall_cons in H as [Hp Hparts].
  destruct parts as [|q parts]; [done|].
  change (join sep (p :: q :: parts)) with (p ++ sep ++ join sep (q :: parts)).
  rewrite !forallb_app, Hp, Hsep. by rewrite IH.
Qed.

(** ** Lines of the output *)

Lemma render_line_text (cells : list str) :
  render_line cells = line_text cells ++ [LF].
Proof. unfold render_line, line_text. by rewrite <- !app_assoc. Qed.

(** A line begins and ends with a pipe, with something in between. *)
Lemma line_text_shape (cells : list str) :
  line_text cells = pipe :: (space :: join (js " | ") cells ++ [space]) ++ [pipe].
Proof.
  unfold line_text. change (js "| ") with [pipe; space].
  change (js " |") with [space; pipe]. simpl. by rewrite <- app_assoc.
Qed.

Lemma trim_line_text (cells : list str) :
  trim (line_text cells) = line_text cells.
Proof. rewrite line_text_shape. by apply trim_fixed. Qed.

Lemma line_text_table_line (cells : list str) :
  is_table_line (line_text cells) = true.
Proof.
  unfold is_table_line. rewrite trim_line_text. by rewrite line_text_shape.
Qed.

Lemma includes_line_text (c : N) (cells : list str) :
  c ≠ pipe → c ≠ space →
  Forall (λ p : str, includes c p = false) cells →
  includes c (line_text cells) = false.
Proof.
  intros Hp Hs H. rewrite line_text_shape.
  apply N.eqb_neq in Hp, Hs.
  change (js " | ") with [space; pipe; space].
  rewrite includes_cons, Hp, includes_app, includes_cons, Hs, includes_app.
  rewrite includes_join; [|by rewrite !includes_cons, Hp, Hs|done].
  by rewrite !includes_cons, Hp, Hs.
Qed.

(** The padded cells of a line, each followed by its pipe. *)
Lemma line_text_pieces (cells : list str) :
  cells ≠ [] →
  line_text cells
  = pipe :: concat (map (λ p : str, p ++ [pipe])
                        (map (λ c : str, space :: c ++ [space]) cells)).
Proof.
  intros Hne. rewrite line_text_shape. f_equal.
  induction cells as [|c cells IH]; [done|].
  destruct cells as [|c' cells].
  - simpl. by rewrite <- !app_assoc.
  - change (join (js " | ") (c :: c' :: cells))
      with (c ++ [space; pipe; space] ++ join (js " | ") (c' :: cells)).
    change (concat (map (λ p : str, p ++ [pipe])
                      (map (λ c0 : str, space :: c0 ++ [space]) (c :: c' :: cells))))
      with (((space :: c ++ [space]) ++ [pipe])
            ++ concat (map (λ p : str, p ++ [pipe])
                         (map (λ c0 : str, space :: c0 ++ [space]) (c' :: cells)))).
    rewrite <- IH by done. generalize (join (js " | ") (c' :: cells)) as J.
    intros J. simpl. rewrite <- !app_assoc. reflexivity.
Qed.

Lemma split_head (sep : N) (r : str) : split sep (sep :: r) = [] :: split sep r.
Proof. simpl. by rewrite N.eqb_refl. Qed.

(** A line read back gives the cells it was written from, trimmed. *)
Lemma line_cells_line_text (cells : list str) :
  cells ≠ [] →
  Forall (λ c : str, includes pipe c = false) cells →
  line_cells (line_text cells) = map trim cells.
Proof.
  intros Hne Hplain. unfold line_cells.
  rewrite line_text_pieces by done. rewrite split_head.
  rewrite split_terminated.
  2: { apply Forall_map. eapply Forall_impl; [exact Hplain|].
       simpl. intros c Hc. by rewrite includes_app, Hc. }
  rewrite map_cons. change (trim []) with (@nil N). unfold shift_blank.
  rewrite map_app, map_map. change (map trim [[]]) with [@nil N].
  unfold pop_blank. rewrite last_snoc, removelast_last.
  apply map_ext. intros c. apply trim_padded.
Qed.

Lemma separator_line_text (cells : list str) :
  separator_line cells = line_text (map (λ _ : str, js "---") cells) ++ [LF].
Proof. unfold separator_line, line_text. by rewrite <- !app_assoc. Qed.

Lemma separator_line_matches (cells : list str) :
  matches_separator (line_text (map (λ _ : str, js "---") cells)) = true.
Proof.
  apply matches_separator_spec. rewrite line_text_shape.
  exists [], (space :: join (js " | ") (map (λ _ : str, js "---") cells) ++ [space]), [].
  split; [done|]. split; [done|]. split; [done|]. split; [|done].
  simpl. rewrite forallb_app. simpl. rewrite andb_true_r.
  apply forallb_join; [done|]. apply Forall_map.
  by apply Forall_forall.
Qed.

(** ** Round trip *)

Lemma body_markdown_rows (markdown : str) (rows : list (list str)) :
  Forall (λ row : list str, row ≠ []) rows →
  body_markdown markdown rows = markdown ++ concat (map render_line rows).
Proof.
  unfold body_markdown. revert markdown.
  induction rows as [|row rows IH]; intros markdown H; simpl.
  - by rewrite app_nil_r.
  - apply Forall_cons in H as [Hrow Hrows].
    destruct row as [|c row]; [done|]. simpl length. cbn [Nat.eqb].
    rewrite IH by done. by rewrite <- app_assoc.
Qed.

Lemma join_lines_shape (lines : list str) :
  lines ≠ [] →
  Forall (λ l : str, ∃ m, l = pipe :: m ++ [pipe]) lines →
  ∃ r, join [LF] lines = pipe :: r ++ [pipe].
Proof.
  induction lines as [|l lines IH]; [done|]. intros _ H.
  apply Forall_cons in H as [[m ->] Hlines].
  destruct lines as [|l' lines].
  - by exists m.
  - destruct IH as [r Hr]; [done|done|].
    change (join [LF] ((pipe :: m ++ [pipe]) :: l' :: lines))
      with ((pipe :: m ++ [pipe]) ++ [LF] ++ join [LF] (l' :: lines)).
    rewrite Hr. exists (m ++ [pipe] ++ [LF] ++ pipe :: r).
    simpl. by rewrite <- !app_assoc.
Qed.

Lemma line_text_filter (cells : list str) :
  is_empty (line_text cells) || negb (includes pipe (line_text cells)) = false.
Proof. by rewrite line_text_shape. Qed.

Lemma scan_lines_step_row (i : nat) (cells : list str) (rest : list str)
    (rows : list (list str)) :
  cells ≠ [] →
  Forall (λ c : str, includes pipe c = false) cells →
  (i =? 1)%nat = false →
  scan_lines i (line_text cells :: rest) rows
  = scan_lines (S i) rest (rows ++ [map trim cells]).
Proof.
  intros Hne Hplain Hi. cbn [scan_lines].
  rewrite trim_line_text, line_text_filter, Hi. cbn [andb].
  by rewrite line_cells_line_text.
Qed.

Lemma scan_lines_step_separator (cells : list str) (rest : list str)
    (rows : list (list str)) :
  scan_lines 1 (line_text (map (λ _ : str, js "---") cells) :: rest) rows
  = scan_lines 2 rest rows.
Proof.
  cbn [scan_lines].
  by rewrite trim_line_text, line_text_filter, separator_line_matches.
Qed.

Lemma scan_lines_rows (i : nat) (table : list (list str)) (rows : list (list str)) :
  (2 ≤ i)%nat →
  Forall (λ cells : list str,
            cells ≠ [] ∧ Forall (λ c : str, includes pipe c = false) cells) table →
  scan_lines i (map line_text table) rows = rows ++ map (map trim) table.
Proof.
  revert i rows. induction table as [|cells table IH]; intros i rows Hi H.
  - simpl. by rewrite app_nil_r.
  - apply Forall_cons in H as [[Hne Hplain] Htable]. cbn [map].
    rewrite scan_lines_step_row; [|done|done|by apply Nat.eqb_neq; lia].
    rewrite IH; [|lia|done]. by rewrite <- app_assoc.
Qed.

(** C1, as stated, fails: a pipe typed into a cell is written out as it is
    and read back as a column boundary. *)
Lemma roundtrip_fails_on_pipe :
  well_formed pipe_table
  ∧ ¬ ∃ t', markdownToTable (tableToMarkdown (grid_of pipe_table)) = Some t'
            ∧ map (map trim) t' = map (map trim) pipe_table.
Proof.
  split.
  - simpl. split; [lia|constructor].
  - intros (t' & H & Heq). vm_compute in H. inversion H; subst t'.
    vm_compute in Heq. discriminate Heq.
Qed.

(** C1, amended: for a table with at least one column, every row as long as
    the header, and no pipe and no line feed in any cell text, parsing the
    text [tableToMarkdown] writes for its grid gives the table back, each
    cell trimmed. *)
Theorem roundtrip_plain_cells (t : list (list str)) :
  well_formed t →
  Forall (Forall plain) t →
  markdownToTable (tableToMarkdown (grid_of t)) = Some (map (map trim) t).
Proof.
  destruct t as [|h rows]; [done|]. intros [Hh Hrows] Hplain.
  assert (Hhne : h ≠ []) by (destruct h; [simpl in Hh; lia|done]).
  assert (Hne : Forall (λ row : list str, row ≠ []) rows).
  { eapply Forall_impl; [exact Hrows|]. simpl. intros row Hrow ->.
    simpl in Hrow. lia. }
  assert (Hpipe : Forall (λ cells : list str,
             cells ≠ [] ∧ Forall (λ c : str, includes pipe c = false) cells)
             (h :: rows)).
  { apply Forall_forall. intros cells Hin. split.
    - apply elem_of_cons in Hin as [->|Hin]; [done|].
      by apply (proj1 (Forall_forall _ _) Hne).
    - eapply Forall_impl; [exact (proj1 (Forall_forall _ _) Hplain cells Hin)|].
      by intros c [? _]. }
  assert (Hlf : Forall (λ cells : list str,
             Forall (λ c : str, includes LF c = false) cells) (h :: rows)).
  { eapply Forall_impl; [exact Hplain|]. simpl. intros cells Hc.
    eapply Forall_impl; [exact Hc|]. by intros c [_ ?]. }
  set (lines := line_text h :: line_text (map (λ _ : str, js "---") h)
                :: map line_text rows).
  (* the text written *)
  assert (Htext : tableToMarkdown (grid_of (h :: rows)) = join [LF] lines ++ [LF]).
  { rewrite <- concat_terminated_join by done.
    unfold grid_of, renderTable, tableToMarkdown, header_markdown.
    cbn [editableTable with_table thead tbody initial tail].
    destruct (Nat.ltb_spec 0 (length h)) as [_|?]; [|lia].
    rewrite body_markdown_rows by done.
    subst lines. cbn [map concat].
    rewrite render_line_text, separator_line_text, map_map.
    rewrite (map_ext render_line (λ x : list str, line_text x ++ [LF]))
      by apply render_line_text.
    by rewrite <- !app_assoc. }
  (* its lines *)
  assert (Hlines : raw_lines (tableToMarkdown (grid_of (h :: rows))) = lines).
  { unfold raw_lines. rewrite Htext.
    destruct (join_lines_shape lines) as [r Hr]; [done| |].
    { apply Forall_forall. intros l Hl. subst lines.
      apply elem_of_cons in Hl as [->|Hl]; [rewrite line_text_shape; eauto|].
      apply elem_of_cons in Hl as [->|Hl]; [rewrite line_text_shape; eauto|].
      apply list_elem_of_fmap in Hl as (row & -> & _).
      rewrite line_text_shape; eauto. }
    rewrite Hr.
    rewrite (trim_core [] [LF] r pipe pipe eq_refl eq_refl eq_refl eq_refl
             : trim ((pipe :: r ++ [pipe]) ++ [LF]) = pipe :: r ++ [pipe]).
    rewrite <- Hr.
    apply split_join; [done|]. subst lines.
    apply Forall_cons in Hlf as [Hlfh Hlfrows].
    apply Forall_cons. split.
    { by apply includes_line_text. }
    apply Forall_cons. split.
    { apply includes_line_text; [done|done|]. apply Forall_map.
      by apply Forall_forall. }
    apply Forall_map. eapply Forall_impl; [exact Hlfrows|].
    cbv beta. intros row Hrow. by apply includes_line_text. }
  (* read back *)
  unfold markdownToTable. fold (raw_lines (tableToMarkdown (grid_of (h :: rows)))).
  rewrite Hlines. subst lines. cbn [length Nat.ltb Nat.leb].
  apply Forall_cons in Hpipe as [[_ Hph] Hprows].
  rewrite scan_lines_step_row by done.
  rewrite scan_lines_step_separator.
  rewrite scan_lines_rows by done. reflexivity.
Qed.

Lemma roundtrip_plain_cells_witness :
  markdownToTable
    (tableToMarkdown (grid_of [[js "A"; js " B "]; [js "1"; js ""]]))
  = Some [[js "A"; js "B"]; [js "1"; js ""]].
Proof.
  apply (roundtrip_plain_cells [[js "A"; js " B "]; [js "1"; js ""]]).
  - simpl. split; [lia|]. repeat constructor.
  - repeat constructor.
Defined.

Example roundtrip_splits_a_pipe :
  markdownToTable (tableToMarkdown (grid_of pipe_table)) = Some [[js "a"; js "b"]].
Proof. vm_compute. reflexivity. Qed.

(** * Further properties *)

(** ** Fields between two handlers *)

Lemma parseMarkdown_mode (e : Editor) :
  isDragMode (parseMarkdown e) = isDragMode e.
Proof.
  unfold parseMarkdown.
  destruct (is_empty (trim (markdownInput e))); [done|].
  by destruct (markdownToTable (markdownInput e)).
Qed.

Lemma dispatch_settled (ev : event) (e : Editor) :
  settled e → settled (state_after (dispatch ev e)).
Proof.
  intros (Hg & He & Hkeep).
  split; [by apply dispatch_guard_free|].
  split; [by apply dispatch_exclusive|].
  assert (Hclear : ∀ m : bool, (m = true → @None nat = None ∧ @None nat = None)
                               ∧ @None nat ≠ Some O) by done.
  clear Hg He. destruct ev; cbn [dispatch state_after].
  - destruct (parseMarkdown_fields (with_input text e)) as (-> & -> & _).
    by rewrite parseMarkdown_mode.
  - apply Hclear.
  - exact Hkeep.
  - destruct e as [inp [th tb] sr sc m dr g]. unfold addRow, headerRow. cbn in *.
    repeat case_match; exact Hkeep.
  - destruct e as [inp [th tb] sr sc m dr g]. unfold addColumn. cbn in *.
    repeat case_match; exact Hkeep.
  - destruct e as [inp [th tb] sr sc m dr g]. unfold deleteRow. cbn in *.
    repeat case_match; first [exact Hkeep | apply Hclear].
  - destruct e as [inp [th tb] sr sc m dr g]. unfold deleteColumn. cbn in *.
    repeat case_match; first [exact Hkeep | apply Hclear].
  - apply Hclear.
  - destruct e as [inp [th tb] sr sc m dr g]. unfold handleClick. cbn in *.
    destruct m; [exact Hkeep|].
    destruct tg as [r c|c| |]; cbn.
    + split; [done|]. intros [=]. lia.
    + by destruct tb.
    + exact Hkeep.
    + done.
  - unfold handleDragStart. repeat case_match; exact Hkeep.
  - exact Hkeep.
  - exact Hkeep.
  - destruct e as [inp [th tb] sr sc m dr g].
    rewrite handleDrop_eq. cbn in *.
    repeat case_match; exact Hkeep.
Qed.

(** X1: from the state the constructor leaves, over any page and text and
    after any sequence of gestures, the drop guard is free, at most one of
    [selectedRow] and [selectedColumn] is set, nothing is selected while in
    drag mode, and [selectedRow] is never 0 (it counts the header as row
    0, and the header cannot be selected as a row). *)
Theorem reachable_settled (evs : list event) (d : Dom) (text : str) :
  settled (run evs (initial d text)).
Proof.
  assert (H : ∀ e, settled e → settled (run evs e)).
  { induction evs as [|ev evs IH]; intros e He; [done|].
    unfold run. simpl. apply IH. by apply dispatch_settled. }
  apply H. repeat split; try done. by left.
Qed.

(** ** Exchanging two columns *)

Lemma swap_cells_eq (s t : nat) (cells : list str) (j : nat) :
  swap_cells s t cells !! j
  = if decide ((s < length cells)%nat ∧ (t < length cells)%nat)
    then if decide (j = t) then option_map reparsed (cells !! s)
         else if decide (j = s) then option_map reparsed (cells !! t)
         else cells !! j
    else cells !! j.
Proof.
  destruct (decide ((s < length cells)%nat ∧ (t < length cells)%nat)) as [[Hs Ht]|Hn].
  - by apply swap_cells_lookup.
  - rewrite swap_cells_out; [done|].
    destruct (cells !! s) eqn:E1; [|by left].
    destruct (cells !! t) eqn:E2; [|by right].
    apply lookup_lt_Some in E1, E2. tauto.
Qed.

Lemma swap_cells_symmetric (s t : nat) (cells : list str) :
  swap_cells s t cells = swap_cells t s cells.
Proof.
  apply list_eq. intros j. rewrite !swap_cells_eq.
  repeat case_decide; try done; try tauto; by subst.
Qed.

Lemma option_map_reparsed_idempotent (x : option str) :
  option_map reparsed (option_map reparsed x) = option_map reparsed x.
Proof. destruct x; [|done]. cbn. by rewrite reparsed_idempotent. Qed.

(** A third exchange is a first one: the second has given the texts back,
    read by the parser. *)
Lemma swap_cells_thrice (s t : nat) (cells : list str) :
  swap_cells s t (swap_cells s t (swap_cells s t cells))
  = swap_cells s t cells.
Proof.
  apply list_eq. intros j.
  rewrite (swap_cells_eq s t (swap_cells s t (swap_cells s t cells))).
  rewrite !swap_cells_length.
  rewrite !(swap_cells_eq s t (swap_cells s t cells)).
  rewrite !swap_cells_length. rewrite !swap_cells_eq.
  repeat case_decide; try done; try tauto; subst;
    by rewrite ?option_map_reparsed_idempotent.
Qed.

Lemma option_map_reparsed_stable (cells : list str) (j : nat) :
  Forall html_stable cells → option_map reparsed (cells !! j) = cells !! j.
Proof.
  intros H. destruct (cells !! j) as [c|] eqn:Hj; [|done]. cbn.
  rewrite reparsed_stable; [done|]. by apply (Forall_lookup_1 _ _ _ _ H Hj).
Qed.

(** On texts that pass through [innerHTML] unchanged a second exchange
    undoes the first. *)
Lemma swap_cells_involutive (s t : nat) (cells : list str) :
  Forall html_stable cells →
  swap_cells s t (swap_cells s t cells) = cells.
Proof.
  intros Hst. apply list_eq. intros j.
  rewrite swap_cells_eq, swap_cells_length, !swap_cells_eq.
  repeat case_decide; try done; try tauto; subst;
    by rewrite ?option_map_reparsed_idempotent, ?option_map_reparsed_stable.
Qed.



Lemma swap_columns_symmetric (s t : nat) (d : Dom) :
  swap_columns s t d = swap_columns t s d.
Proof.
  rewrite !swap_columns_eq. destruct d as [th tb]. simpl. f_equal.
  - destruct th as [[h|]|]; simpl; [|done|done].
    by rewrite swap_cells_symmetric.
  - destruct tb as [b|]; simpl; [|done]. f_equal.
    apply map_ext. intros row. apply swap_cells_symmetric.
Qed.

Lemma swap_columns_thrice (s t : nat) (d : Dom) :
  swap_columns s t (swap_columns s t (swap_columns s t d))
  = swap_columns s t d.
Proof.
  rewrite !swap_columns_eq. destruct d as [th tb]. simpl. f_equal.
  - destruct th as [[h|]|]; simpl; [|done|done].
    by rewrite swap_cells_thrice.
  - destruct tb as [b|]; simpl; [|done]. f_equal.
    rewrite !map_map. apply map_ext. intros row. apply swap_cells_thrice.
Qed.

Lemma swap_columns_involutive (s t : nat) (d : Dom) :
  Forall (Forall html_stable) (table_rows d) →
  swap_columns s t (swap_columns s t d) = d.
Proof.
  rewrite !swap_columns_eq. destruct d as [th tb].
  unfold table_rows, headerRow. simpl. intros Hst. f_equal.
  - destruct th as [[h|]|]; simpl; [|done|done].
    rewrite swap_cells_involutive; [done|].
    apply Forall_app in Hst as [Hh _]. by inversion Hh.
  - destruct tb as [b|]; simpl; [|done]. f_equal.
    apply Forall_app in Hst as [_ Hb].
    rewrite map_map. rewrite <- (map_id b) at 2.
    apply map_ext_Forall. eapply Forall_impl; [exact Hb|].
    intros row Hrow. by apply swap_cells_involutive.
Qed.

(** ** A whole drag *)

Lemma run_app (evs1 evs2 : list event) (e : Editor) :
  run (evs1 ++ evs2) e = run evs2 (run evs1 e).
Proof. unfold run. apply fold_left_app. Qed.

Lemma drag_gesture_state (e : Editor) (s t : nat) :
  isDragMode e = true →
  swapInProgress e = false →
  run (drag_gesture s t) e
  = if decide (t = s) then with_dragged None e
    else with_dragged None
           (updateMarkdown
              (with_table (swap_columns s t (editableTable e)) e)).
Proof.
  intros Hm Hg. unfold run, drag_gesture. cbn [fold_left dispatch state_after].
  assert (H1 : handleDragStart true s e = with_dragged (Some s) e).
  { unfold handleDragStart. by rewrite Hm. }
  rewrite H1. case_decide as Hts.
  - subst t. unfold handleDrop, handleDrop_with. cbn.
    rewrite Hm, Hg, Nat.eqb_refl. cbn. reflexivity.
  - rewrite (handleDrop_swaps _ s t) by done.
    clear H1. destruct e. cbn in *. subst. reflexivity.
Qed.







Lemma drag_gesture_table (e : Editor) (s t : nat) :
  isDragMode e = true →
  swapInProgress e = false →
  editableTable (run (drag_gesture s t) e)
  = (if decide (t = s) then editableTable e
     else swap_columns s t (editableTable e))
  ∧ isDragMode (run (drag_gesture s t) e) = true
  ∧ swapInProgress (run (drag_gesture s t) e) = false.
Proof.
  intros Hm Hg. rewrite drag_gesture_state by done.
  by case_decide as Hts.
Qed.

(** X3: in drag mode, dragging [s] onto [t] has the same effect on the
    table as dragging [t] onto [s].  A third drag of the same leaves the table
    the first drag left: the second has given every text back as the HTML
    parser reads it.  When no cell text holds a CR or U+0000, the second
    drag, in the same or in the opposite direction, gives back the very table
    the first drag started from. *)
Theorem drag_is_symmetric_and_undone_by_itself (e : Editor) (s t : nat) :
  isDragMode e = true →
  swapInProgress e = false →
  editableTable (run (drag_gesture s t) e)
  = editableTable (run (drag_gesture t s) e)
  ∧ editableTable
      (run (drag_gesture s t ++ drag_gesture s t ++ drag_gesture s t) e)
    = editableTable (run (drag_gesture s t) e)
  ∧ (Forall (Forall html_stable) (table_rows (editableTable e)) →
     editableTable (run (drag_gesture s t ++ drag_gesture s t) e)
     = editableTable e
     ∧ editableTable (run (drag_gesture s t ++ drag_gesture t s) e)
       = editableTable e).
Proof.
  intros Hm Hg.
  destruct (drag_gesture_table e s t Hm Hg) as (H1 & Hm1 & Hg1).
  destruct (drag_gesture_table e t s Hm Hg) as (H2 & _ & _).
  destruct (drag_gesture_table _ s t Hm1 Hg1) as (H3 & Hm3 & Hg3).
  destruct (drag_gesture_table _ t s Hm1 Hg1) as (H4 & _ & _).
  destruct (drag_gesture_table _ s t Hm3 Hg3) as (H5 & _ & _).
  rewrite !run_app. rewrite H5, H3, H4, H1, H2.
  destruct (decide (t = s)) as [->|Hts].
  - destruct (decide (s = s)); [|done]. by repeat split.
  - destruct (decide (s = t)); [congruence|].
    split; [apply swap_columns_symmetric|].
    split; [apply swap_columns_thrice|].
    intros Hst. split; [by apply swap_columns_involutive|].
    rewrite (swap_columns_symmetric t s). by apply swap_columns_involutive.
Qed.

Lemma drag_is_symmetric_and_undone_by_itself_witness :
  editableTable (run (drag_gesture 0 2 ++ drag_gesture 2 0) ragged_editor)
  = editableTable ragged_editor.
Proof.
  apply (drag_is_symmetric_and_undone_by_itself ragged_editor 0 2);
    [reflexivity | reflexivity |].
  repeat constructor.
Defined.

(** ** Drag events outside drag mode *)

Lemma drag_event_in_edit_mode (ev : event) (e : Editor) :
  drag_event ev = true → isDragMode e = false →
  ∃ src, state_after (dispatch ev e) = with_dragged src e.
Proof.
  intros Hev Hm. destruct ev; try discriminate Hev; cbn [dispatch state_after].
  - exists (draggedSrcColIndex e). unfold handleDragStart. rewrite Hm.
    by destruct e.
  - exists (draggedSrcColIndex e). by destruct e.
  - by exists None.
  - exists (draggedSrcColIndex e). unfold handleDrop, handleDrop_with.
    rewrite Hm. by destruct e.
Qed.

(** X4: outside drag mode, no sequence of drag events (drag start, drag
    over, drop, drag end, on any header, in any order) changes the table, the
    text, the selection, the mode or the guard: the editor is as before up to
    the recorded source index, which a drag end clears. *)
Theorem drag_events_inert_in_edit_mode (evs : list event) (e : Editor) :
  forallb drag_event evs = true →
  isDragMode e = false →
  ∃ src, run evs e = with_dragged src e.
Proof.
  revert e. induction evs as [|ev evs IH]; intros e Hevs Hm.
  - exists (draggedSrcColIndex e). by destruct e.
  - simpl in Hevs. apply andb_prop in Hevs as [Hev Hevs].
    destruct (drag_event_in_edit_mode ev e Hev Hm) as [src Hsrc].
    unfold run. simpl. rewrite Hsrc.
    destruct (IH (with_dragged src e) Hevs Hm) as [src' Hsrc'].
    exists src'. unfold run in Hsrc'. rewrite Hsrc'. by destruct e.
Qed.

Lemma drag_events_inert_in_edit_mode_witness :
  ∃ src,
    run [DragStart true 0; DragOver; Drop 1; DragEnd] stale_editor
    = with_dragged src stale_editor.
Proof.
  apply (drag_events_inert_in_edit_mode
           [DragStart true 0; DragOver; Drop 1; DragEnd] stale_editor);
    reflexivity.
Defined.

(** ** Adding, then deleting *)






(** With no header cell there is nothing to give back: the column added
    stays, since one column is the floor. *)
Example addColumn_then_deleteColumn_on_empty_header :
  headerRow (editableTable (state_after (deleteColumn (state_after (addColumn
     (initial (mkDom (Some (Some [])) (Some [])) []))))))
  = Some [js "Header 1"].
Proof. reflexivity. Qed.

(** ** Text and grid *)






(** The sample table is the exception by one character: the text put in the
    textarea has no final line feed, the text of the grid has one. *)
Example createNewTable_text :
  tableToMarkdown (editableTable (createNewTable stale_editor))
  = markdownInput (createNewTable stale_editor) ++ [LF].
Proof. vm_compute. reflexivity. Qed.

(** ** The column floor over a session *)

Lemma swap_columns_header_length (s t : nat) (d : Dom) :
  header_length (swap_columns s t d) = header_length d.
Proof.
  rewrite swap_columns_eq.
  destruct d as [[[h|]|] tb]; unfold header_length, headerRow; simpl; try done.
  apply swap_cells_length.
Qed.

Lemma deleteRow_thead (e : Editor) :
  thead (editableTable (deleteRow e)) = thead (editableTable e).
Proof. unfold deleteRow. by repeat case_match. Qed.

Lemma dispatch_floor (ev : event) (e : Editor) :
  keeps_text ev = true →
  (1 ≤ header_length (editableTable e))%nat →
  (1 ≤ header_length (editableTable (state_after (dispatch ev e))))%nat.
Proof.
  intros Hev H. destruct ev; try discriminate Hev; cbn [dispatch state_after].
  - rewrite createNewTable_table. unfold header_length. simpl. lia.
  - destruct e as [inp [[[h|]|] tb] sr sc m dr g];
      unfold header_length, headerRow in *; cbn in *; try lia.
    destruct loc as [col|row col]; cbn; [|done].
    by rewrite length_insert.
  - destruct e as [inp [[[h|]|] [b|]] sr sc m dr g];
      unfold addRow, header_length, headerRow in *; cbn in *; lia.
  - destruct e as [inp [[[h|]|] [b|]] sr sc m dr g];
      unfold addColumn, header_length, headerRow in *; cbn in *; try lia.
    rewrite length_app. simpl. lia.
  - unfold header_length, headerRow in *. by rewrite deleteRow_thead.
  - by apply deleteColumn_floor.
  - done.
  - by rewrite handleClick_table.
  - unfold handleDragStart. by repeat case_match.
  - done.
  - done.
  - destruct (handleDrop_table targetIndex e) as [->|[s ->]]; [done|].
    by rewrite swap_columns_header_length.
Qed.

(** X8: once the header has a cell, it has one after any sequence of
    gestures that does not retype the Markdown text: the column count never
    falls to zero, however many times Delete Column is pressed and whatever
    is selected or dragged in between. *)
Theorem column_floor_over_gestures (evs : list event) (e : Editor) :
  forallb keeps_text evs = true →
  (1 ≤ header_length (editableTable e))%nat →
  (1 ≤ header_length (editableTable (run evs e)))%nat.
Proof.
  revert e. induction evs as [|ev evs IH]; intros e Hevs H; [done|].
  simpl in Hevs. apply andb_prop in Hevs as [Hev Hevs].
  unfold run. simpl. apply IH; [done|]. by apply dispatch_floor.
Qed.

Lemma column_floor_over_gestures_witness :
  (1 ≤ header_length (editableTable
         (run [DeleteColumn; DeleteColumn; Click (TH 0); DeleteColumn; DeleteColumn]
              stale_editor)))%nat.
Proof.
  apply column_floor_over_gestures; [reflexivity|]. vm_compute. lia.
Defined.

(** Typing is what can bring a header without a cell: a line that is a
    single pipe yields a row of no cell. *)
Example header_without_cell :
  markdownToTable (js "|" ++ [LF] ++ js "| a |") = Some [[]; [js "a"]].
Proof. vm_compute. reflexivity. Qed.

(** ** Exceptions *)

(** X9: the only handlers that end by an exception are Add Column and
    Delete Column, when the table has both sections but no header row (the
    table [clearTable] leaves), and the click on a header cell when the table
    has no [tbody].  Add Column and Delete Column throw exactly in that case
    and before changing anything. *)
Theorem handlers_that_throw (ev : event) (e : Editor) :
  (threw (addColumn e) = true
   ↔ thead (editableTable e) = Some None ∧ tbody (editableTable e) ≠ None)
  ∧ (threw (deleteColumn e) = true
     ↔ thead (editableTable e) = Some None ∧ tbody (editableTable e) ≠ None)
  ∧ (threw (addColumn e) = true → state_after (addColumn e) = e)
  ∧ (threw (deleteColumn e) = true → state_after (deleteColumn e) = e)
  ∧ (threw (dispatch ev e) = true →
     ((ev = AddColumn ∨ ev = DeleteColumn)
      ∧ thead (editableTable e) = Some None ∧ tbody (editableTable e) ≠ None)
     ∨ (∃ c, ev = Click (TH c)) ∧ tbody (editableTable e) = None
        ∧ isDragMode e = false).
Proof.
  assert (Ha : threw (addColumn e) = true
     ↔ thead (editableTable e) = Some None ∧ tbody (editableTable e) ≠ None).
  { unfold addColumn.
    destruct (thead (editableTable e)) as [[h|]|], (tbody (editableTable e));
      simpl; split; try done; by intros [? ?]. }
  assert (Hd : threw (deleteColumn e) = true
     ↔ thead (editableTable e) = Some None ∧ tbody (editableTable e) ≠ None).
  { unfold deleteColumn.
    destruct (thead (editableTable e)) as [[h|]|], (tbody (editableTable e));
      simpl; repeat case_match; simpl; split; try done; by intros [? ?]. }
  split; [exact Ha|]. split; [exact Hd|]. split; [|split].
  - unfold addColumn. by repeat case_match.
  - unfold deleteColumn. by repeat case_match.
  - destruct ev; cbn [dispatch threw]; try done.
    + intros H. left. split; [by left|]. by apply Ha.
    + intros H. left. split; [by right|]. by apply Hd.
    + unfold handleClick. destruct (isDragMode e); [done|].
      destruct tg as [r c|c| |]; simpl; try done.
      destruct (tbody (editableTable e)); simpl; [done|].
      intros _. right. split; [by exists c|done].
Qed.

Lemma handlers_that_throw_witness :
  state_after (addColumn (clearTable stale_editor)) = clearTable stale_editor.
Proof.
  destruct (handlers_that_throw AddRow (clearTable stale_editor))
    as (_ & _ & H & _).
  apply H. reflexivity.
Defined.

Lemma markdownToTable_not_empty (markdown : str) :
  markdownToTable markdown ≠ Some [].
Proof.
  unfold markdownToTable. repeat case_match; done.
Qed.

Lemma dispatch_rendered (ev : event) (e : Editor) :
  blank_input ev = false →
  rendered (editableTable e) →
  threw (dispatch ev e) = false
  ∧ rendered (editableTable (state_after (dispatch ev e))).
Proof.
  intros Hev (h & b & Hth & Htb).
  destruct ev; cbn [dispatch state_after threw].
  - split; [done|]. unfold parseMarkdown. cbn [markdownInput with_input].
    simpl in Hev. rewrite Hev.
    destruct (markdownToTable text) as [[|r rows]|] eqn:Hp.
    + by apply markdownToTable_not_empty in Hp.
    + by exists r, rows.
    + by exists h, b.
  - split; [done|]. rewrite createNewTable_table. by eexists _, _.
  - split; [done|]. unfold set_cell. destruct loc; simpl; rewrite Hth, Htb;
      by eexists _, _.
  - split; [done|]. unfold addRow, headerRow. rewrite Htb, Hth.
    by eexists _, _.
  - unfold addColumn. rewrite Hth, Htb. split; [done|]. by eexists _, _.
  - split; [done|]. unfold deleteRow. rewrite Htb.
    repeat case_match; simpl; rewrite ?Hth, ?Htb; by eexists _, _.
  - unfold deleteColumn. rewrite Hth, Htb.
    repeat case_match; simpl; (split; [done|]); rewrite ?Hth, ?Htb;
      by eexists _, _.
  - split; [done|]. by exists h, b.
  - split.
    + unfold handleClick. rewrite Htb. by repeat case_match.
    + rewrite handleClick_table. by exists h, b.
  - split; [done|]. unfold handleDragStart. repeat case_match; by exists h, b.
  - split; [done|]. by exists h, b.
  - split; [done|]. by exists h, b.
  - split; [done|].
    destruct (handleDrop_table targetIndex e) as [->|[s ->]]; [by exists h, b|].
    rewrite swap_columns_eq, Hth, Htb. by eexists _, _.
Qed.

(** X10: once the table has its two sections and its header row (as after
    any text that parses, or the sample table), no handler throws and the
    table keeps that shape through any sequence of gestures, typing
    included, until the textarea is blanked. *)
Theorem rendered_table_never_throws (evs : list event) (e : Editor) :
  forallb (λ ev, negb (blank_input ev)) evs = true →
  rendered (editableTable e) →
  some_throw evs e = false ∧ rendered (editableTable (run evs e)).
Proof.
  revert e. induction evs as [|ev evs IH]; intros e Hevs Hr; [done|].
  simpl in Hevs. apply andb_prop in Hevs as [Hev Hevs].
  apply negb_true_iff in Hev.
  destruct (dispatch_rendered ev e Hev Hr) as [Hno Hr'].
  destruct (IH _ Hevs Hr') as [Hno' Hr''].
  split; [|exact Hr'']. simpl. by rewrite Hno, Hno'.
Qed.

Lemma rendered_table_never_throws_witness :
  some_throw [AddColumn; Click (TH 1); DeleteColumn; Input (js "x"); AddColumn]
             stale_editor = false.
Proof.
  apply (rendered_table_never_throws
           [AddColumn; Click (TH 1); DeleteColumn; Input (js "x"); AddColumn]
           stale_editor); [reflexivity|].
  by exists [js "A"; js "B"], [[js "1"; js "2"]].
Defined.

(** After the textarea is blanked the header row is gone and Add Column
    throws. *)
Example blank_then_addColumn_throws :
  some_throw [Input []; AddColumn] stale_editor = true.
Proof. reflexivity. Qed.

(** ** Trimming twice, trimming padded text *)

Lemma trimStart_idempotent (s : str) : trimStart (trimStart s) = trimStart s.
Proof.
  induction s as [|c s IH]; simpl; [done|].
  destruct (is_space c) eqn:Hc; [done|]. simpl. by rewrite Hc.
Qed.

Lemma trimEnd_idempotent (s : str) : trimEnd (trimEnd s) = trimEnd s.
Proof.
  induction s as [|c s IH]; simpl; [done|].
  destruct (trimEnd s) as [|a t] eqn:Ht.
  - destruct (is_space c) eqn:Hc; simpl; [done|]. by rewrite Hc.
  - change (trimEnd (c :: a :: t)) with
      (match trimEnd (a :: t) with
       | [] => if is_space c then [] else [c]
       | t' => c :: t'
       end).
    by rewrite IH.
Qed.

Lemma trim_commute (s : str) : trimEnd (trimStart s) = trimStart (trimEnd s).
Proof.
  induction s as [|c s IH]; simpl; [done|].
  destruct (is_space c) eqn:Hc.
  - rewrite IH. destruct (trimEnd s) as [|a t]; simpl; [done|]. by rewrite Hc.
  - change (trimEnd (c :: s)) with
      (match trimEnd s with
       | [] => if is_space c then [] else [c]
       | t' => c :: t'
       end).
    rewrite Hc. destruct (trimEnd s); simpl; by rewrite Hc.
Qed.

Lemma trim_idempotent (s : str) : trim (trim s) = trim s.
Proof.
  unfold trim.
  by rewrite trim_commute, trimStart_idempotent, trimEnd_idempotent.
Qed.

Lemma trim_padding (w1 w2 s : str) :
  forallb is_space w1 = true → forallb is_space w2 = true →
  trim (w1 ++ s ++ w2) = trim s.
Proof.
  intros H1 H2. unfold trim.
  rewrite app_assoc, trimEnd_app_spaces by done.
  rewrite <- trim_commute, trimStart_spaces by done. apply trim_commute.
Qed.

Lemma includes_trim (c : N) (s : str) :
  includes c s = false → includes c (trim s) = false.
Proof.
  destruct (trim_split s) as (w1 & w2 & Hs & _ & _). intros H.
  rewrite Hs, !includes_app in H.
  apply orb_false_elim in H as [_ H]. by apply orb_false_elim in H as [H _].
Qed.

(** ** Pieces of a split *)

Lemma split_pieces_without_sep (sep : N) (s : str) :
  Forall (λ p : str, includes sep p = false) (split sep s).
Proof.
  induction s as [|a s IH]; simpl; [by repeat constructor|].
  destruct (N.eqb_spec a sep) as [->|Ha]; [by constructor|].
  destruct (split sep s) as [|p ps]; [by repeat constructor; simpl;
    rewrite (proj2 (N.eqb_neq sep a))|].
  apply Forall_cons in IH as [Hp Hps]. constructor; [|done].
  rewrite includes_cons, Hp. by rewrite (proj2 (N.eqb_neq sep a)).
Qed.

Lemma split_pieces_without (c sep : N) (s : str) :
  includes c s = false →
  Forall (λ p : str, includes c p = false) (split sep s).
Proof.
  induction s as [|a s IH]; simpl; [by repeat constructor|].
  intros H. apply orb_false_elim in H as [Ha Hs]. specialize (IH Hs).
  destruct (a =? sep); [by constructor|].
  destruct (split sep s) as [|p ps]; [by repeat constructor; simpl; rewrite Ha|].
  apply Forall_cons in IH as [Hp Hps]. constructor; [|done].
  by rewrite includes_cons, Ha, Hp.
Qed.

Lemma removelast_In {A} (x : A) (l : list A) : In x (removelast l) → In x l.
Proof.
  induction l as [|a l IH]; [done|]. destruct l as [|b l]; [done|].
  change (removelast (a :: b :: l)) with (a :: removelast (b :: l)).
  intros [->|H]; [by left|]. right. by apply IH.
Qed.

Lemma line_cells_In (c : str) (line : str) :
  In c (line_cells line) → ∃ p, In p (split pipe line) ∧ c = trim p.
Proof.
  unfold line_cells. intros H.
  assert (H1 : In c (shift_blank (map trim (split pipe line)))).
  { unfold pop_blank in H.
    destruct (last (shift_blank (map trim (split pipe line)))) as [[|? ?]|];
      [by apply removelast_In|done|done]. }
  assert (H2 : In c (map trim (split pipe line))).
  { unfold shift_blank in H1.
    destruct (map trim (split pipe line)) as [|[|? ?] ?]; [done| |done].
    by right. }
  apply in_map_iff in H2 as (p & <- & Hp). by exists p.
Qed.

(** The cells of a line without a line feed are trimmed and have neither a
    pipe nor a line feed. *)
Lemma line_cells_parsed (line : str) :
  includes LF line = false → Forall parsed_cell (line_cells line).
Proof.
  intros Hlf. apply List.Forall_forall. intros c Hc.
  apply line_cells_In in Hc as (p & Hp & ->).
  split; [apply trim_idempotent|]. split; apply includes_trim.
  - exact (proj1 (List.Forall_forall _ _) (split_pieces_without_sep pipe line) p Hp).
  - exact (proj1 (List.Forall_forall _ _) (split_pieces_without LF pipe line Hlf) p Hp).
Qed.

Lemma parsed_table_clean (markdown : str) (t : list (list str)) :
  markdownToTable markdown = Some t →
  t ≠ [] ∧ Forall (Forall parsed_cell) t.
Proof.
  intros Hp. split.
  { intros ->. by apply markdownToTable_not_empty in Hp. }
  rewrite markdownToTable_surviving in Hp.
  assert (Ht : t = map row_of (surviving_from 0 (raw_lines markdown))).
  { destruct (length (raw_lines markdown) <? 2)%nat; [done|].
    destruct (map row_of (surviving_from 0 (raw_lines markdown))); [done|].
    by inversion Hp. }
  subst t. apply Forall_map. apply Forall_forall. intros [i l] Hin.
  apply surviving_from_elem in Hin as (_ & Hl & _).
  unfold row_of. simpl. apply line_cells_parsed. apply includes_trim.
  apply list_elem_of_lookup_2 in Hl.
  exact (proj1 (Forall_forall _ _) (split_pieces_without_sep LF (trim markdown)) l Hl).
Qed.

(** X11: whatever the text, every cell of the table [markdownToTable]
    returns is trimmed and holds neither a pipe nor a line feed, and the
    table has at least its header row. *)
Theorem parsed_cells_are_clean (markdown : str) (t : list (list str)) :
  markdownToTable markdown = Some t →
  t ≠ [] ∧ Forall (Forall parsed_cell) t.
Proof. apply parsed_table_clean. Qed.

Lemma parsed_cells_are_clean_witness :
  Forall (Forall parsed_cell) [[js "A"; js "B"]; [js "1"; js "2"]].
Proof.
  apply (parsed_cells_are_clean
           (js "| A | B |" ++ [LF] ++ js "| --- | --- |" ++ [LF] ++ js "| 1 | 2 |")).
  vm_compute. reflexivity.
Defined.

(** ** Round trip without equal lengths *)

Lemma written_lines (h : list str) (rows : list (list str)) :
  h ≠ [] →
  Forall (λ row : list str, row ≠ []) rows →
  Forall (Forall (λ c : str, includes LF c = false)) (h :: rows) →
  raw_lines (tableToMarkdown (grid_of (h :: rows)))
  = line_text h :: line_text (map (λ _ : str, js "---") h) :: map line_text rows.
Proof.
  intros Hh Hne Hlf.
  set (lines := line_text h :: line_text (map (λ _ : str, js "---") h)
                :: map line_text rows).
  assert (Htext : tableToMarkdown (grid_of (h :: rows)) = join [LF] lines ++ [LF]).
  { rewrite <- concat_terminated_join by done.
    unfold grid_of, renderTable, tableToMarkdown, header_markdown.
    cbn [editableTable with_table thead tbody initial tail].
    destruct (Nat.ltb_spec 0 (length h)) as [_|Hl]; [|destruct h; [done|simpl in Hl; lia]].
    rewrite body_markdown_rows by done.
    subst lines. cbn [map concat].
    rewrite render_line_text, separator_line_text, map_map.
    rewrite (map_ext render_line (λ x : list str, line_text x ++ [LF]))
      by apply render_line_text.
    by rewrite <- !app_assoc. }
  unfold raw_lines. rewrite Htext.
  destruct (join_lines_shape lines) as [r Hr]; [done| |].
  { apply Forall_forall. intros l Hl. subst lines.
    apply elem_of_cons in Hl as [->|Hl]; [rewrite line_text_shape; eauto|].
    apply elem_of_cons in Hl as [->|Hl]; [rewrite line_text_shape; eauto|].
    apply list_elem_of_fmap in Hl as (row & -> & _).
    rewrite line_text_shape; eauto. }
  rewrite Hr.
  rewrite (trim_core [] [LF] r pipe pipe eq_refl eq_refl eq_refl eq_refl
           : trim ((pipe :: r ++ [pipe]) ++ [LF]) = pipe :: r ++ [pipe]).
  rewrite <- Hr.
  apply split_join; [done|]. subst lines.
  apply Forall_cons in Hlf as [Hlfh Hlfrows].
  apply Forall_cons. split.
  { by apply includes_line_text. }
  apply Forall_cons. split.
  { apply includes_line_text; [done|done|]. apply Forall_map.
    by apply Forall_forall. }
  apply Forall_map. eapply Forall_impl; [exact Hlfrows|].
  cbv beta. intros row Hrow. by apply includes_line_text.
Qed.

Lemma roundtrip_rows (h : list str) (rows : list (list str)) :
  h ≠ [] →
  Forall (λ row : list str, row ≠ []) rows →
  Forall (Forall plain) (h :: rows) →
  markdownToTable (tableToMarkdown (grid_of (h :: rows)))
  = Some (map (map trim) (h :: rows)).
Proof.
  intros Hh Hne Hplain.
  assert (Hlf : Forall (Forall (λ c : str, includes LF c = false)) (h :: rows)).
  { eapply Forall_impl; [exact Hplain|]. cbv beta. intros cells Hc.
    eapply Forall_impl; [exact Hc|]. by intros c [_ ?]. }
  assert (Hpipe : Forall (Forall (λ c : str, includes pipe c = false)) (h :: rows)).
  { eapply Forall_impl; [exact Hplain|]. cbv beta. intros cells Hc.
    eapply Forall_impl; [exact Hc|]. by intros c [? _]. }
  unfold markdownToTable.
  fold (raw_lines (tableToMarkdown (grid_of (h :: rows)))).
  rewrite written_lines by done. cbn [length Nat.ltb Nat.leb].
  apply Forall_cons in Hpipe as [Hph Hprows].
  rewrite scan_lines_step_row by done.
  rewrite scan_lines_step_separator.
  rewrite scan_lines_rows; [reflexivity|lia|].
  apply Forall_forall. intros cells Hin. split.
  - by apply (proj1 (Forall_forall _ _) Hne).
  - by apply (proj1 (Forall_forall _ _) Hprows).
Qed.

(** X12: the round trip needs no equal lengths.  For a table whose header
    and rows each have at least one cell, with no pipe and no line feed in
    any cell text, parsing the text written for its grid gives the table
    back with each cell trimmed, rows shorter or longer than the header
    included. *)
Theorem roundtrip_ragged_table (h : list str) (rows : list (list str)) :
  h ≠ [] →
  Forall (λ row : list str, row ≠ []) rows →
  Forall (Forall plain) (h :: rows) →
  markdownToTable (tableToMarkdown (grid_of (h :: rows)))
  = Some (map (map trim) (h :: rows)).
Proof. apply roundtrip_rows. Qed.

Lemma roundtrip_ragged_table_witness :
  markdownToTable
    (tableToMarkdown (grid_of [[js "A"; js "B"]; [js " x "]; [js "1"; js "2"; js "3"]]))
  = Some [[js "A"; js "B"]; [js "x"]; [js "1"; js "2"; js "3"]].
Proof.
  apply (roundtrip_ragged_table [js "A"; js "B"]
           [[js " x "]; [js "1"; js "2"; js "3"]]).
  - done.
  - by repeat constructor.
  - repeat constructor.
Defined.

(** A row without a cell is not written, so it does not come back. *)
Example empty_row_is_lost :
  markdownToTable (tableToMarkdown (grid_of [[js "A"]; []; [js "1"]]))
  = Some [[js "A"]; [js "1"]].
Proof. vm_compute. reflexivity. Qed.

Lemma map_trim_parsed (t : list (list str)) :
  Forall (Forall parsed_cell) t → map (map trim) t = t.
Proof.
  intros H. rewrite <- (map_id t) at 2. apply map_ext_Forall.
  eapply Forall_impl; [exact H|]. cbv beta. intros row Hrow.
  rewrite <- (map_id row) at 2. apply map_ext_Forall.
  eapply Forall_impl; [exact Hrow|]. by intros c [? _].
Qed.

(** X13: a parsed table is a fixed point of the round trip.  When
    [markdownToTable] returns a table in which every row has a cell, writing
    that table out and parsing the text again returns the very same table:
    what the grid shows after typing is what it shows after the text has been
    rewritten from the grid and read once more. *)
Theorem parse_write_parse (markdown : str) (t : list (list str)) :
  markdownToTable markdown = Some t →
  Forall (λ row : list str, row ≠ []) t →
  markdownToTable (tableToMarkdown (grid_of t)) = Some t.
Proof.
  intros Hp Hne. destruct (parsed_table_clean markdown t Hp) as [Ht Hclean].
  destruct t as [|h rows]; [done|].
  apply Forall_cons in Hne as [Hh Hrows].
  rewrite roundtrip_rows; [by rewrite map_trim_parsed|done|done|].
  eapply Forall_impl; [exact Hclean|]. cbv beta. intros row Hrow.
  eapply Forall_impl; [exact Hrow|]. by intros c [_ ?].
Qed.

Lemma parse_write_parse_witness :
  markdownToTable
    (tableToMarkdown (grid_of [[js "A"; js "B"]; [js "x"]]))
  = Some [[js "A"; js "B"]; [js "x"]].
Proof.
  apply (parse_write_parse
           (js " |A|B" ++ [LF] ++ js "|:-:|--|" ++ [LF] ++ js "x|  ")).
  - vm_compute. reflexivity.
  - by repeat constructor.
Defined.

(** ** White space around the text, and texts of one line *)

(** X14: white space around the text does not count.  Typing a text with
    blanks and blank lines put before and after it leaves the same grid as
    typing the text itself, and [markdownToTable] returns the same table for
    both. *)
Theorem padding_is_ignored (w1 w2 text : str) (e : Editor) :
  forallb is_space w1 = true →
  forallb is_space w2 = true →
  markdownToTable (w1 ++ text ++ w2) = markdownToTable text
  ∧ editableTable (state_after (dispatch (Input (w1 ++ text ++ w2)) e))
    = editableTable (state_after (dispatch (Input text) e)).
Proof.
  intros H1 H2.
  assert (Hm : markdownToTable (w1 ++ text ++ w2) = markdownToTable text).
  { unfold markdownToTable. by rewrite trim_padding. }
  split; [exact Hm|]. cbn [dispatch state_after]. unfold parseMarkdown.
  cbn [markdownInput with_input]. rewrite trim_padding, Hm by done.
  destruct (is_empty (trim text)); [done|].
  by destruct (markdownToTable text).
Qed.

Lemma padding_is_ignored_witness :
  markdownToTable ([LF; space] ++ (js "| A |" ++ [LF] ++ js "| 1 |") ++ [LF; LF])
  = markdownToTable (js "| A |" ++ [LF] ++ js "| 1 |").
Proof.
  apply (padding_is_ignored [LF; space] [LF; LF]
           (js "| A |" ++ [LF] ++ js "| 1 |") stale_editor); reflexivity.
Defined.

(** X15: a text that is one line once trimmed is never a table:
    [markdownToTable] returns null, and typing it, when it is not blank,
    leaves the grid as it was. *)
Theorem one_line_is_no_table (text : str) (e : Editor) :
  includes LF (trim text) = false →
  markdownToTable text = None
  ∧ (is_empty (trim text) = false →
     editableTable (state_after (dispatch (Input text) e)) = editableTable e).
Proof.
  intros H.
  assert (Hm : markdownToTable text = None).
  { unfold markdownToTable. by rewrite split_without_sep. }
  split; [exact Hm|]. intros Hb. cbn [dispatch state_after].
  unfold parseMarkdown. cbn [markdownInput with_input]. by rewrite Hb, Hm.
Qed.

Lemma one_line_is_no_table_witness :
  markdownToTable (js "| A | B |" ++ [LF]) = None.
Proof.
  apply (one_line_is_no_table (js "| A | B |" ++ [LF]) stale_editor).
  reflexivity.
Defined.

(** ** Selecting a column, then deleting it *)




(** ** What the delete handlers leave *)

(** [row'] is [row] with at most one cell taken out. *)
Lemma removelast_sublist {A} (l : list A) :
  removelast l `sublist_of` l ∧ (length l ≤ S (length (removelast l)))%nat.
Proof.
  split.
  - rewrite removelast_firstn_len. apply sublist_take.
  - rewrite removelast_length. lia.
Qed.

Lemma delete_out_of_range {A} (i : nat) (l : list A) :
  (length l ≤ i)%nat → delete i l = l.
Proof.
  revert i. induction l as [|a l IH]; intros i Hi; [by destruct i|].
  destruct i as [|i]; simpl in *; [lia|]. f_equal. apply IH. lia.
Qed.

Lemma delete_sublist {A} (i : nat) (l : list A) :
  delete i l `sublist_of` l ∧ (length l ≤ S (length (delete i l)))%nat.
Proof.
  split; [apply sublist_delete|].
  destruct (decide (i < length l)%nat) as [Hi|Hi].
  - rewrite delete_length by done. lia.
  - rewrite delete_out_of_range; lia.
Qed.

Lemma Forall2_map_self {A} (P : A → A → Prop) (f : A → A) (l : list A) :
  (∀ x, P (f x) x) → Forall2 P (map f l) l.
Proof. intros H. induction l; simpl; constructor; auto. Qed.

Lemma Forall2_self {A} (P : A → A → Prop) (l : list A) :
  (∀ x, P x x) → Forall2 P l l.
Proof. intros H. induction l; constructor; auto. Qed.

Lemma deleteRow_body (e : Editor) :
  bodyRows (editableTable (deleteRow e)) = bodyRows (editableTable e)
  ∨ bodyRows (editableTable (deleteRow e)) = removelast (bodyRows (editableTable e))
  ∨ ∃ k, bodyRows (editableTable (deleteRow e)) = delete k (bodyRows (editableTable e)).
Proof.
  destruct e as [inp [th [b|]] sr sc m dr g]; unfold deleteRow, bodyRows; cbn;
    [|by left].
  assert (Hlast : ∀ e1 e2 : Editor,
            bodyRows (editableTable e1) = removelast b →
            bodyRows (editableTable e2) = b →
            bodyRows (editableTable (if (0 <? length b)%nat then e1 else e2)) = b
            ∨ bodyRows (editableTable (if (0 <? length b)%nat then e1 else e2))
              = removelast b
            ∨ ∃ k, bodyRows (editableTable (if (0 <? length b)%nat then e1 else e2))
                   = delete k b).
  { intros e1 e2 H1 H2. destruct (0 <? length b)%nat; [right; by left|by left]. }
  unfold bodyRows in Hlast.
  destruct sr as [[|k]|], m; cbn; try (by apply Hlast); try (by left).
  destruct (b !! k); cbn; [|by left]. right. right. by exists k.
Qed.

Lemma deleteColumn_rows (e : Editor) :
  table_rows (editableTable (state_after (deleteColumn e)))
  = table_rows (editableTable e)
  ∨ (∃ h b, table_rows (editableTable e) = h :: b
            ∧ table_rows (editableTable (state_after (deleteColumn e)))
              = removelast h :: map remove_last_cell b)
  ∨ (∃ sel h b, table_rows (editableTable e) = h :: b
                ∧ table_rows (editableTable (state_after (deleteColumn e)))
                  = delete sel h :: map (remove_cell_at sel) b).
Proof.
  destruct e as [inp [[[h|]|] [b|]] sr sc m dr g];
    unfold deleteColumn, table_rows, headerRow; cbn;
    try (by left); try (destruct sc, m; by left).
  destruct sc as [sel|], m; cbn;
    destruct (length h <=? 1)%nat; cbn; try (by left);
    try (right; left; by exists h, b).
  destruct (h !! sel); cbn; [|by left].
  right. right. by exists sel, h, b.
Qed.

(** X17: the delete handlers only delete.  Delete Row never touches the
    header, leaves the body rows it keeps in their order and unchanged, and
    takes out at most one; with no body row it returns the editor as it is.
    Delete Column keeps every row of the table in place and takes at most one
    cell out of each, the others staying in their order. *)
Theorem delete_handlers_only_delete (e : Editor) :
  let d := editableTable e in
  let dr := editableTable (deleteRow e) in
  let dc := editableTable (state_after (deleteColumn e)) in
  thead dr = thead d
  ∧ bodyRows dr `sublist_of` bodyRows d
  ∧ (length (bodyRows d) ≤ S (length (bodyRows dr)))%nat
  ∧ (bodyRows d = [] → deleteRow e = e)
  ∧ Forall2 (λ row' row : list str,
               row' `sublist_of` row ∧ (length row ≤ S (length row'))%nat)
            (table_rows dc) (table_rows d).
Proof.
  cbv zeta. split; [apply deleteRow_thead|].
  assert (Hrow : bodyRows (editableTable (deleteRow e)) `sublist_of`
                   bodyRows (editableTable e)
                 ∧ (length (bodyRows (editableTable e))
                    ≤ S (length (bodyRows (editableTable (deleteRow e)))))%nat).
  { destruct (deleteRow_body e) as [->|[->|[k ->]]].
    - split; [done|lia].
    - apply removelast_sublist.
    - apply delete_sublist. }
  split; [apply Hrow|]. split; [apply Hrow|]. split.
  - destruct e as [inp [th [b|]] sr sc m dr g]; unfold deleteRow, bodyRows; cbn;
      [|done].
    intros ->. by destruct sr as [[|k]|], m.
  - destruct (deleteColumn_rows e)
      as [->|[(h & b & -> & ->)|(sel & h & b & -> & ->)]].
    + apply Forall2_self. intros row. split; [done|lia].
    + constructor; [apply removelast_sublist|].
      apply Forall2_map_self. intros row. unfold remove_last_cell.
      destruct (0 <? length row)%nat; [apply removelast_sublist|].
      split; [done|lia].
    + constructor; [apply delete_sublist|].
      apply Forall2_map_self. intros row. unfold remove_cell_at.
      destruct (row !! sel); [apply delete_sublist|].
      split; [done|lia].
Qed.

Lemma delete_handlers_only_delete_witness :
  deleteRow (with_table (mkDom (Some (Some [js "A"])) (Some [])) stale_editor)
  = with_table (mkDom (Some (Some [js "A"])) (Some [])) stale_editor.
Proof.
  destruct (delete_handlers_only_delete
              (with_table (mkDom (Some (Some [js "A"])) (Some [])) stale_editor))
    as (_ & _ & _ & H & _).
  apply H. reflexivity.
Defined.

(** ** The text written *)

Lemma body_markdown_filter (markdown : str) (rows : list (list str)) :
  body_markdown markdown rows
  = markdown ++ concat (map render_line (List.filter has_cells rows)).
Proof.
  unfold body_markdown. revert markdown.
  induction rows as [|row rows IH]; intros markdown; simpl.
  - by rewrite app_nil_r.
  - rewrite IH. unfold has_cells. destruct row as [|c row]; simpl; [done|].
    by rewrite <- app_assoc.
Qed.

Lemma tableToMarkdown_rows (d : Dom) :
  tableToMarkdown d = concat (map render_line (output_rows d)).
Proof.
  destruct d as [th tb].
  unfold tableToMarkdown, output_rows, header_markdown, bodyRows, has_cells.
  cbn [thead tbody].
  assert (Hsep : ∀ cells : list str,
            separator_line cells = render_line (map (λ _ : str, js "---") cells))
    by done.
  destruct th as [[cells|]|], tb as [b|]; rewrite ?body_markdown_filter;
    try destruct (0 <? length cells)%nat; cbn [app map concat List.filter];
    rewrite ?Hsep, ?app_nil_r; try reflexivity.
  by rewrite <- app_assoc.
Qed.

Lemma render_line_shape (cells : list str) :
  render_line cells
  = pipe :: (space :: join (js " | ") cells ++ [space]) ++ [pipe; LF].
Proof.
  rewrite render_line_text, line_text_shape. simpl. by rewrite <- !app_assoc.
Qed.

Lemma concat_lines_shape (rows : list (list str)) :
  rows ≠ [] →
  ∃ r, concat (map render_line rows) = pipe :: r ++ [pipe; LF].
Proof.
  induction rows as [|cells rows IH]; [done|]. intros _.
  destruct rows as [|cells' rows].
  - cbn [map concat]. rewrite app_nil_r, render_line_shape. eauto.
  - destruct IH as [r Hr]; [done|].
    change (concat (map render_line (cells :: cells' :: rows)))
      with (render_line cells ++ concat (map render_line (cells' :: rows))).
    rewrite Hr, render_line_shape.
    exists ((space :: join (js " | ") cells ++ [space]) ++ [pipe; LF] ++ pipe :: r).
    simpl. by rewrite <- !app_assoc.
Qed.

(** X18: the text [tableToMarkdown] writes (what Export copies and what
    the textarea receives) is one line per row that has a cell, with the
    separator after the header, the separator having one [---] per header
    cell.  It is empty exactly when the header has no cell and no body row
    has one; otherwise it begins with a pipe and ends with a pipe and a line
    feed. *)
Theorem written_text_shape (d : Dom) :
  tableToMarkdown d = concat (map render_line (output_rows d))
  ∧ (tableToMarkdown d = []
     ↔ header_length d = O ∧ Forall (λ row : list str, row = []) (bodyRows d))
  ∧ (tableToMarkdown d ≠ [] →
     ∃ r, tableToMarkdown d = pipe :: r ++ [pipe; LF]).
Proof.
  split; [apply tableToMarkdown_rows|].
  assert (Hout : output_rows d = []
            ↔ header_length d = O ∧ Forall (λ row : list str, row = []) (bodyRows d)).
  { unfold output_rows, header_length, headerRow, has_cells.
    assert (Hf : ∀ b : list (list str),
              List.filter (λ row : list str, (0 <? length row)%nat) b = []
              ↔ Forall (λ row : list str, row = []) b).
    { induction b as [|row b IH]; simpl; [split; [constructor|done]|].
      destruct row as [|c row]; simpl.
      - rewrite IH. split; [by constructor|]. by intros [_ ?]%Forall_cons.
      - split; [done|]. by intros [? _]%Forall_cons. }
    destruct (thead d) as [[[|c cells]|]|]; simpl; rewrite ?Hf;
      split; try (by intros [? ?]); try done; try (by intros ?; split). }
  rewrite tableToMarkdown_rows. split.
  - rewrite <- Hout. split; [|by intros ->].
    destruct (output_rows d) as [|cells rows]; [done|].
    cbn [map concat]. by rewrite render_line_shape.
  - intros Hne. apply concat_lines_shape. intros H. apply Hne. by rewrite H.
Qed.

Lemma written_text_shape_witness :
  ∃ r, tableToMarkdown (editableTable ragged_editor) = pipe :: r ++ [pipe; LF].
Proof.
  destruct (written_text_shape (editableTable ragged_editor)) as (_ & _ & H).
  apply H. vm_compute. discriminate.
Defined.

(** * The page with its attributes and controls *)

(** ** What the first model keeps of each handler *)

#[local] Arguments js _ : simpl never.
#[local] Arguments decimal _ : simpl never.
#[local] Arguments tableToMarkdown _ : simpl never.
#[local] Arguments View.tableToMarkdown _ : simpl never.

Lemma map_removelast {A B} (f : A → B) (l : list A) :
  map f (removelast l) = removelast (map f l).
Proof.
  induction l as [|a l IH]; [done|]. destruct l as [|b l]; [done|].
  change (removelast (a :: b :: l)) with (a :: removelast (b :: l)).
  change (map f (a :: removelast (b :: l)))
    with (f a :: map f (removelast (b :: l))).
  by rewrite IH.
Qed.

Lemma texts_map (f : View.Cell → View.Cell) (cells : list View.Cell) :
  (∀ c, View.textContent (f c) = View.textContent c) →
  map View.textContent (map f cells) = map View.textContent cells.
Proof. intros Hf. rewrite map_map. by apply map_ext. Qed.

Lemma erase_map_headers (f : View.Cell → View.Cell) (t : View.Table) :
  (∀ c, View.textContent (f c) = View.textContent c) →
  View.erase_table (View.map_headers f t) = View.erase_table t.
Proof.
  intros Hf. destruct t as [[[h|]|] tb]; unfold View.erase_table; simpl; try done.
  by rewrite texts_map.
Qed.

Lemma erase_map_body (f : View.Cell → View.Cell) (t : View.Table) :
  (∀ c, View.textContent (f c) = View.textContent c) →
  View.erase_table (View.map_body f t) = View.erase_table t.
Proof.
  intros Hf. destruct t as [th [b|]]; unfold View.erase_table; simpl; try done.
  do 2 f_equal. rewrite map_map. apply map_ext. intros row.
  by apply texts_map.
Qed.

Lemma erase_map_cells (f : View.Cell → View.Cell) (t : View.Table) :
  (∀ c, View.textContent (f c) = View.textContent c) →
  View.erase_table (View.map_cells f t) = View.erase_table t.
Proof.
  intros Hf. unfold View.map_cells.
  by rewrite erase_map_body, erase_map_headers.
Qed.

Lemma erase_applyModeSettings (p : View.Page) :
  View.erase (View.applyModeSettings p) = View.erase p.
Proof.
  unfold View.applyModeSettings, View.erase. cbn.
  by rewrite erase_map_cells.
Qed.

Lemma erase_updateUI (p : View.Page) :
  View.erase (View.updateUI p) = View.erase p.
Proof. reflexivity. Qed.

Lemma erase_clearSelections (p : View.Page) :
  View.erase (View.clearSelections p) = clearSelections (View.erase p).
Proof. reflexivity. Qed.

Lemma erase_updateMarkdown (p : View.Page) :
  View.erase (View.updateMarkdown p) = updateMarkdown (View.erase p).
Proof. reflexivity. Qed.

Lemma erase_renderTable (rows : list (list str)) (p : View.Page) :
  View.erase (View.renderTable rows p) = renderTable rows (View.erase p).
Proof.
  unfold View.renderTable. rewrite erase_applyModeSettings.
  unfold View.erase, renderTable, with_table, View.erase_table. cbn.
  f_equal. f_equal.
  - destruct rows as [|r rows]; [done|]. cbn. do 2 f_equal.
    rewrite map_map. cbn. apply map_id.
  - f_equal. rewrite map_map. rewrite <- (map_id (tail rows)) at 2.
    apply map_ext. intros row. rewrite map_map. cbn. apply map_id.
Qed.

Lemma erase_parseMarkdown (p : View.Page) :
  View.erase (View.parseMarkdown p) = parseMarkdown (View.erase p).
Proof.
  unfold View.parseMarkdown, parseMarkdown. cbn [View.erase markdownInput].
  destruct (is_empty (trim (View.markdownInput p))); [done|].
  destruct (markdownToTable (View.markdownInput p)); [|done].
  apply erase_renderTable.
Qed.

Lemma erase_createNewTable (p : View.Page) :
  View.erase (View.createNewTable p) = createNewTable (View.erase p).
Proof.
  unfold View.createNewTable, createNewTable.
  by rewrite erase_applyModeSettings, erase_clearSelections, erase_parseMarkdown.
Qed.

Lemma erase_addRow (p : View.Page) :
  View.erase (View.addRow p) = addRow (View.erase p).
Proof.
  destruct p as [inp [[[h|]|] [b|]] sr sc m dr g ctl];
    unfold View.addRow, addRow, View.headerRow, headerRow; cbn; try done.
  rewrite erase_updateMarkdown, erase_applyModeSettings.
  unfold View.erase, View.erase_table, updateMarkdown, with_table, with_input. cbn.
  rewrite map_app, length_map. cbn. by rewrite fmap_replicate.
Qed.

Lemma erase_addColumn (p : View.Page) :
  View.erase (View.state_after (View.addColumn p))
  = state_after (addColumn (View.erase p))
  ∧ View.threw (View.addColumn p) = threw (addColumn (View.erase p)).
Proof.
  destruct p as [inp [[[h|]|] [b|]] sr sc m dr g ctl];
    unfold View.addColumn, addColumn; cbn; try done.
  split; [|done].
  rewrite erase_updateMarkdown, erase_applyModeSettings.
  unfold View.erase, View.erase_table, updateMarkdown, with_table, with_input. cbn.
  rewrite !map_app, length_map, !map_map. cbn.
  by rewrite (map_ext (λ x : list View.Cell,
                         map View.textContent (x ++ [View.createCell []]))
                      (λ x : list View.Cell, map View.textContent x ++ [[]]))
    by (intros row; by rewrite map_app).
Qed.

Lemma erase_deleteRow (p : View.Page) :
  View.erase (View.deleteRow p) = deleteRow (View.erase p).
Proof.
  destruct p as [inp [th [b|]] sr sc m dr g ctl];
    unfold View.deleteRow, deleteRow; cbn; [|done].
  assert (Hlast :
    View.erase
      (if (0 <? length b)%nat
       then View.updateMarkdown
              (View.with_table (View.mkTable th (Some (removelast b)))
                 (View.mkPage inp (View.mkTable th (Some b)) sr sc m dr g ctl))
       else View.mkPage inp (View.mkTable th (Some b)) sr sc m dr g ctl)
    = (if (0 <? length (map (map View.textContent) b))%nat
       then updateMarkdown
              (with_table
                 (mkDom (option_map (option_map (map View.textContent)) th)
                        (Some (removelast (map (map View.textContent) b))))
                 (View.erase
                    (View.mkPage inp (View.mkTable th (Some b)) sr sc m dr g ctl)))
       else View.erase
              (View.mkPage inp (View.mkTable th (Some b)) sr sc m dr g ctl))).
  { rewrite length_map. destruct (0 <? length b)%nat; [|done].
    rewrite erase_updateMarkdown. unfold View.erase, View.erase_table. cbn.
    by rewrite map_removelast. }
  destruct sr as [[|k]|], m; try exact Hlast; try done.
  rewrite list_lookup_fmap. destruct (b !! k); cbn; [|done].
  rewrite erase_updateMarkdown, erase_clearSelections.
  unfold View.erase, View.erase_table. cbn.
  by rewrite <- list_fmap_delete.
Qed.

Lemma texts_remove_cell_at (sel : nat) (cells : list View.Cell) :
  map View.textContent (View.remove_cell_at sel cells)
  = remove_cell_at sel (map View.textContent cells).
Proof.
  unfold View.remove_cell_at, remove_cell_at. rewrite list_lookup_fmap.
  destruct (cells !! sel); cbn; [|done]. apply list_fmap_delete.
Qed.

Lemma texts_remove_last_cell (cells : list View.Cell) :
  map View.textContent (View.remove_last_cell cells)
  = remove_last_cell (map View.textContent cells).
Proof.
  unfold View.remove_last_cell, remove_last_cell. rewrite length_map.
  destruct (0 <? length cells)%nat; [|done]. apply map_removelast.
Qed.

Lemma erase_deleteColumn (p : View.Page) :
  View.erase (View.state_after (View.deleteColumn p))
  = state_after (deleteColumn (View.erase p))
  ∧ View.threw (View.deleteColumn p) = threw (deleteColumn (View.erase p)).
Proof.
  destruct p as [inp [[[h|]|] [b|]] sr sc m dr g ctl];
    unfold View.deleteColumn, deleteColumn; cbn; try done;
    try (by destruct sc, m).
  assert (Hlast :
    ∀ p0 : View.Page,
      View.erase_table (View.editableTable p0) = View.erase_table (View.mkTable (Some (Some h)) (Some b)) →
      View.erase
        (View.updateMarkdown
           (View.with_table
              (View.mkTable (Some (Some (removelast h)))
                            (Some (map View.remove_last_cell b))) p0))
      = updateMarkdown
          (with_table
             (mkDom (Some (Some (removelast (map View.textContent h))))
                    (Some (map remove_last_cell (map (map View.textContent) b))))
             (View.erase p0))).
  { intros p0 _. rewrite erase_updateMarkdown.
    unfold View.erase, View.erase_table, updateMarkdown, with_table, with_input.
    cbn. rewrite map_removelast, !map_map.
    by rewrite (map_ext _ _ texts_remove_last_cell). }
  rewrite length_map.
  destruct sc as [sel|], m; cbn;
    destruct (length h <=? 1)%nat; cbn; try done;
    try (split; [|done]; by apply Hlast).
  rewrite list_lookup_fmap. destruct (h !! sel); cbn; [|done].
  split; [|done].
  rewrite erase_updateMarkdown, erase_clearSelections.
  unfold View.erase, View.erase_table, updateMarkdown, with_table, with_input.
  cbn. rewrite <- list_fmap_delete, !map_map.
  by rewrite (map_ext _ _ (texts_remove_cell_at sel)).
Qed.

Lemma erase_toggleMode (p : View.Page) :
  View.erase (View.toggleMode p) = toggleMode (View.erase p).
Proof.
  unfold View.toggleMode, toggleMode. cbv zeta. rewrite erase_updateUI.
  destruct p as [inp t sr sc m dr g ctl]. unfold View.erase. cbn.
  f_equal. destruct m; cbn.
  - rewrite erase_map_body, erase_map_headers; done.
  - rewrite erase_map_cells, erase_map_headers; done.
Qed.

Lemma erase_handleClick (tg : target) (p : View.Page) :
  View.erase (View.state_after (View.handleClick tg p))
  = state_after (handleClick tg (View.erase p))
  ∧ View.threw (View.handleClick tg p) = threw (handleClick tg (View.erase p)).
Proof.
  destruct p as [inp [th [b|]] sr sc m dr g ctl];
    unfold View.handleClick, handleClick; cbn;
    destruct m; try done; destruct tg; done.
Qed.

Lemma erase_handleDragStart (index : nat) (p : View.Page) :
  View.erase (View.handleDragStart index p)
  = handleDragStart (View.header_draggable (View.editableTable p) index) index
                    (View.erase p).
Proof.
  unfold View.handleDragStart, handleDragStart. cbn [View.erase isDragMode].
  destruct (View.isDragMode p); cbn; [|done].
  by destruct (View.header_draggable (View.editableTable p) index).
Qed.

Lemma texts_swap_cells (s t : nat) (cells : list View.Cell) :
  map View.textContent (View.swap_cells s t cells)
  = swap_cells s t (map View.textContent cells).
Proof.
  unfold View.swap_cells.
  destruct (cells !! s) as [src|] eqn:Hs.
  2: { rewrite swap_cells_out; [done|]. left. by rewrite list_lookup_fmap, Hs. }
  destruct (cells !! t) as [tgt|] eqn:Ht.
  2: { rewrite swap_cells_out; [done|]. right. by rewrite list_lookup_fmap, Ht. }
  rewrite (swap_cells_in _ _ _ (View.textContent src) (View.textContent tgt))
    by (by rewrite list_lookup_fmap, ?Hs, ?Ht).
  cbv zeta.
  destruct (<[s:=View.set_text (reparsed (View.textContent tgt)) src]> cells !! t)
    as [tgt1|] eqn:Ht1.
  - change (map View.textContent) with (fmap (M := list) View.textContent).
    by rewrite !list_fmap_insert.
  - apply lookup_ge_None in Ht1. rewrite length_insert in Ht1.
    apply lookup_lt_Some in Ht. lia.
Qed.

Lemma erase_swap_columns (s t : nat) (tb : View.Table) :
  View.erase_table (View.swap_columns s t tb)
  = swap_columns s t (View.erase_table tb).
Proof.
  rewrite swap_columns_eq.
  destruct tb as [[[h|]|] [b|]];
    unfold View.erase_table, View.swap_columns; cbn;
    rewrite ?texts_swap_cells, ?map_map; try done;
    by rewrite (map_ext _ _ (texts_swap_cells s t)).
Qed.

Lemma erase_handleDrop (t : nat) (p : View.Page) :
  View.erase (View.handleDrop t p) = handleDrop t (View.erase p).
Proof.
  rewrite handleDrop_eq. unfold View.handleDrop.
  cbn [View.erase isDragMode swapInProgress draggedSrcColIndex].
  destruct (View.isDragMode p); cbn; [|done].
  destruct (View.swapInProgress p); [done|].
  destruct (View.draggedSrcColIndex p) as [s|]; [|done].
  destruct (t =? s)%nat; [done|].
  unfold View.erase, View.updateMarkdown, updateMarkdown, with_table, with_input,
    with_dragged, with_swapInProgress, View.tableToMarkdown. cbn.
  by rewrite erase_swap_columns.
Qed.

Lemma erase_set_cell (loc : location) (text : str) (t : View.Table) :
  View.erase_table (View.set_cell loc text t)
  = set_cell loc text (View.erase_table t).
Proof.
  destruct loc as [col|row col], t as [[[h|]|] [b|]];
    unfold View.erase_table, View.set_cell, set_cell; cbn; try done.
  - destruct (h !! col) eqn:Hc.
    + by rewrite list_fmap_insert.
    + rewrite list_insert_ge; [done|].
      rewrite length_map. by apply lookup_ge_None.
  - destruct (h !! col) eqn:Hc.
    + by rewrite list_fmap_insert.
    + rewrite list_insert_ge; [done|].
      rewrite length_map. by apply lookup_ge_None.
  - rewrite list_lookup_fmap. destruct (b !! row) as [cells|] eqn:Hr; cbn; [|done].
    destruct (cells !! col) eqn:Hc.
    + by rewrite !list_fmap_insert.
    + rewrite (list_insert_ge (map View.textContent cells));
        [|rewrite length_map; by apply lookup_ge_None].
      rewrite list_insert_id; [done|]. by rewrite list_lookup_fmap, Hr.
  - rewrite list_lookup_fmap. destruct (b !! row) as [cells|] eqn:Hr; cbn; [|done].
    destruct (cells !! col) eqn:Hc.
    + by rewrite !list_fmap_insert.
    + rewrite (list_insert_ge (map View.textContent cells));
        [|rewrite length_map; by apply lookup_ge_None].
      rewrite list_insert_id; [done|]. by rewrite list_lookup_fmap, Hr.
  - rewrite list_lookup_fmap. destruct (b !! row) as [cells|] eqn:Hr; cbn; [|done].
    destruct (cells !! col) eqn:Hc.
    + by rewrite !list_fmap_insert.
    + rewrite (list_insert_ge (map View.textContent cells));
        [|rewrite length_map; by apply lookup_ge_None].
      rewrite list_insert_id; [done|]. by rewrite list_lookup_fmap, Hr.
Qed.

Lemma erase_dispatch (ev : View.event) (p : View.Page) :
  View.erase (View.state_after (View.dispatch ev p))
  = state_after (dispatch (plain_event (View.editableTable p) ev) (View.erase p))
  ∧ View.threw (View.dispatch ev p)
    = threw (dispatch (plain_event (View.editableTable p) ev) (View.erase p)).
Proof.
  destruct ev; cbn [View.dispatch dispatch plain_event View.state_after
                    state_after View.threw threw].
  - split; [|done]. by rewrite erase_parseMarkdown.
  - split; [|done]. apply erase_createNewTable.
  - split; [|done]. rewrite erase_updateMarkdown.
    unfold View.erase. cbn. by rewrite erase_set_cell.
  - split; [|done]. apply erase_addRow.
  - apply erase_addColumn.
  - split; [|done]. apply erase_deleteRow.
  - apply erase_deleteColumn.
  - split; [|done]. apply erase_toggleMode.
  - apply erase_handleClick.
  - split; [|done]. apply erase_handleDragStart.
  - done.
  - done.
  - split; [|done]. apply erase_handleDrop.
Qed.

(** X19: the attributes and the controls never come back into the rest.
    For every gesture on the page, the texts of the table, the textarea
    and the five fields after the handler are those the handler of the first
    model gives from the texts, the textarea and the fields before, and one
    throws exactly when the other does.  The only thing the handlers read
    of the attributes is [draggable] of the header a drag starts on. *)
Theorem view_layer_is_read_only (evs : list View.event) (ev : View.event) (p : View.Page) :
  View.erase (View.state_after (View.dispatch ev p))
  = state_after (dispatch (plain_event (View.editableTable p) ev) (View.erase p))
  ∧ View.threw (View.dispatch ev p)
    = threw (dispatch (plain_event (View.editableTable p) ev) (View.erase p))
  ∧ ∃ evs' : list event,
      length evs' = length evs ∧ View.erase (View.run evs p) = run evs' (View.erase p).
Proof.
  split; [apply erase_dispatch|]. split; [apply erase_dispatch|].
  revert p. induction evs as [|ev' evs IH]; intros p.
  - by exists [].
  - destruct (IH (View.state_after (View.dispatch ev' p))) as (evs' & Hlen & Hrun).
    exists (plain_event (View.editableTable p) ev' :: evs'). split.
    + simpl. by rewrite Hlen.
    + unfold View.run, run in *. simpl. rewrite Hrun.
      by rewrite (proj1 (erase_dispatch ev' p)).
Qed.

(** ** The controls *)

Lemma updateUI_controls_fields (p q : View.Page) :
  View.isDragMode p = View.isDragMode q →
  View.selectedRow p = View.selectedRow q →
  View.selectedColumn p = View.selectedColumn q →
  View.controls (View.updateUI p) = View.controls (View.updateUI q).
Proof. intros H1 H2 H3. unfold View.updateUI. cbn. by rewrite H1, H2, H3. Qed.

Lemma updateUI_current (p : View.Page) :
  View.controls_current (View.updateUI p).
Proof. unfold View.controls_current. by apply updateUI_controls_fields. Qed.

(** A handler that leaves mode, selection and controls alone. *)
Lemma controls_current_kept (p q : View.Page) :
  View.isDragMode q = View.isDragMode p →
  View.selectedRow q = View.selectedRow p →
  View.selectedColumn q = View.selectedColumn p →
  View.controls q = View.controls p →
  View.controls_current p → View.controls_current q.
Proof.
  unfold View.controls_current. intros H1 H2 H3 H4 H. rewrite H4, H.
  by apply updateUI_controls_fields.
Qed.

Lemma parseMarkdown_page_fields (p : View.Page) :
  View.isDragMode (View.parseMarkdown p) = View.isDragMode p
  ∧ View.selectedRow (View.parseMarkdown p) = View.selectedRow p
  ∧ View.selectedColumn (View.parseMarkdown p) = View.selectedColumn p
  ∧ View.controls (View.parseMarkdown p) = View.controls p.
Proof.
  unfold View.parseMarkdown.
  destruct (is_empty (trim (View.markdownInput p))); [done|].
  by destruct (markdownToTable (View.markdownInput p)).
Qed.

Lemma dispatch_tbody (ev : View.event) (p : View.Page) :
  View.tbody (View.editableTable p) ≠ None →
  View.tbody (View.editableTable (View.state_after (View.dispatch ev p))) ≠ None.
Proof.
  intros Hb.
  destruct p as [inp [th [b|]] sr sc m dr g ctl]; [clear Hb|done].
  destruct ev; cbn [View.dispatch View.state_after].
  - unfold View.parseMarkdown. cbn. repeat case_match; done.
  - unfold View.createNewTable, View.parseMarkdown. cbn. repeat case_match; done.
  - destruct loc; cbn; done.
  - unfold View.addRow. cbn. repeat case_match; done.
  - unfold View.addColumn. cbn. repeat case_match; done.
  - unfold View.deleteRow. cbn. repeat case_match; done.
  - unfold View.deleteColumn. cbn. repeat case_match; done.
  - unfold View.toggleMode. cbn. by destruct m.
  - unfold View.handleClick. cbn. repeat case_match; done.
  - unfold View.handleDragStart. cbn. repeat case_match; done.
  - done.
  - done.
  - unfold View.handleDrop. cbn. repeat case_match; done.
Qed.

Lemma dispatch_controls_current (ev : View.event) (p : View.Page) :
  View.tbody (View.editableTable p) ≠ None →
  View.controls_current p →
  View.controls_current (View.state_after (View.dispatch ev p)).
Proof.
  intros Hb Hc.
  assert (Hclose : ∀ q : View.Page,
            (View.isDragMode q = View.isDragMode p
             ∧ View.selectedRow q = View.selectedRow p
             ∧ View.selectedColumn q = View.selectedColumn p
             ∧ View.controls q = View.controls p)
            ∨ (∃ x, View.isDragMode q = View.isDragMode (View.updateUI x)
                    ∧ View.selectedRow q = View.selectedRow (View.updateUI x)
                    ∧ View.selectedColumn q = View.selectedColumn (View.updateUI x)
                    ∧ View.controls q = View.controls (View.updateUI x)) →
            View.controls_current q).
  { intros q [(H1 & H2 & H3 & H4)|(x & H1 & H2 & H3 & H4)].
    - by apply (controls_current_kept p).
    - by apply (controls_current_kept (View.updateUI x)); [..|apply updateUI_current]. }
  destruct ev; cbn [View.dispatch View.state_after].
  - destruct (parseMarkdown_page_fields (View.with_input text p))
      as (H1 & H2 & H3 & H4).
    apply Hclose. by left.
  - apply Hclose. right. by eexists.
  - apply Hclose. by left.
  - unfold View.addRow. repeat case_match; apply Hclose; by left.
  - unfold View.addColumn. repeat case_match; apply Hclose; by left.
  - unfold View.deleteRow.
    repeat case_match; apply Hclose; first [by left | right; by eexists].
  - unfold View.deleteColumn.
    repeat case_match; apply Hclose; first [by left | right; by eexists].
  - apply updateUI_current.
  - unfold View.handleClick.
    destruct (View.isDragMode p); [done|].
    destruct tg; cbn [View.state_after]; try done; try apply updateUI_current.
    destruct (View.tbody (View.editableTable p)); [|done].
    apply updateUI_current.
  - unfold View.handleDragStart. repeat case_match; apply Hclose; by left.
  - done.
  - apply Hclose. by left.
  - unfold View.handleDrop. repeat case_match; apply Hclose; by left.
Qed.

Lemma erase_run_settled (evs : list View.event) (p : View.Page) :
  settled (View.erase p) → settled (View.erase (View.run evs p)).
Proof.
  revert p. induction evs as [|ev evs IH]; intros p Hs; [done|].
  unfold View.run. simpl. apply IH.
  rewrite (proj1 (erase_dispatch ev p)). by apply dispatch_settled.
Qed.

Lemma run_controls_current (evs : list View.event) (p : View.Page) :
  View.tbody (View.editableTable p) ≠ None →
  View.controls_current p →
  View.controls_current (View.run evs p).
Proof.
  revert p. induction evs as [|ev evs IH]; intros p Hb Hc; [done|].
  unfold View.run. simpl. apply IH.
  - by apply dispatch_tbody.
  - by apply dispatch_controls_current.
Qed.

(** X20: the controls show the state.  On a page whose table has its
    [tbody], from the state [init] leaves and after any sequence of gestures,
    the mode button, the mode indicator, the status line and the two delete
    buttons are what [updateUI] would write now.  So in drag mode both
    delete buttons are enabled; in selection mode Delete Row is enabled
    exactly when a row is selected, Delete Column exactly when a column is,
    and never both: the delete-last fallback of the two handlers is not
    behind an enabled button in selection mode. *)
Theorem controls_show_the_state (evs : list View.event) (t : View.Table) (text : str) :
  View.tbody t ≠ None →
  let p := View.run evs (View.initial t text) in
  View.controls p = View.controls (View.updateUI p)
  ∧ (View.isDragMode p = true →
     View.deleteRowDisabled (View.controls p) = false
     ∧ View.deleteColumnDisabled (View.controls p) = false)
  ∧ (View.isDragMode p = false →
     (View.deleteRowDisabled (View.controls p) = false
      ↔ View.selectedRow p ≠ None)
     ∧ (View.deleteColumnDisabled (View.controls p) = false
        ↔ View.selectedColumn p ≠ None)
     ∧ ¬ (View.deleteRowDisabled (View.controls p) = false
          ∧ View.deleteColumnDisabled (View.controls p) = false)).
Proof.
  intros Hb p.
  assert (Hc : View.controls_current p).
  { apply run_controls_current; [done|]. apply updateUI_current. }
  assert (Hs : settled (View.erase p)).
  { apply erase_run_settled. repeat split; try done. by left. }
  split; [exact Hc|]. unfold View.controls_current in Hc. rewrite Hc.
  destruct Hs as (_ & Hex & _). unfold exclusive in Hex.
  destruct p as [inp tb sr sc m dr g ctl]. cbn in *. clear Hc.
  split.
  - intros ->. done.
  - intros ->. destruct sr, sc; cbn; destruct Hex as [?|?]; try done;
      repeat split; try done; by intros [? ?].
Qed.

Lemma controls_show_the_state_witness :
  View.deleteRowDisabled
    (View.controls
       (View.run [View.CreateTable; View.Click (TD 1 0)]
                 (View.initial (View.mkTable (Some None) (Some [])) [])))
  = false.
Proof.
  destruct (controls_show_the_state [View.CreateTable; View.Click (TD 1 0)]
              (View.mkTable (Some None) (Some [])) [])
    as (_ & _ & H); [done|].
  destruct (H eq_refl) as ((_ & H1) & _). apply H1. discriminate.
Defined.

Example status_line_after_click :
  View.selectionStatus
    (View.controls
       (View.run [View.CreateTable; View.Click (TD 1 0)]
                 (View.initial (View.mkTable (Some None) (Some [])) [])))
  = js "Row 2 selected".
Proof. vm_compute. reflexivity. Qed.

(** ** The attributes *)

(** The attributes of a table fit a mode. *)
Lemma attributes_fit_unfold (p : View.Page) :
  View.attributes_fit p
  ↔ (if View.isDragMode p then
       Forall (λ c, View.contenteditable c = false)
              (View.header_cells (View.editableTable p))
       ∧ Forall (λ c, View.contenteditable c = false)
                (View.body_cells (View.editableTable p))
     else
       Forall (λ c, View.contenteditable c = true)
              (View.body_cells (View.editableTable p))
       ∧ Forall (λ c, View.draggable c = false)
                (View.header_cells (View.editableTable p))).
Proof.
  unfold View.attributes_fit. destruct (View.isDragMode p); [|done].
  apply Forall_app.
Qed.

Lemma header_cells_map_headers (f : View.Cell → View.Cell) (t : View.Table) :
  View.header_cells (View.map_headers f t) = map f (View.header_cells t).
Proof. by destruct t as [[[h|]|] tb]. Qed.

Lemma body_cells_map_headers (f : View.Cell → View.Cell) (t : View.Table) :
  View.body_cells (View.map_headers f t) = View.body_cells t.
Proof. by destruct t as [th [b|]]. Qed.

Lemma header_cells_map_body (f : View.Cell → View.Cell) (t : View.Table) :
  View.header_cells (View.map_body f t) = View.header_cells t.
Proof. by destruct t as [[[h|]|] tb]. Qed.

Lemma concat_map_map {A B} (f : A → B) (l : list (list A)) :
  concat (map (map f) l) = map f (concat l).
Proof.
  induction l as [|x l IH]; simpl; [done|]. by rewrite map_app, IH.
Qed.

Lemma body_cells_map_body (f : View.Cell → View.Cell) (t : View.Table) :
  View.body_cells (View.map_body f t) = map f (View.body_cells t).
Proof.
  destruct t as [th [b|]]; unfold View.body_cells; simpl; [|done].
  apply concat_map_map.
Qed.

Lemma header_cells_map_cells (f : View.Cell → View.Cell) (t : View.Table) :
  View.header_cells (View.map_cells f t) = map f (View.header_cells t).
Proof.
  unfold View.map_cells.
  by rewrite header_cells_map_body, header_cells_map_headers.
Qed.

Lemma body_cells_map_cells (f : View.Cell → View.Cell) (t : View.Table) :
  View.body_cells (View.map_cells f t) = map f (View.body_cells t).
Proof.
  unfold View.map_cells.
  by rewrite body_cells_map_body, body_cells_map_headers.
Qed.

Lemma Forall_map_const {A B} (P : B → Prop) (f : A → B) (l : list A) :
  (∀ x, P (f x)) → Forall P (map f l).
Proof. intros H. apply Forall_map. by apply Forall_forall. Qed.

(** [applyModeSettings] makes the attributes fit, once no header is
    draggable outside drag mode. *)
Lemma applyModeSettings_fit (p : View.Page) :
  (View.isDragMode p = false →
   Forall (λ c, View.draggable c = false)
          (View.header_cells (View.editableTable p))) →
  View.attributes_fit (View.applyModeSettings p).
Proof.
  intros Hd. apply attributes_fit_unfold.
  unfold View.applyModeSettings. cbn.
  rewrite header_cells_map_cells, body_cells_map_cells.
  destruct (View.isDragMode p); cbn.
  - split; by apply Forall_map_const.
  - split; [by apply Forall_map_const|].
    apply Forall_map. eapply Forall_impl; [by apply Hd|]. done.
Qed.

Lemma toggleMode_fit (p : View.Page) :
  View.attributes_fit (View.toggleMode p).
Proof.
  apply attributes_fit_unfold. unfold View.toggleMode. cbn.
  destruct (View.isDragMode p); cbn.
  - rewrite body_cells_map_body, header_cells_map_body,
      header_cells_map_headers. split; by apply Forall_map_const.
  - rewrite body_cells_map_cells, header_cells_map_cells. split;
      by apply Forall_map_const.
Qed.

Lemma renderTable_fit (rows : list (list str)) (p : View.Page) :
  View.attributes_fit (View.renderTable rows p).
Proof.
  unfold View.renderTable. apply applyModeSettings_fit. intros _. cbn.
  unfold View.header_cells, View.headerRow. cbn.
  destruct rows as [|r rows]; [done|]. by apply Forall_map_const.
Qed.

Lemma parseMarkdown_fit (p : View.Page) :
  View.attributes_fit p → View.attributes_fit (View.parseMarkdown p).
Proof.
  intros Hf. unfold View.parseMarkdown.
  destruct (is_empty (trim (View.markdownInput p))).
  - apply attributes_fit_unfold. cbn. by destruct (View.isDragMode p).
  - destruct (markdownToTable (View.markdownInput p)); [|done].
    apply renderTable_fit.
Qed.

Lemma fit_not_draggable (p : View.Page) :
  View.attributes_fit p → View.isDragMode p = false →
  Forall (λ c, View.draggable c = false)
         (View.header_cells (View.editableTable p)).
Proof. intros Hf%attributes_fit_unfold Hm. rewrite Hm in Hf. apply Hf. Qed.

(** Taking cells out keeps what holds of all of them. *)
Lemma Forall_removelast {A} (P : A → Prop) (l : list A) :
  Forall P l → Forall P (removelast l).
Proof. intros H. rewrite removelast_firstn_len. by apply Forall_take. Qed.

Lemma Forall_concat_map {A} (P : A → Prop) (f : list A → list A) (l : list (list A)) :
  (∀ x, Forall P x → Forall P (f x)) →
  Forall P (concat l) → Forall P (concat (map f l)).
Proof.
  intros Hf. induction l as [|x l IH]; simpl; [done|].
  rewrite !Forall_app. intros [Hx Hl]. split; [by apply Hf|by apply IH].
Qed.

Lemma Forall_concat_sub {A} (P : A → Prop) (l l' : list (list A)) :
  l' `sublist_of` l → Forall P (concat l) → Forall P (concat l').
Proof.
  intros Hs H. apply Forall_concat. apply Forall_concat in H.
  apply Forall_forall. intros x Hx.
  apply (proj1 (Forall_forall _ _) H). by eapply elem_of_sublist.
Qed.

Lemma swap_cells_attrs (P : View.Cell → Prop) (s t : nat) (cells : list View.Cell) :
  (∀ c text, P c → P (View.set_text text c)) →
  Forall P cells → Forall P (View.swap_cells s t cells).
Proof.
  intros HP H. unfold View.swap_cells.
  destruct (cells !! s) as [src|] eqn:Hs; [|done].
  destruct (cells !! t) as [tgt|] eqn:Ht; [|done].
  assert (H1 : Forall P
            (<[s:=View.set_text (reparsed (View.textContent tgt)) src]> cells)).
  { apply Forall_insert; [done|]. apply HP.
    by apply (Forall_lookup_1 _ _ _ _ H Hs). }
  cbv zeta.
  destruct (<[s:=View.set_text (reparsed (View.textContent tgt)) src]> cells !! t)
    as [tgt1|] eqn:Ht1; [|done].
  apply Forall_insert; [done|]. apply HP.
  by apply (Forall_lookup_1 _ _ _ _ H1 Ht1).
Qed.

Lemma fit_kept (p q : View.Page) :
  View.isDragMode q = View.isDragMode p →
  (∀ P : View.Cell → Prop,
     (∀ c text, P c → P (View.set_text text c)) →
     (Forall P (View.header_cells (View.editableTable p)) →
      Forall P (View.header_cells (View.editableTable q)))
     ∧ (Forall P (View.body_cells (View.editableTable p)) →
        Forall P (View.body_cells (View.editableTable q)))) →
  View.attributes_fit p → View.attributes_fit q.
Proof.
  intros Hm HP Hf. apply attributes_fit_unfold.
  apply attributes_fit_unfold in Hf. rewrite Hm.
  destruct (View.isDragMode p); destruct Hf as [H1 H2]; split;
    first [ by apply (HP (λ c, View.contenteditable c = false))
          | by apply (HP (λ c, View.contenteditable c = true))
          | by apply (HP (λ c, View.draggable c = false)) ].
Qed.

Lemma set_cell_attrs (P : View.Cell → Prop) (loc : location) (text : str)
    (t : View.Table) :
  (∀ c text', P c → P (View.set_text text' c)) →
  (Forall P (View.header_cells t) →
   Forall P (View.header_cells (View.set_cell loc text t)))
  ∧ (Forall P (View.body_cells t) →
     Forall P (View.body_cells (View.set_cell loc text t))).
Proof.
  intros HP.
  destruct loc as [col|row col], t as [[[h|]|] [b|]];
    unfold View.header_cells, View.body_cells, View.headerRow; cbn;
    split; try done.
  - intros H. destruct (h !! col) eqn:Hc; [|done].
    apply Forall_insert; [done|]. apply HP.
    by apply (Forall_lookup_1 _ _ _ _ H Hc).
  - intros H. destruct (h !! col) eqn:Hc; [|done].
    apply Forall_insert; [done|]. apply HP.
    by apply (Forall_lookup_1 _ _ _ _ H Hc).
  - intros H. destruct (b !! row) as [cells|] eqn:Hr; [|done].
    destruct (cells !! col) eqn:Hc; [|done].
    apply Forall_concat. apply Forall_concat in H.
    pose proof (Forall_lookup_1 _ _ _ _ H Hr) as Hcells.
    apply Forall_insert; [done|]. apply Forall_insert; [done|].
    apply HP. by apply (Forall_lookup_1 _ _ _ _ Hcells Hc).
  - intros H. destruct (b !! row) as [cells|] eqn:Hr; [|done].
    destruct (cells !! col) eqn:Hc; [|done].
    apply Forall_concat. apply Forall_concat in H.
    pose proof (Forall_lookup_1 _ _ _ _ H Hr) as Hcells.
    apply Forall_insert; [done|]. apply Forall_insert; [done|].
    apply HP. by apply (Forall_lookup_1 _ _ _ _ Hcells Hc).
  - intros H. destruct (b !! row) as [cells|] eqn:Hr; [|done].
    destruct (cells !! col) eqn:Hc; [|done].
    apply Forall_concat. apply Forall_concat in H.
    pose proof (Forall_lookup_1 _ _ _ _ H Hr) as Hcells.
    apply Forall_insert; [done|]. apply Forall_insert; [done|].
    apply HP. by apply (Forall_lookup_1 _ _ _ _ Hcells Hc).
Qed.

Lemma swap_columns_attrs (P : View.Cell → Prop) (s t : nat) (tb : View.Table) :
  (∀ c text, P c → P (View.set_text text c)) →
  (Forall P (View.header_cells tb) →
   Forall P (View.header_cells (View.swap_columns s t tb)))
  ∧ (Forall P (View.body_cells tb) →
     Forall P (View.body_cells (View.swap_columns s t tb))).
Proof.
  intros HP. destruct tb as [[[h|]|] [b|]];
    unfold View.header_cells, View.body_cells, View.headerRow; cbn;
    split; try done; try (by apply swap_cells_attrs);
    apply Forall_concat_map; intros x; by apply swap_cells_attrs.
Qed.

Lemma page_deleteRow_table (p : View.Page) :
  View.editableTable (View.deleteRow p) = View.editableTable p
  ∨ ∃ b b', View.tbody (View.editableTable p) = Some b
            ∧ b' `sublist_of` b
            ∧ View.editableTable (View.deleteRow p)
              = View.mkTable (View.thead (View.editableTable p)) (Some b').
Proof.
  destruct p as [inp [th [b|]] sr sc m dr g ctl];
    unfold View.deleteRow; cbn; [|by left].
  assert (Hfall :
    ∀ q : View.Page,
      View.editableTable q = View.mkTable th (Some (removelast b)) →
      let r := if (0 <? length b)%nat then q
               else View.mkPage inp (View.mkTable th (Some b)) sr sc m dr g ctl in
      View.editableTable r = View.mkTable th (Some b)
      ∨ ∃ b0 b', Some b = Some b0 ∧ b' `sublist_of` b0
                 ∧ View.editableTable r = View.mkTable th (Some b')).
  { intros q Hq. cbv zeta. destruct (0 <? length b)%nat; [|by left].
    right. exists b, (removelast b). split; [done|]. split; [|done].
    rewrite removelast_firstn_len. apply sublist_take. }
  destruct sr as [[|k]|], m; try (by apply Hfall); try (by left).
  destruct (b !! k); [|by left].
  right. exists b, (delete k b). split; [done|]. split; [|done].
  apply sublist_delete.
Qed.

Lemma deleteRow_attrs (P : View.Cell → Prop) (p : View.Page) :
  (Forall P (View.header_cells (View.editableTable p)) →
   Forall P (View.header_cells (View.editableTable (View.deleteRow p))))
  ∧ (Forall P (View.body_cells (View.editableTable p)) →
     Forall P (View.body_cells (View.editableTable (View.deleteRow p)))).
Proof.
  destruct (page_deleteRow_table p) as [->|(b & b' & Hb & Hsub & ->)]; [done|].
  unfold View.header_cells, View.body_cells, View.headerRow. cbn.
  rewrite Hb. split; [done|]. by apply Forall_concat_sub.
Qed.

Lemma deleteColumn_attrs (P : View.Cell → Prop) (p : View.Page) :
  (Forall P (View.header_cells (View.editableTable p)) →
   Forall P (View.header_cells
               (View.editableTable (View.state_after (View.deleteColumn p)))))
  ∧ (Forall P (View.body_cells (View.editableTable p)) →
     Forall P (View.body_cells
                 (View.editableTable (View.state_after (View.deleteColumn p))))).
Proof.
  destruct p as [inp [[[h|]|] [b|]] sr sc m dr g ctl];
    unfold View.deleteColumn, View.header_cells, View.body_cells, View.headerRow;
    cbn; try done; try (by destruct sc, m).
  assert (Hlast : ∀ x : list View.Cell,
            Forall P x → Forall P (View.remove_last_cell x)).
  { intros x Hx. unfold View.remove_last_cell.
    destruct (0 <? length x)%nat; [by apply Forall_removelast|done]. }
  assert (Hat : ∀ (sel : nat) (x : list View.Cell),
            Forall P x → Forall P (View.remove_cell_at sel x)).
  { intros sel x Hx. unfold View.remove_cell_at.
    destruct (x !! sel); [by apply Forall_delete|done]. }
  destruct sc as [sel|], m; cbn; destruct (length h <=? 1)%nat; cbn; try done;
    try (split; [apply Forall_removelast|by apply Forall_concat_map]).
  destruct (h !! sel); cbn; [|done].
  split; [apply Forall_delete|]. apply Forall_concat_map. apply Hat.
Qed.

Lemma dispatch_fit (ev : View.event) (p : View.Page) :
  View.attributes_fit p →
  View.attributes_fit (View.state_after (View.dispatch ev p)).
Proof.
  intros Hf. destruct ev; cbn [View.dispatch View.state_after].
  - by apply parseMarkdown_fit.
  - unfold View.createNewTable. apply applyModeSettings_fit.
    intros Hm. apply (fit_not_draggable (View.parseMarkdown (View.with_input defaultTable p))).
    + by apply parseMarkdown_fit.
    + exact Hm.
  - apply (fit_kept p); [done| |done]. intros P HP. by apply set_cell_attrs.
  - unfold View.addRow.
    destruct (View.tbody (View.editableTable p)) as [b|] eqn:Hb; [|done].
    destruct (View.headerRow (View.editableTable p)) as [h|] eqn:Hh; [|done].
    apply (fit_kept (View.applyModeSettings
             (View.with_table
                (View.mkTable (View.thead (View.editableTable p))
                              (Some (b ++ [replicate (length h) (View.createCell [])])))
                p))); [done|done|].
    apply applyModeSettings_fit. intros Hm. cbn.
    by apply fit_not_draggable.
  - unfold View.addColumn.
    destruct (View.thead (View.editableTable p)) as [[h|]|] eqn:Hh; try done;
      destruct (View.tbody (View.editableTable p)) as [b|] eqn:Hb; try done.
    cbn [View.state_after].
    apply (fit_kept (View.applyModeSettings
             (View.with_table
                (View.mkTable
                   (Some (Some (h ++ [View.createCell
                                        (js "Header " ++ decimal (length h + 1))])))
                   (Some (map (λ row, row ++ [View.createCell []]) b)))
                p))); [done|done|].
    apply applyModeSettings_fit. intros Hm. cbn.
    unfold View.header_cells, View.headerRow. cbn.
    apply Forall_app. split; [|by repeat constructor].
    pose proof (fit_not_draggable p Hf Hm) as Hd.
    unfold View.header_cells, View.headerRow in Hd. by rewrite Hh in Hd.
  - apply (fit_kept p); [|intros P _; apply deleteRow_attrs|done].
    unfold View.deleteRow. by repeat case_match.
  - apply (fit_kept p); [|intros P _; apply deleteColumn_attrs|done].
    unfold View.deleteColumn. by repeat case_match.
  - apply toggleMode_fit.
  - apply (fit_kept p); [| |done].
    + unfold View.handleClick. by repeat case_match.
    + intros P _. unfold View.handleClick. by repeat case_match.
  - apply (fit_kept p); [| |done].
    + unfold View.handleDragStart. by repeat case_match.
    + intros P _. unfold View.handleDragStart. by repeat case_match.
  - done.
  - by apply (fit_kept p).
  - unfold View.handleDrop.
    destruct (View.isDragMode p) eqn:Hm; cbn; [|done].
    destruct (View.swapInProgress p); [done|].
    destruct (View.draggedSrcColIndex p) as [s|]; [|done].
    destruct (targetIndex =? s)%nat; [done|].
    apply (fit_kept p); [done| |done]. intros P HP. cbn.
    by apply swap_columns_attrs.
Qed.

Lemma parseMarkdown_default (p : View.Page) :
  ∃ rows, View.parseMarkdown (View.with_input defaultTable p)
          = View.renderTable rows (View.with_input defaultTable p).
Proof.
  unfold View.parseMarkdown. cbn [View.markdownInput View.with_input].
  assert (H1 : is_empty (trim defaultTable) = false) by (vm_compute; reflexivity).
  destruct (markdownToTable defaultTable) as [rows|] eqn:H2;
    [|vm_compute in H2; discriminate H2].
  rewrite H1. by exists rows.
Qed.

Lemma createNewTable_fit (p : View.Page) :
  View.attributes_fit (View.createNewTable p).
Proof.
  unfold View.createNewTable. apply applyModeSettings_fit. intros Hm.
  destruct (parseMarkdown_default p) as [rows Hr]. rewrite Hr in *.
  apply (fit_not_draggable (View.renderTable rows (View.with_input defaultTable p)));
    [apply renderTable_fit|exact Hm].
Qed.

(** X21: the attributes fit the mode.  Once they do (as after any text
    that parses, after the sample table, or after any mode toggle, whatever
    the page was before), they do after any sequence of gestures: in drag
    mode no cell of the table has [contenteditable] true; in selection mode
    every body cell has, and no header has the [draggable] attribute. *)
Theorem attributes_fit_the_mode (evs : list View.event) (p : View.Page) :
  View.attributes_fit (View.toggleMode p)
  ∧ View.attributes_fit (View.createNewTable p)
  ∧ (∀ rows, View.attributes_fit (View.renderTable rows p))
  ∧ (View.attributes_fit p → View.attributes_fit (View.run evs p)).
Proof.
  split; [apply toggleMode_fit|]. split; [apply createNewTable_fit|].
  split; [intros rows; apply renderTable_fit|].
  revert p. induction evs as [|ev evs IH]; intros p Hf; [done|].
  unfold View.run. simpl. apply IH. by apply dispatch_fit.
Qed.

Lemma attributes_fit_the_mode_witness :
  View.attributes_fit
    (View.run [View.ToggleMode; View.AddColumn; View.AddRow; View.Drop 1;
               View.ToggleMode; View.Click (TH 0); View.DeleteColumn]
              sample_page).
Proof.
  apply (attributes_fit_the_mode
           [View.ToggleMode; View.AddColumn; View.AddRow; View.Drop 1;
            View.ToggleMode; View.Click (TH 0); View.DeleteColumn]
           sample_page).
  apply createNewTable_fit.
Defined.

(** ** Leaving drag mode *)

(** X22: leaving drag mode does not give the headers back to the
    keyboard.  From selection mode, toggling into drag mode and out again
    leaves every body cell editable and the texts as they were, but every
    header cell with [contenteditable] false; the headers are editable again
    only after the next [applyModeSettings], as Add Row runs on a table with
    its header row. *)
Theorem headers_stay_locked_after_drag_mode (p : View.Page) :
  View.isDragMode p = false →
  let p2 := View.toggleMode (View.toggleMode p) in
  View.isDragMode p2 = false
  ∧ View.erase_table (View.editableTable p2) = View.erase_table (View.editableTable p)
  ∧ Forall (λ c, View.contenteditable c = false)
           (View.header_cells (View.editableTable p2))
  ∧ Forall (λ c, View.contenteditable c = true)
           (View.body_cells (View.editableTable p2))
  ∧ (View.headerRow (View.editableTable p) ≠ None →
     View.tbody (View.editableTable p) ≠ None →
     Forall (λ c, View.contenteditable c = true)
            (View.header_cells (View.editableTable (View.addRow p2)))).
Proof.
  intros Hm. destruct p as [inp t sr sc m dr g ctl]. cbn in Hm. subst m.
  cbv zeta. unfold View.toggleMode. cbn.
  split; [done|]. split.
  { rewrite erase_map_body, erase_map_headers, erase_map_cells,
      erase_map_headers; done. }
  rewrite header_cells_map_body, body_cells_map_body, !header_cells_map_headers,
    body_cells_map_headers, header_cells_map_cells, body_cells_map_cells,
    header_cells_map_headers.
  split; [|split].
  - rewrite !map_map. by apply Forall_map_const.
  - by apply Forall_map_const.
  - intros Hh Hb. destruct t as [[[h|]|] [b|]]; try done.
    unfold View.addRow, View.headerRow. cbn.
    unfold View.header_cells, View.headerRow. cbn.
    by apply Forall_map_const.
Qed.

Lemma headers_stay_locked_after_drag_mode_witness :
  Forall (λ c, View.contenteditable c = false)
         (View.header_cells
            (View.editableTable (View.toggleMode (View.toggleMode sample_page)))).
Proof.
  apply (headers_stay_locked_after_drag_mode sample_page). reflexivity.
Defined.

(** ** Headers made while in drag mode *)

Lemma no_draggable_header_no_drag (p : View.Page) :
  Forall (λ c, View.draggable c = false)
         (View.header_cells (View.editableTable p)) →
  ∀ index, View.handleDragStart index p = p.
Proof.
  intros H index. unfold View.handleDragStart, View.header_draggable.
  destruct (View.isDragMode p); cbn; [|done].
  unfold View.header_cells in H.
  destruct (View.headerRow (View.editableTable p)) as [cells|]; [|done].
  destruct (cells !! index) as [th|] eqn:Hth; [|done].
  by rewrite (Forall_lookup_1 _ _ _ _ H Hth).
Qed.

(** X23: a table typed while in drag mode cannot be dragged.  In drag
    mode, after a text that parses is typed (or the sample table is asked
    for), no header of the new table has the [draggable] attribute, so a drag
    start on any header records no source and every drop is then without
    effect on the table; it takes leaving drag mode and entering it again for
    every header to be draggable. *)
Theorem typed_table_is_not_draggable
    (p : View.Page) (text : str) (rows : list (list str)) (index target : nat) :
  View.isDragMode p = true →
  View.draggedSrcColIndex p = None →
  is_empty (trim text) = false →
  markdownToTable text = Some rows →
  let p' := View.state_after (View.dispatch (View.Input text) p) in
  View.handleDragStart index p' = p'
  ∧ View.run [View.DragStart index; View.Drop target; View.DragEnd] p' = p'
  ∧ View.handleDragStart index (View.createNewTable p) = View.createNewTable p
  ∧ Forall (λ c, View.draggable c = true)
           (View.header_cells
              (View.editableTable (View.toggleMode (View.toggleMode p')))).
Proof.
  intros Hm Hsrc Hb Hp. cbv zeta. cbn [View.dispatch View.state_after].
  assert (Hparse : View.parseMarkdown (View.with_input text p)
                   = View.renderTable rows (View.with_input text p)).
  { unfold View.parseMarkdown. cbn [View.markdownInput View.with_input].
    by rewrite Hb, Hp. }
  rewrite Hparse.
  assert (Hnone : ∀ (rows0 : list (list str)) (q : View.Page),
            Forall (λ c, View.draggable c = false)
                   (View.header_cells (View.editableTable (View.renderTable rows0 q)))).
  { intros rows0 q. unfold View.renderTable, View.applyModeSettings. cbn.
    rewrite header_cells_map_cells. unfold View.header_cells, View.headerRow. cbn.
    destruct rows0 as [|r rows0]; [done|]. cbn.
    rewrite map_map. by apply Forall_map_const. }
  split; [by apply no_draggable_header_no_drag|]. split; [|split].
  - unfold View.run. cbn [fold_left View.dispatch View.state_after].
    rewrite no_draggable_header_no_drag by done.
    unfold View.handleDrop, View.handleDragEnd, View.renderTable,
      View.applyModeSettings. cbn. rewrite Hm, Hsrc. cbn.
    destruct (View.swapInProgress p); by destruct p; cbn in *; subst.
  - apply no_draggable_header_no_drag. unfold View.createNewTable.
    destruct (parseMarkdown_default p) as [rows0 Hr]. rewrite Hr.
    unfold View.applyModeSettings, View.clearSelections. cbn.
    rewrite header_cells_map_cells. apply Forall_map.
    eapply Forall_impl; [apply (Hnone rows0 (View.with_input defaultTable p))|].
    done.
  - unfold View.toggleMode, View.renderTable, View.applyModeSettings. cbn.
    rewrite Hm. cbn.
    rewrite header_cells_map_cells, !header_cells_map_headers,
      header_cells_map_body, header_cells_map_headers.
    rewrite !map_map. by apply Forall_map_const.
Qed.

Lemma typed_table_is_not_draggable_witness :
  View.handleDragStart 0
    (View.state_after
       (View.dispatch (View.Input (js "| A |" ++ [LF] ++ js "| b |"))
                      (View.toggleMode sample_page)))
  = View.state_after
      (View.dispatch (View.Input (js "| A |" ++ [LF] ++ js "| b |"))
                     (View.toggleMode sample_page)).
Proof.
  apply (typed_table_is_not_draggable (View.toggleMode sample_page)
           (js "| A |" ++ [LF] ++ js "| b |") [[js "A"]; [js "b"]] 0 0);
    vm_compute; reflexivity.
Defined.

(** X24: a column added while in drag mode cannot be dragged.  In drag
    mode, on a table with its header row, Add Column appends a header
    without the [draggable] attribute: a drag start on it records no source,
    while the headers that were there keep the attribute they had. *)
Theorem added_column_is_not_draggable
    (p : View.Page) (h : list View.Cell) (b : list (list View.Cell)) :
  View.isDragMode p = true →
  View.thead (View.editableTable p) = Some (Some h) →
  View.tbody (View.editableTable p) = Some b →
  let p' := View.state_after (View.addColumn p) in
  View.header_draggable (View.editableTable p') (length h) = false
  ∧ View.handleDragStart (length h) p' = p'
  ∧ (∀ index, (index < length h)%nat →
       View.header_draggable (View.editableTable p') index
       = View.header_draggable (View.editableTable p) index)
  ∧ length (View.header_cells (View.editableTable p')) = S (length h).
Proof.
  intros Hm Hth Htb. destruct p as [inp [th tb] sr sc m dr g ctl].
  cbn in *. subst. cbv zeta. unfold View.addColumn. cbn.
  assert (Hnew : View.header_draggable
            (View.map_cells (View.set_contenteditable false)
               (View.mkTable
                  (Some (Some (h ++ [View.createCell
                                       (js "Header " ++ decimal (length h + 1))])))
                  (Some (map (λ row, row ++ [View.createCell []]) b))))
            (length h) = false).
  { unfold View.header_draggable, View.headerRow. cbn.
    rewrite list_lookup_fmap, lookup_app_r, Nat.sub_diag by lia. done. }
  split; [exact Hnew|]. split; [|split].
  - unfold View.handleDragStart. cbn.
    unfold View.header_draggable, View.headerRow in Hnew. cbn in Hnew.
    by rewrite Hnew.
  - intros index Hi. unfold View.header_draggable, View.headerRow. cbn.
    rewrite list_lookup_fmap, lookup_app_l by done.
    by destruct (h !! index).
  - unfold View.header_cells, View.headerRow. cbn.
    rewrite length_map, length_app. simpl. lia.
Qed.

Lemma added_column_is_not_draggable_witness :
  View.header_draggable
    (View.editableTable
       (View.state_after (View.addColumn (View.toggleMode sample_page))))
    3 = false.
Proof.
  destruct (added_column_is_not_draggable (View.toggleMode sample_page)
           (map (λ text, View.mkCell text false true)
                [js "Header 1"; js "Header 2"; js "Header 3"])
           (map (map (λ text, View.mkCell text false false))
                [[js "Cell 1"; js "Cell 2"; js "Cell 3"];
                 [js "Cell 4"; js "Cell 5"; js "Cell 6"]])) as (H & _).
  - reflexivity.
  - vm_compute. reflexivity.
  - vm_compute. reflexivity.
  - exact H.
Defined.

Example dragging_after_toggle :
  View.header_draggable
    (View.editableTable (View.toggleMode sample_page)) 0 = true.
Proof. vm_compute. reflexivity. Qed.
